(** * EthGrid: ownership ledger of rectangular plots

    A shallow embedding of [contracts/EthGrid.sol] (Solidity 0.4.23) and
    the verification of its purchase path: validation of the submitted
    tiling, payout of the sellers, and the ledger update.  It goes on
    with the other external functions ([updateAuction], [withdraw]),
    with what any sequence of transactions leaves of the ledger, and
    with the call data the client builds
    ([src/actionCreators/DataActions.ts]).

    Conventions.
    - [uint256] and [uint24] values are integers in [Z]; every unchecked
      [+] and [*] of the contract is written with its wrap-around
      ([add256], [mul256]).
    - Storage mappings are [gmap]s read with the Solidity default (zero,
      the empty array) where no entry was written.  Array lengths and
      loop counters are natural numbers.
    - A contract function is a computation in the monad [M]: it threads
      the contract state and may abort.  The EVM gives no reason for a
      failed [require]; the [Failure] attached to an abort names the
      statement that stopped the call.
    - A transaction ([call]) runs a function; when it aborts, every
      effect of the call is undone. *)

From Stdlib Require Import ZArith List Bool String DecimalString Lia.
From stdpp Require Import base option list gmap.
Import ListNotations.

#[local] Open Scope Z_scope.

(** ** Machine integers *)

Definition address := Z.

Definition UINT256 : Z := 2 ^ 256.
Definition UINT24 : Z := 2 ^ 24.

Definition is_uint256 (z : Z) : Prop := 0 <= z < UINT256.
Definition is_uint24 (z : Z) : Prop := 0 <= z < UINT24.

(** Unchecked [uint256] addition and multiplication. *)
Definition add256 (a b : Z) : Z := (a + b) mod UINT256.
Definition mul256 (a b : Z) : Z := (a * b) mod UINT256.

(** ** Data model *)

(** Modelled from the spec: the struct [Rect] of the library
    [contracts/Geometry.sol], which the contract imports and which is
    not part of the sources at hand.  Section 4.1: an axis-aligned
    rectangle with non-negative integer coordinates; the contract reads
    its fields [x], [y], [w], [h].  [validatePurchases] builds it from
    elements of a [uint256] array without a cast, which Solidity only
    accepts for [uint256] fields. *)
Module Geometry.
Record Rect : Type := mkRect { x : Z; y : Z; w : Z; h : Z }.
End Geometry.
Abbreviation Rect := Geometry.Rect.

(** [struct ZoneOwnership]: a rectangle ([uint24] fields) and its owner. *)
Module Zone.
Record ZoneOwnership : Type :=
  mk { x : Z; y : Z; w : Z; h : Z; owner : address }.
End Zone.
Abbreviation ZoneOwnership := Zone.ZoneOwnership.

(** [struct ZoneData]. *)
Record ZoneData : Type := mkZoneData { ipfsHash : string; url : string }.

Inductive Event : Type :=
  | AuctionUpdated (tokenId newPriceInWeiPerPixel : Z) (owner : address)
  | PlotPurchased (newZoneId totalPrice : Z) (buyer : address)
  | PlotSectionSold (zoneId totalPrice : Z) (buyer seller : address).

(** The contract storage ([ownership], [data], [tokenIdToAuction],
    [holes], and [owner] inherited from [Ownable]), the ether balances of
    all accounts, and the events emitted so far. *)
Record State : Type := mkState {
  ownership : list ZoneOwnership;
  data : gmap Z ZoneData;
  tokenIdToAuction : gmap Z Z;
  holes : gmap Z (list Z);
  owner : address;
  balances : gmap address Z;
  log : list Event
}.

(** What a call sees of its environment: the contract's own address,
    [msg.sender], [msg.value], and which accounts accept a plain ether
    transfer (an externally owned account always does; a contract may
    refuse). *)
Record Env : Type := mkEnv {
  this : address;
  msg_sender : address;
  msg_value : Z;
  can_receive : address -> bool
}.

(** ** Constants *)

Definition GRID_WIDTH : Z := 250.
Definition GRID_HEIGHT : Z := 250.
Definition INITIAL_AUCTION_PRICE : Z := 20000 * 1000000000.
Definition FEE_IN_THOUSANDS_OF_PERCENT : Z := 1000.
Definition MAXIMUM_PURCHASE_AREA : Z := 1000.

(** ** Aborting state monad *)

(** The statement at which a call stopped. *)
Inductive Failure : Type :=
  | BoundsError          (* target rectangle outside the grid, empty, or too large *)
  | MalformedTiling      (* array lengths of the call data do not fit *)
  | PieceOutsideTarget   (* a piece is not inside the target rectangle *)
  | IncompleteTiling     (* piece areas do not add up to the target area *)
  | OverlappingPieces    (* two pieces overlap *)
  | OwnershipMismatch    (* a piece is not inside its owner's rectangle *)
  | HoleConflict         (* a piece overlaps a hole of its owner *)
  | NotForSale           (* the owner's price is zero *)
  | InsufficientFee      (* the remainder does not cover the fee *)
  | Overflow             (* SafeMath assertion in mul or add *)
  | Underflow            (* SafeMath assertion in sub: at the payout, msg.value
                            does not cover the prices *)
  | DivisionByZero
  | OutOfRange           (* array index out of range *)
  | GeometryRevert       (* the Geometry library aborted *)
  | TransferFailed
  | NotOwner
  | NotAuthorized
  | NonPayable           (* ether sent to a function that is not payable *)
  | InsufficientFunds.   (* the sender cannot pay msg.value *)

Inductive Outcome (A : Type) : Type :=
  | Ok (a : A) (s : State)
  | Revert (e : Failure) (s : State).
Arguments Ok {A} a s.
Arguments Revert {A} e s.

Definition M (A : Type) : Type := State -> Outcome A.

Definition ret {A} (a : A) : M A := fun s => Ok a s.

Definition bind {A B} (m : M A) (k : A -> M B) : M B :=
  fun s => match m s with
           | Ok a s' => k a s'
           | Revert e s' => Revert e s'
           end.

Notation "x <- m ;; k" := (bind m (fun x => k))
  (at level 100, m at next level, right associativity).
Notation "m ;;; k" := (bind m (fun _ => k))
  (at level 100, right associativity).

Definition revert {A} (e : Failure) : M A := fun s => Revert e s.

(** [require(b)] and [assert(b)]. *)
Definition require (b : bool) (e : Failure) : M unit :=
  if b then ret tt else revert e.

Definition gets {A} (f : State -> A) : M A := fun s => Ok (f s) s.
Definition modify (f : State -> State) : M unit := fun s => Ok tt (f s).

(** [a[i]] on an array: aborts outside the array. *)
Definition index {A} (l : list A) (i : nat) : M A :=
  match l !! i with
  | Some a => ret a
  | None => revert OutOfRange
  end.

(** [for (i = start; i < start + n; i++) acc = body i acc]. *)
Fixpoint for_loop {A} (n : nat) (i : nat) (body : nat -> A -> M A) (acc : A) : M A :=
  match n with
  | O => ret acc
  | S n' => acc' <- body i acc ;; for_loop n' (S i) body acc'
  end.

(** State of the call when it returned or stopped. *)
Definition final_state {A} (o : Outcome A) : State :=
  match o with Ok _ s => s | Revert _ s => s end.


(** ** SafeMath (OpenZeppelin, imported by the contract) *)

Module SafeMath.

Definition mul (a b : Z) : M Z :=
  if a =? 0 then ret 0
  else
    let c := mul256 a b in
    require (c / a =? b) Overflow ;;;
    ret c.

Definition div (a b : Z) : M Z :=
  require (negb (b =? 0)) DivisionByZero ;;;
  ret (a / b).

Definition sub (a b : Z) : M Z :=
  require (b <=? a) Underflow ;;;
  ret (a - b).

Definition add (a b : Z) : M Z :=
  let c := add256 a b in
  require (a <=? c) Overflow ;;;
  ret c.

End SafeMath.

(** ** Storage access *)

Definition set_ownership (v : list ZoneOwnership) (s : State) : State :=
  mkState v (data s) (tokenIdToAuction s) (holes s) (owner s) (balances s) (log s).
Definition set_data (v : gmap Z ZoneData) (s : State) : State :=
  mkState (ownership s) v (tokenIdToAuction s) (holes s) (owner s) (balances s) (log s).
Definition set_tokenIdToAuction (v : gmap Z Z) (s : State) : State :=
  mkState (ownership s) (data s) v (holes s) (owner s) (balances s) (log s).
Definition set_holes (v : gmap Z (list Z)) (s : State) : State :=
  mkState (ownership s) (data s) (tokenIdToAuction s) v (owner s) (balances s) (log s).
Definition set_balances (v : gmap address Z) (s : State) : State :=
  mkState (ownership s) (data s) (tokenIdToAuction s) (holes s) (owner s) v (log s).
Definition set_log (v : list Event) (s : State) : State :=
  mkState (ownership s) (data s) (tokenIdToAuction s) (holes s) (owner s) (balances s) v.

(** [ownership.length]. *)
Definition ownershipLength (s : State) : Z := Z.of_nat (length (ownership s)).

(** [ownership[i]] for a [uint256] index. *)
Definition ownershipAt (i : Z) : M ZoneOwnership :=
  l <- gets ownership ;;
  index l (Z.to_nat i).

(** [tokenIdToAuction[id]]: zero where nothing was stored. *)
Definition priceOf (s : State) (id : Z) : Z := default 0 (tokenIdToAuction s !! id).

(** [holes[id]]: the empty array where nothing was stored. *)
Definition holesOf (s : State) (id : Z) : list Z := default [] (holes s !! id).

Definition balanceOf (s : State) (a : address) : Z := default 0 (balances s !! a).

Definition emit (e : Event) : M unit := modify (fun s => set_log (log s ++ [e]) s).

(** Moving [amount] wei between two accounts. *)
Definition move (from to : address) (amount : Z) (s : State) : State :=
  let b1 := <[from := balanceOf s from - amount]> (balances s) in
  let b2 := <[to := default 0 (b1 !! to) + amount]> b1 in
  set_balances b2 s.

(** [to.transfer(amount)] from the contract: aborts when the contract
    holds less than [amount] or the recipient refuses the payment. *)
Definition transfer (env : Env) (to : address) (amount : Z) : M unit :=
  bal <- gets (fun s => balanceOf s (this env)) ;;
  require ((amount <=? bal) && can_receive env to) TransferFailed ;;;
  modify (move (this env) to amount).

(** ** The contract *)

Definition zoneRect (z : ZoneOwnership) : Rect :=
  Geometry.mkRect (Zone.x z) (Zone.y z) (Zone.w z) (Zone.h z).

Section EthGrid.

(** The two functions of the imported [Geometry] library.  Both are
    pure; [None] stands for an abort inside the library. *)
Variable doRectanglesOverlap : Rect -> Rect -> option bool.
Variable computeRectOverlap : Rect -> Rect -> option Rect.

Definition geometry {A} (o : option A) : M A :=
  match o with
  | Some a => ret a
  | None => revert GeometryRevert
  end.

(** [getPriceOfAuctionedZone] *)
Definition getPriceOfAuctionedZone (rectToPurchase : Rect) (auctionedZoneId : Z) : M Z :=
  auctionPricePerPixel <- gets (fun s => priceOf s auctionedZoneId) ;;
  require (0 <? auctionPricePerPixel) NotForSale ;;;
  area <- SafeMath.mul (Geometry.w rectToPurchase) (Geometry.h rectToPurchase) ;;
  SafeMath.mul area auctionPricePerPixel.

(** The hole loop of [distributePurchaseFunds]: no hole of
    [ownershipIndex] overlaps the piece.  Nothing writes [holes] during
    the loop; its length is read once. *)
Definition checkHoles (piece : Rect) (ownershipIndex : Z) : M unit :=
  n <- gets (fun s => length (holesOf s ownershipIndex)) ;;
  for_loop n 0 (fun holeIndex _ =>
    hs <- gets (fun s => holesOf s ownershipIndex) ;;
    hole <- index hs holeIndex ;;
    holeOwnership <- ownershipAt hole ;;
    let holeRect := zoneRect holeOwnership in
    o <- geometry (doRectanglesOverlap piece holeRect) ;;
    require (negb o) HoleConflict) tt.

(** One iteration of the loop of [distributePurchaseFunds], on the
    local variables [(remainingBalance, owedToSeller)].  The source
    reads [rects[areaIndicesIndex]] and [ownership[ownershipIndex]]
    field by field; nothing writes them during the loop, and they are
    read once here. *)
Definition distributeStep (env : Env) (rectToPurchase : Rect) (rects : list Rect)
    (areaIndices : list Z) (areaIndicesIndex : nat) (acc : Z * Z) : M (Z * Z) :=
  let remainingBalance := fst acc in
  let owedToSeller := snd acc in
  ownershipIndex <- index areaIndices areaIndicesIndex ;;
  zone <- ownershipAt ownershipIndex ;;
  let currentOwnershipRect := zoneRect zone in
  o <- geometry (doRectanglesOverlap rectToPurchase currentOwnershipRect) ;;
  require o OwnershipMismatch ;;;
  overlap <- geometry (computeRectOverlap rectToPurchase currentOwnershipRect) ;;
  piece <- index rects areaIndicesIndex ;;
  require (Geometry.x overlap <=? Geometry.x piece) OwnershipMismatch ;;;
  require (Geometry.y overlap <=? Geometry.y piece) OwnershipMismatch ;;;
  require (add256 (Geometry.x piece) (Geometry.w piece)
             <=? add256 (Geometry.x overlap) (Geometry.w overlap)) OwnershipMismatch ;;;
  require (add256 (Geometry.y piece) (Geometry.h piece)
             <=? add256 (Geometry.y overlap) (Geometry.h overlap)) OwnershipMismatch ;;;
  checkHoles piece ownershipIndex ;;;
  sectionPrice <- getPriceOfAuctionedZone piece ownershipIndex ;;
  remainingBalance <- SafeMath.sub remainingBalance sectionPrice ;;
  owedToSeller <- SafeMath.add owedToSeller sectionPrice ;;
  payout <- (if Nat.eqb areaIndicesIndex (length areaIndices - 1) then ret true
             else next <- index areaIndices (areaIndicesIndex + 1) ;;
                  ret (negb (ownershipIndex =? next))) ;;
  if (payout : bool) then
    transfer env (Zone.owner zone) owedToSeller ;;;
    emit (PlotSectionSold ownershipIndex owedToSeller (msg_sender env) (Zone.owner zone)) ;;;
    ret (remainingBalance, 0)
  else ret (remainingBalance, owedToSeller).

(** [distributePurchaseFunds] *)
Definition distributePurchaseFunds (env : Env) (rectToPurchase : Rect)
    (rects : list Rect) (areaIndices : list Z) : M Z :=
  acc <- for_loop (length areaIndices) 0
           (distributeStep env rectToPurchase rects areaIndices) (msg_value env, 0) ;;
  ret (fst acc).

(** First loop of [validatePurchases], on [(totalArea, rects)]. *)
Definition collectStep (rectToPurchase : Rect) (purchasedAreas : list Z)
    (i : nat) (acc : Z * list Rect) : M (Z * list Rect) :=
  let totalArea := fst acc in
  let rects := snd acc in
  x <- index purchasedAreas (i * 4) ;;
  y <- index purchasedAreas (i * 4 + 1) ;;
  w <- index purchasedAreas (i * 4 + 2) ;;
  h <- index purchasedAreas (i * 4 + 3) ;;
  let rect := Geometry.mkRect x y w h in
  let rects := <[i := rect]> rects in
  a <- SafeMath.mul (Geometry.w rect) (Geometry.h rect) ;;
  totalArea <- SafeMath.add totalArea a ;;
  require (Geometry.x rectToPurchase <=? Geometry.x rect) PieceOutsideTarget ;;;
  require (Geometry.y rectToPurchase <=? Geometry.y rect) PieceOutsideTarget ;;;
  require (add256 (Geometry.x rect) (Geometry.w rect)
             <=? add256 (Geometry.x rectToPurchase) (Geometry.w rectToPurchase))
          PieceOutsideTarget ;;;
  require (add256 (Geometry.y rect) (Geometry.h rect)
             <=? add256 (Geometry.y rectToPurchase) (Geometry.h rectToPurchase))
          PieceOutsideTarget ;;;
  ret (totalArea, rects).

(** Second loop of [validatePurchases]: no two pieces overlap. *)
Definition checkDisjoint (rects : list Rect) : M unit :=
  for_loop (length rects) 0 (fun i _ =>
    for_loop (length rects - (i + 1)) (i + 1) (fun j _ =>
      ri <- index rects i ;;
      rj <- index rects j ;;
      o <- geometry (doRectanglesOverlap ri rj) ;;
      require (negb o) OverlappingPieces) tt) tt.

(** The five [require]s of [validatePurchases] on the rectangle to
    purchase. *)
Definition checkTarget (rectToPurchase : Rect) : M unit :=
  let px := Geometry.x rectToPurchase in
  let py := Geometry.y rectToPurchase in
  let pw := Geometry.w rectToPurchase in
  let ph := Geometry.h rectToPurchase in
  require ((px <? GRID_WIDTH) && (0 <=? px)) BoundsError ;;;
  require ((py <? GRID_HEIGHT) && (0 <=? py)) BoundsError ;;;
  require ((0 <? pw) && (add256 pw px <=? GRID_WIDTH)) BoundsError ;;;
  require ((0 <? ph) && (add256 ph py <=? GRID_HEIGHT)) BoundsError ;;;
  require (mul256 pw ph <? MAXIMUM_PURCHASE_AREA) BoundsError.

(** [validatePurchases] *)
Definition validatePurchases (env : Env)
    (purchase purchasedAreas areaIndices : list Z) : M Z :=
  require (Nat.eqb (length purchase) 4) MalformedTiling ;;;
  px <- index purchase 0 ;;
  py <- index purchase 1 ;;
  pw <- index purchase 2 ;;
  ph <- index purchase 3 ;;
  let rectToPurchase := Geometry.mkRect px py pw ph in
  checkTarget rectToPurchase ;;;
  require (Nat.leb 4 (length purchasedAreas)) MalformedTiling ;;;
  require (Nat.ltb 0 (length areaIndices)) MalformedTiling ;;;
  require (Nat.eqb (length purchasedAreas mod 4) 0) MalformedTiling ;;;
  require (Nat.eqb (length purchasedAreas / 4) (length areaIndices)) MalformedTiling ;;;
  let n := length areaIndices in
  acc <- for_loop n 0 (collectStep rectToPurchase purchasedAreas)
           (0, replicate n (Geometry.mkRect 0 0 0 0)) ;;
  let totalArea := fst acc in
  let rects := snd acc in
  require (totalArea =? mul256 pw ph) IncompleteTiling ;;;
  checkDisjoint rects ;;;
  remainingBalance <- distributePurchaseFunds env rectToPurchase rects areaIndices ;;
  purchasePrice <- SafeMath.sub (msg_value env) remainingBalance ;;
  scaled <- SafeMath.mul purchasePrice FEE_IN_THOUSANDS_OF_PERCENT ;;
  requiredFee <- SafeMath.div scaled (1000 * 100) ;;
  require (requiredFee <=? remainingBalance) InsufficientFee ;;;
  ret purchasePrice.

(** [holes[id].push(v)] *)
Definition push_hole (id v : Z) (s : State) : State :=
  set_holes (<[id := holesOf s id ++ [v]]> (holes s)) s.

(** [purchaseAreaWithData] *)
Definition purchaseAreaWithData (env : Env)
    (purchase purchasedAreas areaIndices : list Z)
    (ipfsHash url : string) (initialBuyoutPriceInWeiPerPixel : Z) : M unit :=
  initialPurchasePrice <- validatePurchases env purchase purchasedAreas areaIndices ;;
  modify (fun s => set_holes (<[ownershipLength s := []]> (holes s)) s) ;;;
  for_loop (length areaIndices) 0 (fun i _ =>
    id <- index areaIndices i ;;
    modify (fun s => push_hole id (ownershipLength s) s)) tt ;;;
  modify (fun s => set_data (<[ownershipLength s := mkZoneData ipfsHash url]> (data s)) s) ;;;
  modify (fun s => set_tokenIdToAuction
                     (<[ownershipLength s := initialBuyoutPriceInWeiPerPixel]>
                        (tokenIdToAuction s)) s) ;;;
  len <- gets ownershipLength ;;
  emit (PlotPurchased len initialPurchasePrice (msg_sender env)) ;;;
  x <- index purchase 0 ;;
  y <- index purchase 1 ;;
  w <- index purchase 2 ;;
  h <- index purchase 3 ;;
  let newZone := Zone.mk x y w h (msg_sender env) in
  modify (fun s => set_ownership (ownership s ++ [newZone]) s).

(** [setAuctionPrice] *)
Definition setAuctionPrice (env : Env) (zoneIndex newPriceInWeiPerPixel : Z) : M unit :=
  require (0 <=? zoneIndex) OutOfRange ;;;
  len <- gets ownershipLength ;;
  require (zoneIndex <? len) OutOfRange ;;;
  zone <- ownershipAt zoneIndex ;;
  require (msg_sender env =? Zone.owner zone) NotOwner ;;;
  modify (fun s => set_tokenIdToAuction
                     (<[zoneIndex := newPriceInWeiPerPixel]> (tokenIdToAuction s)) s).

(** [updateAuction] *)
Definition updateAuction (env : Env) (zoneIndex newPriceInWeiPerPixel : Z) : M unit :=
  setAuctionPrice env zoneIndex newPriceInWeiPerPixel ;;;
  emit (AuctionUpdated zoneIndex newPriceInWeiPerPixel (msg_sender env)).

(** [withdraw], with the [onlyOwner] modifier of [Ownable]. *)
Definition withdraw (env : Env) (transferTo : address) : M unit :=
  o <- gets owner ;;
  require (msg_sender env =? o) NotAuthorized ;;;
  require (transferTo =? o) NotAuthorized ;;;
  currentBalance <- gets (fun s => balanceOf s (this env)) ;;
  transfer env o currentBalance.

(** The constructor, run by [msg.sender] over the balances [bal] of the
    chain; [Ownable] makes the deployer the [owner]. *)
Definition constructor (env : Env) (bal : gmap address Z) : State :=
  let admin := msg_sender env in
  move admin (this env) (msg_value env)
    (mkState [Zone.mk 0 0 GRID_WIDTH GRID_HEIGHT admin]
             {[ 0 := mkZoneData "Qmb51AikiN8p6JsEcCZgrV4d7C6d6uZnCmfmaT15VooUyv/img.svg"
                                "https://www.ethplot.com/" ]}
             {[ 0 := INITIAL_AUCTION_PRICE ]}
             {[ 0 := [] ]}
             admin bal []).

(** ** Transactions *)

Inductive Receipt : Type :=
  | Success
  | Failed (e : Failure).

(** A call from outside: [msg.value] moves from the sender to the
    contract, the function runs, and when it aborts the state of
    before the call is restored. *)
Definition call (payable : bool) (env : Env) (body : M unit) (s : State)
    : State * Receipt :=
  if negb payable && negb (msg_value env =? 0) then (s, Failed NonPayable)
  else if balanceOf s (msg_sender env) <? msg_value env then (s, Failed InsufficientFunds)
  else match body (move (msg_sender env) (this env) (msg_value env) s) with
       | Ok _ s' => (s', Success)
       | Revert e _ => (s, Failed e)
       end.

(** The external functions of the contract.  Those it inherits from
    [Ownable] only write [owner]. *)
Inductive Tx : Type :=
  | Purchase (purchase purchasedAreas areaIndices : list Z)
             (ipfsHash url : string) (initialBuyoutPriceInWeiPerPixel : Z)
  | UpdateAuction (zoneIndex newPriceInWeiPerPixel : Z)
  | Withdraw (transferTo : address).

Definition execute (env : Env) (tx : Tx) (s : State) : State * Receipt :=
  match tx with
  | Purchase p a i ipfs u price =>
      call true env (purchaseAreaWithData env p a i ipfs u price) s
  | UpdateAuction z p => call false env (updateAuction env z p) s
  | Withdraw t => call false env (withdraw env t) s
  end.

End EthGrid.

(** ** A model of the Geometry library *)

(** Modelled from the spec: the library [contracts/Geometry.sol]
    ([doRectanglesOverlap], [computeRectOverlap]) is imported by the
    contract and is not part of the sources at hand.  Section 4.1: the
    overlap test is true iff the two rectangles share positive area
    (touching edges do not count); the intersection fails when they do
    not overlap and is otherwise the largest rectangle inside both; and
    the arithmetic fails rather than wraps. *)
Module GeometrySpec.

Definition fits (r : Rect) : bool :=
  (Geometry.x r + Geometry.w r <? UINT256) && (Geometry.y r + Geometry.h r <? UINT256).

Definition left (a b : Rect) : Z := Z.max (Geometry.x a) (Geometry.x b).
Definition top (a b : Rect) : Z := Z.max (Geometry.y a) (Geometry.y b).
Definition right (a b : Rect) : Z :=
  Z.min (Geometry.x a + Geometry.w a) (Geometry.x b + Geometry.w b).
Definition bottom (a b : Rect) : Z :=
  Z.min (Geometry.y a + Geometry.h a) (Geometry.y b + Geometry.h b).

Definition doRectanglesOverlap (a b : Rect) : option bool :=
  if fits a && fits b
  then Some ((left a b <? right a b) && (top a b <? bottom a b))
  else None.

Definition computeRectOverlap (a b : Rect) : option Rect :=
  match doRectanglesOverlap a b with
  | Some true =>
      Some (Geometry.mkRect (left a b) (top a b)
              (right a b - left a b) (bottom a b - top a b))
  | _ => None
  end.

End GeometrySpec.

(** The contract over this model of the library. *)
Definition run (env : Env) (tx : Tx) (s : State) : State * Receipt :=
  execute GeometrySpec.doRectanglesOverlap GeometrySpec.computeRectOverlap env tx s.


(** ** The caller: how the client builds a purchase *)

(** [buildArrayFromRectangles] and the transaction of [purchasePlot], of
    [src/actionCreators/DataActions.ts].

    The client works with JavaScript numbers and with the values of
    bignumber.js, and hands its arguments to the wrapper of the contract
    that is generated from the ABI ([gen-src/EthGrid]).  Neither library
    is part of the sources at hand, and nothing is assumed of them here:
    - [number] and [BigNumber] are the values of the two kinds;
    - [ofNumber n] and [ofString s] are [new BigNumber(n)] for a number
      and for a string, [None] when the constructor throws (as it does
      for a number with too many significant digits, or for a string
      that is no numeral);
    - [toUint24 b] and [toUint256 b] are the integers the contract
      receives for [b] as an argument of type [uint24] and [uint256],
      [None] when [b] cannot be encoded.

    [computePurchaseInfo] is not part of the sources at hand either:
    what [purchasePlot] takes from its result ([chunksToPurchase],
    [chunksToPurchaseAreaIndices]) is an argument here.  An [undefined]
    url or buyout price is [None]. *)
Module Client.

Section Library.

Variable number : Type.
Variable BigNumber : Type.
Variable zero : number.
Variable ofNumber : number -> option BigNumber.
Variable ofString : string -> option BigNumber.
Variable toUint24 : BigNumber -> option Z.
Variable toUint256 : BigNumber -> option Z.

(** The rectangles of the client, as [addPlotToGrid] builds them. *)
Record Rect : Type := mkRect {
  x : number; y : number; w : number; h : number; x2 : number; y2 : number
}.

(** [result.push(new BigNumber(n))]: nothing is pushed when the
    constructor throws, and the exception ends the loop. *)
Definition pushNew (result : option (list BigNumber)) (n : number)
    : option (list BigNumber) :=
  match result with
  | Some r => match ofNumber n with
              | Some b => Some (r ++ [b])
              | None => None
              end
  | None => None
  end.

Definition buildArrayFromRectangles (rects : list Rect) : option (list BigNumber) :=
  foldl (fun result rect =>
           pushNew (pushNew (pushNew (pushNew result (x rect)) (y rect)) (w rect)) (h rect))
        (Some []) rects.

(** [new BigNumber(initialBuyoutPerPixelInWei || 0)]: an [undefined] or
    empty string is falsy. *)
Definition buyoutOrZero (initialBuyoutPerPixelInWei : option string) : option BigNumber :=
  match initialBuyoutPerPixelInWei with
  | Some (String c s) => ofString (String c s)
  | Some EmptyString | None => ofNumber zero
  end.

(** The call [contract.purchaseAreaWithDataTx(...)] of [purchasePlot],
    as it reaches the contract; [None] when building or encoding an
    argument throws, and no transaction is sent. *)
Definition purchaseTx (rectToPurchase : Rect) (chunksToPurchase : list Rect)
    (chunksToPurchaseAreaIndices : list number) (url : option string) (ipfsHash : string)
    (initialBuyoutPerPixelInWei : option string) : option Tx :=
  purchase ← buildArrayFromRectangles [rectToPurchase];
  purchasedAreas ← buildArrayFromRectangles chunksToPurchase;
  purchasedAreaIndices ← mapM ofNumber chunksToPurchaseAreaIndices;
  initialBuyoutPerPixelInWeiBN ← buyoutOrZero initialBuyoutPerPixelInWei;
  p ← mapM toUint24 purchase;
  a ← mapM toUint256 purchasedAreas;
  i ← mapM toUint256 purchasedAreaIndices;
  b ← toUint256 initialBuyoutPerPixelInWeiBN;
  Some (Purchase p a i ipfsHash (default EmptyString url) b).

End Library.

End Client.


(** * Vocabulary of the verification

    The predicates and functions the statements are written with: the
    contract storage as a whole, the tiling of a purchase with its exact
    price and its payments, the state a purchase leaves, and the
    scenarios the statements are tried on. *)

(** ** The contract storage and the computations that only read it *)

(** Two states with the same contract storage. *)
Definition ledger_eq (s s' : State) : Prop :=
  ownership s' = ownership s /\ data s' = data s /\
  tokenIdToAuction s' = tokenIdToAuction s /\ holes s' = holes s /\
  owner s' = owner s.

(** [agree o1 s1 o2 s2]: both runs left their state as it was and ended
    in the same way. *)
Definition agree {A} (o1 : Outcome A) (s1 : State) (o2 : Outcome A) (s2 : State) : Prop :=
  match o1, o2 with
  | Ok a t1, Ok b t2 => a = b /\ t1 = s1 /\ t2 = s2
  | Revert e t1, Revert e' t2 => e = e' /\ t1 = s1 /\ t2 = s2
  | _, _ => False
  end.

(** A reader writes nothing, and what it returns depends on the contract
    storage only. *)
Definition reader {A} (m : M A) : Prop :=
  forall s1 s2, ledger_eq s1 s2 -> agree (m s1) s1 (m s2) s2.

(** A computation keeps the ledger when the contract storage is the same
    at its end, however it ends. *)
Definition keeps {A} (m : M A) : Prop :=
  forall s, ledger_eq s (final_state (m s)).

(** ** The ledger update of a purchase *)

(** [holes[id].push(v)] for every [id] of [ids], in order. *)
Definition push_all (ids : list Z) (v : Z) (s : State) : State :=
  foldl (fun s id => push_hole id v s) s ids.

(** The state a purchase leaves, from the state [s1] in which
    [validatePurchases] returned the price [P]. *)
Definition record_purchase (env : Env) (areaIndices : list Z) (ipfsHash url : string)
    (price P x y w h : Z) (s1 : State) : State :=
  let len := ownershipLength s1 in
  mkState (ownership s1 ++ [Zone.mk x y w h (msg_sender env)])
          (<[len := mkZoneData ipfsHash url]> (data s1))
          (<[len := price]> (tokenIdToAuction s1))
          (holes (push_all areaIndices len (set_holes (<[len := []]> (holes s1)) s1)))
          (owner s1) (balances s1)
          (log s1 ++ [PlotPurchased len P (msg_sender env)]).

(** The public getter of [ownership]. *)
Definition getRecord (s : State) (id : Z) : option ZoneOwnership :=
  ownership s !! Z.to_nat id.

(** ** One step of the payout loop *)

(** The piece lies inside [overlap] (the four [require]s of
    [distributePurchaseFunds] on the piece). *)
Definition within (piece overlap : Rect) : bool :=
  (Geometry.x overlap <=? Geometry.x piece) &&
  (Geometry.y overlap <=? Geometry.y piece) &&
  (add256 (Geometry.x piece) (Geometry.w piece)
     <=? add256 (Geometry.x overlap) (Geometry.w overlap)) &&
  (add256 (Geometry.y piece) (Geometry.h piece)
     <=? add256 (Geometry.y overlap) (Geometry.h overlap)).

(** Piece [i], of owner [id], is the last one or the next piece has
    another owner. *)
Definition pays_out (idx : list Z) (i : nat) (id : Z) : bool :=
  Nat.eqb i (length idx - 1) || negb (bool_decide (idx !! (i + 1)%nat = Some id)).

(** ** The tiling, its price and its payments *)

(** Piece [i] of the call data: [purchasedAreas[4i .. 4i+3]]. *)
Definition pieceAt (purchasedAreas : list Z) (i : nat) : Rect :=
  Geometry.mkRect (purchasedAreas !!! (i * 4)%nat) (purchasedAreas !!! (i * 4 + 1)%nat)
                  (purchasedAreas !!! (i * 4 + 2)%nat) (purchasedAreas !!! (i * 4 + 3)%nat).

Definition pieces (purchasedAreas : list Z) : list Rect :=
  map (pieceAt purchasedAreas) (seq 0 (length purchasedAreas / 4)).

(** The tiling: each piece with the record it is bought from. *)
Definition tiling (purchasedAreas areaIndices : list Z) : list (Rect * Z) :=
  zip (pieces purchasedAreas) areaIndices.

(** [subRect.w * subRect.h * priceOf(ownerRecordId)], over the integers. *)
Definition sectionPrice (s : State) (p : Rect * Z) : Z :=
  Geometry.w p.1 * Geometry.h p.1 * priceOf s p.2.

(** The sum of the section prices of a tiling, over the integers. *)
Definition totalPrice (s : State) (t : list (Rect * Z)) : Z :=
  foldr (fun p acc => sectionPrice s p + acc) 0 t.

(** The payments of a settlement: the section prices are accumulated
    from [owed]; at the last piece, and whenever the next piece has
    another owner, the accumulated amount is paid and the accumulator
    reset. *)
Fixpoint payouts (s : State) (owed : Z) (t : list (Rect * Z)) : list (Z * Z) :=
  match t with
  | [] => []
  | p :: rest =>
      let owed' := owed + sectionPrice s p in
      match rest with
      | [] => [(p.2, owed')]
      | q :: _ =>
          if p.2 =? q.2 then payouts s owed' rest
          else (p.2, owed') :: payouts s 0 rest
      end
  end.

(** One payment [(id, amount)]: the transfer to the owner of record [id]
    and its [PlotSectionSold] event. *)
Definition sellerOf (own : list ZoneOwnership) (id : Z) : address :=
  match own !! Z.to_nat id with
  | Some z => Zone.owner z
  | None => 0
  end.

Definition pay (env : Env) (s : State) (p : Z * Z) : State :=
  let seller := sellerOf (ownership s) p.1 in
  set_log (log s ++ [PlotSectionSold p.1 p.2 (msg_sender env) seller])
    (move (this env) seller p.2 s).

Definition settle (env : Env) (ps : list (Z * Z)) (s : State) : State :=
  foldl (pay env) s ps.

(** A width as a [uint256] has it. *)
Definition nonneg_width (r : Rect) : Prop := 0 <= Geometry.w r.

(** The fee [validatePurchases] requires for the price [P]. *)
Definition requiredFee (P : Z) : Z := P * FEE_IN_THOUSANDS_OF_PERCENT / (1000 * 100).

(** ** Calls, rectangles and records *)

(** The same call with another payment, or from another sender. *)
Definition with_value (env : Env) (v : Z) : Env :=
  mkEnv (this env) (msg_sender env) v (can_receive env).
Definition with_sender (env : Env) (b : address) : Env :=
  mkEnv (this env) b (msg_value env) (can_receive env).

(** The state in which a payable function starts to run. *)
Definition entry (env : Env) (s : State) : State :=
  move (msg_sender env) (this env) (msg_value env) s.

(** The invariant of an ownership record, over the integers. *)
Definition valid_zone (z : ZoneOwnership) : Prop :=
  0 < Zone.w z /\ 0 < Zone.h z /\
  Zone.x z + Zone.w z <= GRID_WIDTH /\ Zone.y z + Zone.h z <= GRID_HEIGHT.

(** A rectangle within the grid and not empty, and its area, over the
    integers. *)
Definition in_grid (t : Rect) : Prop :=
  0 < Geometry.w t /\ 0 < Geometry.h t /\
  Geometry.x t + Geometry.w t <= GRID_WIDTH /\
  Geometry.y t + Geometry.h t <= GRID_HEIGHT.

Definition area (t : Rect) : Z := Geometry.w t * Geometry.h t.

(** What the first precondition of the validation admits. *)
Definition admissible (t : Rect) : Prop :=
  in_grid t /\ area t < MAXIMUM_PURCHASE_AREA.

(** A rectangle built from [uint24] values. *)
Definition uint24_rect (t : Rect) : Prop :=
  is_uint24 (Geometry.x t) /\ is_uint24 (Geometry.y t) /\
  is_uint24 (Geometry.w t) /\ is_uint24 (Geometry.h t).

(** Call data of the declared types: [uint24[] purchase]. *)
Definition well_typed (tx : Tx) : Prop :=
  match tx with
  | Purchase p _ _ _ _ _ => Forall is_uint24 p
  | _ => True
  end.

(** The [PlotSectionSold] event of a payment. *)
Definition sale (env : Env) (s : State) (p : Z * Z) : Event :=
  PlotSectionSold p.1 p.2 (msg_sender env) (sellerOf (ownership s) p.1).

(** ** The parts of a validation, and the reachable states *)

Section Vocabulary.

Variable doRectanglesOverlap : Rect -> Rect -> option bool.
Variable computeRectOverlap : Rect -> Rect -> option Rect.

(** What a step that returns has checked and done. *)
Definition step_facts (env : Env) (t : Rect) (rects : list Rect) (idx : list Z)
    (i : nat) (acc : Z * Z) (s : State) (acc' : Z * Z) (s' : State) : Prop :=
  exists id zone overlap piece price,
    idx !! i = Some id /\
    ownership s !! Z.to_nat id = Some zone /\
    doRectanglesOverlap t (zoneRect zone) = Some true /\
    computeRectOverlap t (zoneRect zone) = Some overlap /\
    rects !! i = Some piece /\
    within piece overlap = true /\
    checkHoles doRectanglesOverlap piece id s = Ok tt s /\
    getPriceOfAuctionedZone piece id s = Ok price s /\
    price <= fst acc /\
    snd acc <= add256 (snd acc) price /\
    fst acc' = fst acc - price /\
    if pays_out idx i id then
      snd acc' = 0 /\
      add256 (snd acc) price <= balanceOf s (this env) /\
      can_receive env (Zone.owner zone) = true /\
      s' = set_log (log s ++ [PlotSectionSold id (add256 (snd acc) price)
                                (msg_sender env) (Zone.owner zone)])
             (move (this env) (Zone.owner zone) (add256 (snd acc) price) s)
    else snd acc' = add256 (snd acc) price /\ s' = s.

(** What [validatePurchases] has established when it reaches
    [distributePurchaseFunds]: [t] is the rectangle to purchase. *)
Definition prelude_ok (p a idx : list Z) (t : Rect) (s : State) : Prop :=
  p = [Geometry.x t; Geometry.y t; Geometry.w t; Geometry.h t] /\
  checkTarget t s = Ok tt s /\
  (4 <= length a)%nat /\ (0 < length idx)%nat /\
  (length a mod 4 = 0)%nat /\ (length a / 4 = length idx)%nat /\
  for_loop (length idx) 0 (collectStep t a)
    (0, replicate (length idx) (Geometry.mkRect 0 0 0 0)) s
    = Ok (mul256 (Geometry.w t) (Geometry.h t), pieces a) s /\
  checkDisjoint doRectanglesOverlap (pieces a) s = Ok tt s.

(** The statements of [validatePurchases] from the payout on. *)
Definition settlement (env : Env) (t : Rect) (a idx : list Z) : M Z :=
  remainingBalance <- distributePurchaseFunds doRectanglesOverlap computeRectOverlap
                        env t (pieces a) idx ;;
  purchasePrice <- SafeMath.sub (msg_value env) remainingBalance ;;
  scaled <- SafeMath.mul purchasePrice FEE_IN_THOUSANDS_OF_PERCENT ;;
  requiredFee <- SafeMath.div scaled (1000 * 100) ;;
  require (requiredFee <=? remainingBalance) InsufficientFee ;;;
  ret purchasePrice.

(** The states of the contract: the constructor, then any transactions
    with call data of the declared types. *)
Inductive reachable : State -> Prop :=
  | reachable_constructor env bal : reachable (constructor env bal)
  | reachable_execute env tx s :
      reachable s -> well_typed tx ->
      reachable (execute doRectanglesOverlap computeRectOverlap env tx s).1.

End Vocabulary.

(** ** Scenarios *)

Module Scenario.

Definition grid : address := 1.
Definition admin : address := 100.
Definition alice : address := 101.
Definition bob : address := 102.

Definition everyone (_ : address) : bool := true.

Definition world : gmap address Z :=
  {[ admin := 10 ^ 18; alice := 10 ^ 18; bob := 10 ^ 18 ]}.

Definition env (sender : address) (value : Z) : Env := mkEnv grid sender value everyone.

(** The grid right after its construction by [admin]. *)
Definition s0 : State := constructor (env admin 0) world.

Definition buy (x y w h : Z) (areas idx : list Z) : Tx :=
  Purchase [x; y; w; h] areas idx "hash" "url" 7.

(** Alice buys the pixel at (10, 10) from the first record. *)
Definition pixel : Tx := buy 10 10 1 1 [10; 10; 1; 1] [0].
Definition s1 : State := (run (env alice (505 * 10 ^ 12)) pixel s0).1.

(** Bob buys a 3x1 strip across Alice's pixel: a piece of the first
    record, Alice's pixel, and again a piece of the first record. *)
Definition strip : Tx :=
  buy 9 10 3 1 [9; 10; 1; 1;  10; 10; 1; 1;  11; 10; 1; 1] [0; 1; 0].

(** The admin lowers the price of the first record to one wei. *)
Definition cheap : State := (run (env admin 0) (UpdateAuction 0 1) s0).1.

(** Two pieces, both of the first record. *)
Definition pair : Tx := buy 0 0 2 1 [0; 0; 1; 1;  1; 0; 1; 1] [0; 0].

(** A single piece whose left edge is at [2^256 - 1]. *)
Definition wrapped : Tx := buy 0 0 1 1 [UINT256 - 1; 0; 1; 1] [0].

(** The grid after Bob's strip. *)
Definition s2 : State := (run (env bob (505 * 10 ^ 12)) strip s1).1.

(** On the cheap grid Alice buys the pixel at the origin for one wei. *)
Definition s_cheap : State :=
  (run (env alice 1) (buy 0 0 1 1 [0; 0; 1; 1] [0]) cheap).1.

(** The new grid after Alice's pair. *)
Definition s_pair : State := (run (env alice (505 * 10 ^ 12)) pair s0).1.

(** The admin, owner of the first record, buys the pixel instead. *)
Definition s_self : State := (run (env admin (505 * 10 ^ 12)) pixel s0).1.

End Scenario.

(** ** What a purchase has checked of its pieces *)

Section Checked.

Variable doRectanglesOverlap : Rect -> Rect -> option bool.
Variable computeRectOverlap : Rect -> Rect -> option Rect.

(** No hole of record [id] overlaps the piece: every hole is a record,
    and the library says that its rectangle and the piece do not
    overlap. *)
Definition clear_of_holes (piece : Rect) (id : Z) (s : State) : Prop :=
  Forall (fun hole => exists zh, getRecord s hole = Some zh /\
            doRectanglesOverlap piece (zoneRect zh) = Some false)
         (holesOf s id).

(** Piece [i] of the tiling, bought from record [id], has passed the
    checks of the payout loop for the rectangle to purchase [t]. *)
Definition piece_checked (t : Rect) (rects : list Rect) (s : State) (i : nat) (id : Z)
    : Prop :=
  exists zone overlap piece,
    getRecord s id = Some zone /\
    doRectanglesOverlap t (zoneRect zone) = Some true /\
    computeRectOverlap t (zoneRect zone) = Some overlap /\
    rects !! i = Some piece /\
    within piece overlap = true /\
    clear_of_holes piece id s /\
    0 < priceOf s id.

(** [later s s']: the contract gets from [s] to [s'] by transactions,
    whatever they are and whether they succeed or fail. *)
Inductive later (s : State) : State -> Prop :=
  | later_now : later s s
  | later_execute env tx s' :
      later s s' -> later s (execute doRectanglesOverlap computeRectOverlap env tx s').1.

End Checked.

(** ** The money of a purchase *)

(** What the payments [ps] bring to the account [acct], and what they
    take from the contract. *)
Definition income (own : list ZoneOwnership) (acct : address) (ps : list (Z * Z)) : Z :=
  foldr (fun p acc => (if decide (sellerOf own p.1 = acct) then p.2 else 0) + acc) 0 ps.

Definition paid (ps : list (Z * Z)) : Z := foldr (fun p acc => p.2 + acc) 0 ps.

(** The section prices of the pieces of a tiling that are bought from
    records of [acct]. *)
Definition earned (s : State) (acct : address) (t : list (Rect * Z)) : Z :=
  foldr (fun p acc =>
           (if decide (sellerOf (ownership s) p.2 = acct) then sectionPrice s p else 0) + acc)
        0 t.

(** The sum of the areas of a list of rectangles, over the integers. *)
Definition areas (rects : list Rect) : Z := foldr (fun r acc => area r + acc) 0 rects.

(** ** The call data of the client *)

Section ClientData.

Variable number : Type.
Variable BigNumber : Type.
Variable ofNumber : number -> option BigNumber.
Variable toUint : BigNumber -> option Z.

(** The integer the contract receives for a number of the client, under
    the encoding [toUint] of the argument's type. *)
Definition uintOf (n : number) : option Z := ofNumber n ≫= toUint.

(** The rectangle the contract receives for a rectangle of the
    client. *)
Definition rectOf (r : Client.Rect number) : option Rect :=
  x ← uintOf (Client.x number r);
  y ← uintOf (Client.y number r);
  w ← uintOf (Client.w number r);
  h ← uintOf (Client.h number r);
  Some (Geometry.mkRect x y w h).

(** The constructor throws on one of the four numbers of the
    rectangle. *)
Definition throws (r : Client.Rect number) : Prop :=
  ofNumber (Client.x number r) = None \/ ofNumber (Client.y number r) = None \/
  ofNumber (Client.w number r) = None \/ ofNumber (Client.h number r) = None.

End ClientData.

(** Stand-ins for the two libraries on the scenarios.  Every number is
    an integer; the constructor returns an integer of at most 15 digits
    as it is and throws on any other; it reads a string of decimal
    digits and throws on any other string; an integer in the range of
    the argument's type is encoded as itself. *)
Module ClientScenario.

Definition ofNumber (n : Z) : option Z := if Z.abs n <? 10 ^ 15 then Some n else None.
Definition ofString (s : string) : option Z :=
  option_map Z.of_uint (NilEmpty.uint_of_string s).
Definition toUint24 (b : Z) : option Z :=
  if (0 <=? b) && (b <? UINT24) then Some b else None.
Definition toUint256 (b : Z) : option Z :=
  if (0 <=? b) && (b <? UINT256) then Some b else None.

Definition rect (x y w h : Z) : Client.Rect Z := Client.mkRect Z x y w h (x + w) (y + h).

End ClientScenario.

(** Alice has taken her pixel off the market: the grid after Alice's
    purchase, with the price of her record set to zero. *)
Definition off_market : State :=
  (run (Scenario.env Scenario.alice 0) (UpdateAuction 1 0) Scenario.s1).1.

(** * Verification *)

(** ** Running a computation *)

Lemma bind_ok {A B} (m : M A) (k : A -> M B) s b s' :
  bind m k s = Ok b s' <-> exists a s1, m s = Ok a s1 /\ k a s1 = Ok b s'.
Proof.
  unfold bind. split.
  - destruct (m s) as [a s1|e s1]; [eauto | discriminate].
  - intros (a & s1 & -> & H). exact H.
Qed.

Lemma require_ok b e s u s' : require b e s = Ok u s' <-> b = true /\ s' = s.
Proof.
  destruct b; simpl; unfold ret, revert; split.
  - intros [= _ ->]; auto.
  - intros [_ ->]. by destruct u.
  - discriminate.
  - intros [? _]; discriminate.
Qed.

Lemma require_true e s : require true e s = Ok tt s.
Proof. reflexivity. Qed.

Lemma index_ok {A} (l : list A) i s a s' :
  index l i s = Ok a s' <-> l !! i = Some a /\ s' = s.
Proof.
  unfold index. destruct (l !! i); unfold ret, revert; split.
  - intros [= -> ->]; auto.
  - intros [[= ->] ->]; auto.
  - discriminate.
  - intros [? _]; discriminate.
Qed.

Lemma index_lookup {A} (l : list A) i a s : l !! i = Some a -> index l i s = Ok a s.
Proof. intros H. apply index_ok; auto. Qed.

Lemma gets_ok {A} (f : State -> A) s a s' : gets f s = Ok a s' <-> a = f s /\ s' = s.
Proof. unfold gets. split; [intros [= <- <-]; auto | intros [-> ->]; auto]. Qed.

Lemma modify_ok f s u s' : modify f s = Ok u s' <-> s' = f s.
Proof. unfold modify. split; [intros [= _ <-]; auto | intros ->; by destruct u]. Qed.

Lemma ret_ok {A} (a : A) s b s' : ret a s = Ok b s' <-> b = a /\ s' = s.
Proof. unfold ret. split; [intros [= <- <-]; auto | intros [-> ->]; auto]. Qed.

(** Decomposes the hypotheses that say a computation returned. *)
Ltac run_inv :=
  repeat match goal with
  | H : bind _ _ _ = Ok _ _ |- _ =>
      apply bind_ok in H; destruct H as (? & ? & ? & H); cbv beta in H
  | H : require _ _ _ = Ok _ _ |- _ =>
      apply require_ok in H; destruct H as [H ?]; subst
  | H : index _ _ _ = Ok _ _ |- _ =>
      apply index_ok in H; destruct H as [H ?]; subst
  | H : gets _ _ = Ok _ _ |- _ =>
      apply gets_ok in H; destruct H as [? ?]; subst
  | H : modify _ _ = Ok _ _ |- _ =>
      apply modify_ok in H; subst
  | H : ret _ _ = Ok _ _ |- _ =>
      apply ret_ok in H; destruct H as [? ?]; subst
  | H : revert _ _ = Ok _ _ |- _ => discriminate H
  end.

(** ** Ledger storage and the computations that only read it *)

Lemma ledger_eq_refl s : ledger_eq s s.
Proof. by repeat split. Qed.

Lemma ledger_eq_sym s s' : ledger_eq s s' -> ledger_eq s' s.
Proof. intros (?&?&?&?&?). by repeat split. Qed.

Lemma ledger_eq_trans s1 s2 s3 : ledger_eq s1 s2 -> ledger_eq s2 s3 -> ledger_eq s1 s3.
Proof. intros (?&?&?&?&?) (?&?&?&?&?). repeat split; congruence. Qed.

#[local] Hint Resolve ledger_eq_refl ledger_eq_sym : core.

Lemma reader_ret {A} (a : A) : reader (ret a).
Proof. by intros s1 s2 _. Qed.

Lemma reader_revert {A} e : reader (@revert A e).
Proof. by intros s1 s2 _. Qed.

Lemma reader_require b e : reader (require b e).
Proof. destruct b; [apply reader_ret | apply reader_revert]. Qed.

Lemma reader_index {A} (l : list A) i : reader (index l i).
Proof. unfold index. destruct (l !! i); [apply reader_ret | apply reader_revert]. Qed.

Lemma reader_geometry {A} (o : option A) : reader (geometry o).
Proof. destruct o; [apply reader_ret | apply reader_revert]. Qed.

Lemma reader_gets {A} (f : State -> A) :
  (forall s1 s2, ledger_eq s1 s2 -> f s1 = f s2) -> reader (gets f).
Proof. intros Hf s1 s2 H. simpl. auto. Qed.

Lemma reader_bind {A B} (m : M A) (k : A -> M B) :
  reader m -> (forall a, reader (k a)) -> reader (bind m k).
Proof.
  intros Hm Hk s1 s2 H. specialize (Hm s1 s2 H). unfold bind, agree in *.
  destruct (m s1) as [a t1|e t1], (m s2) as [b t2|e' t2]; try done.
  destruct Hm as (-> & -> & ->). by apply Hk.
Qed.

Lemma reader_if {A} (b : bool) (m1 m2 : M A) :
  reader m1 -> reader m2 -> reader (if b then m1 else m2).
Proof. by destruct b. Qed.

Lemma reader_for_loop {A} n i (body : nat -> A -> M A) acc :
  (forall i acc, reader (body i acc)) -> reader (for_loop n i body acc).
Proof.
  intros Hb. revert i acc. induction n as [|n IH]; intros i acc; simpl.
  - apply reader_ret.
  - apply reader_bind; auto.
Qed.

Lemma reader_mul a b : reader (SafeMath.mul a b).
Proof.
  unfold SafeMath.mul. apply reader_if; [apply reader_ret|].
  apply reader_bind; [apply reader_require | intros; apply reader_ret].
Qed.

Lemma reader_div a b : reader (SafeMath.div a b).
Proof.
  unfold SafeMath.div.
  apply reader_bind; [apply reader_require | intros; apply reader_ret].
Qed.

Lemma reader_sub a b : reader (SafeMath.sub a b).
Proof.
  unfold SafeMath.sub.
  apply reader_bind; [apply reader_require | intros; apply reader_ret].
Qed.

Lemma reader_add a b : reader (SafeMath.add a b).
Proof.
  unfold SafeMath.add.
  apply reader_bind; [apply reader_require | intros; apply reader_ret].
Qed.

Lemma reader_ownershipAt i : reader (ownershipAt i).
Proof.
  unfold ownershipAt. apply reader_bind.
  - apply reader_gets. by intros s1 s2 (-> & _).
  - intros. apply reader_index.
Qed.

Lemma holesOf_ledger s1 s2 id : ledger_eq s1 s2 -> holesOf s1 id = holesOf s2 id.
Proof. intros (_ & _ & _ & H & _). unfold holesOf. by rewrite H. Qed.

Lemma priceOf_ledger s1 s2 id : ledger_eq s1 s2 -> priceOf s1 id = priceOf s2 id.
Proof. intros (_ & _ & H & _). unfold priceOf. by rewrite H. Qed.

Create HintDb readers.
#[local] Hint Resolve reader_ret reader_revert reader_require reader_index
  reader_geometry reader_mul reader_div reader_sub reader_add reader_ownershipAt
  : readers.

Ltac reader_tac :=
  repeat first
    [ solve [eauto with readers]
    | apply reader_bind; [| intro]
    | apply reader_for_loop; intros
    | apply reader_if
    | apply reader_gets; intros ? ? ?; eauto using holesOf_ledger, priceOf_ledger, f_equal ].

Section Readers.

Variable doRectanglesOverlap : Rect -> Rect -> option bool.
Variable computeRectOverlap : Rect -> Rect -> option Rect.

Lemma reader_getPrice r id : reader (getPriceOfAuctionedZone r id).
Proof. unfold getPriceOfAuctionedZone. reader_tac. Qed.

Lemma reader_checkHoles r id : reader (checkHoles doRectanglesOverlap r id).
Proof. unfold checkHoles. reader_tac. Qed.

Lemma reader_collectStep t areas i acc : reader (collectStep t areas i acc).
Proof. unfold collectStep. reader_tac. Qed.

Lemma reader_checkTarget r : reader (checkTarget r).
Proof. unfold checkTarget. reader_tac. Qed.

Lemma reader_checkDisjoint rects : reader (checkDisjoint doRectanglesOverlap rects).
Proof. unfold checkDisjoint. reader_tac. Qed.

End Readers.

Lemma reader_state {A} (m : M A) s : reader m -> final_state (m s) = s.
Proof.
  intros Hm. specialize (Hm s s (ledger_eq_refl s)). unfold agree in Hm.
  destruct (m s); simpl; tauto.
Qed.

Lemma reader_ok {A} (m : M A) s a s' : reader m -> m s = Ok a s' -> s' = s.
Proof. intros Hm H. generalize (reader_state m s Hm). by rewrite H. Qed.

Lemma reader_same {A} (m : M A) s1 s2 a s1' :
  reader m -> ledger_eq s1 s2 -> m s1 = Ok a s1' -> m s2 = Ok a s2.
Proof.
  intros Hm Hl H. specialize (Hm s1 s2 Hl). unfold agree in Hm. rewrite H in Hm.
  destruct (m s2); [|done]. by destruct Hm as (-> & _ & ->).
Qed.

Lemma keeps_reader {A} (m : M A) : reader m -> keeps m.
Proof. intros Hm s. rewrite reader_state; auto. Qed.

Lemma keeps_bind {A B} (m : M A) (k : A -> M B) :
  keeps m -> (forall a, keeps (k a)) -> keeps (bind m k).
Proof.
  intros Hm Hk s. specialize (Hm s). unfold bind.
  destruct (m s) as [a t|e t]; simpl in *; [|done].
  eapply ledger_eq_trans; [exact Hm | apply Hk].
Qed.

Lemma keeps_if {A} (b : bool) (m1 m2 : M A) :
  keeps m1 -> keeps m2 -> keeps (if b then m1 else m2).
Proof. by destruct b. Qed.

Lemma keeps_for_loop {A} n i (body : nat -> A -> M A) acc :
  (forall i acc, keeps (body i acc)) -> keeps (for_loop n i body acc).
Proof.
  intros Hb. revert i acc. induction n as [|n IH]; intros i acc; simpl.
  - apply keeps_reader, reader_ret.
  - apply keeps_bind; auto.
Qed.

Lemma ledger_eq_move f t a s : ledger_eq s (move f t a s).
Proof. by repeat split. Qed.

Lemma keeps_transfer env to amount : keeps (transfer env to amount).
Proof.
  intros s. unfold transfer, bind, gets.
  destruct (_ && _); simpl; auto. apply ledger_eq_move.
Qed.

Lemma keeps_emit e : keeps (emit e).
Proof. intros s. by repeat split. Qed.

Lemma keeps_ok {A} (m : M A) s a s' : keeps m -> m s = Ok a s' -> ledger_eq s s'.
Proof. intros Hm H. generalize (Hm s). by rewrite H. Qed.

Lemma keeps_abort {A} (m : M A) s e s' : keeps m -> m s = Revert e s' -> ledger_eq s s'.
Proof. intros Hm H. generalize (Hm s). by rewrite H. Qed.

(** Invariant rule for [for_loop]. *)
Lemma for_loop_inv {A} (I : nat -> A -> State -> Prop) n i
    (body : nat -> A -> M A) acc s acc' s' :
  I i acc s ->
  (forall j a t a' t', (i <= j < i + n)%nat -> I j a t ->
     body j a t = Ok a' t' -> I (S j) a' t') ->
  for_loop n i body acc s = Ok acc' s' ->
  I (i + n)%nat acc' s'.
Proof.
  revert i acc s. induction n as [|n IH]; intros i acc s HI Hstep H; simpl in H.
  - run_inv. by rewrite Nat.add_0_r.
  - run_inv. replace (i + S n)%nat with (S i + n)%nat by lia.
    eapply IH; [| | eassumption].
    + eapply Hstep; [| exact HI | eassumption]. lia.
    + intros j a t a' t' Hj. apply Hstep. lia.
Qed.

Section Frame.

Variable doRectanglesOverlap : Rect -> Rect -> option bool.
Variable computeRectOverlap : Rect -> Rect -> option Rect.

#[local] Abbreviation distributeStep_ :=
  (distributeStep doRectanglesOverlap computeRectOverlap).
#[local] Abbreviation distributePurchaseFunds_ :=
  (distributePurchaseFunds doRectanglesOverlap computeRectOverlap).
#[local] Abbreviation validatePurchases_ :=
  (validatePurchases doRectanglesOverlap computeRectOverlap).

Lemma keeps_distributeStep env t rects idx i acc :
  keeps (distributeStep_ env t rects idx i acc).
Proof.
  unfold distributeStep.
  repeat first
    [ progress cbv zeta
    | apply keeps_transfer
    | apply keeps_emit
    | apply keeps_reader;
      solve [ apply reader_checkHoles | apply reader_getPrice | reader_tac ]
    | apply keeps_if
    | apply keeps_bind; [| intro] ].
Qed.

Lemma keeps_distribute env t rects idx :
  keeps (distributePurchaseFunds_ env t rects idx).
Proof.
  unfold distributePurchaseFunds.
  apply keeps_bind; [| intro; apply keeps_reader, reader_ret].
  apply keeps_for_loop. intros. apply keeps_distributeStep.
Qed.

Lemma keeps_validatePurchases env p a idx :
  keeps (validatePurchases_ env p a idx).
Proof.
  unfold validatePurchases.
  repeat first
    [ progress cbv zeta
    | apply keeps_distribute
    | apply keeps_reader;
      solve [ apply reader_checkDisjoint
            | apply reader_checkTarget
            | apply reader_for_loop; intros; apply reader_collectStep
            | reader_tac ]
    | apply keeps_bind; [| intro] ].
Qed.

End Frame.

(** ** The ledger update of a purchase *)

Lemma push_all_fields ids v s :
  ownership (push_all ids v s) = ownership s /\
  data (push_all ids v s) = data s /\
  tokenIdToAuction (push_all ids v s) = tokenIdToAuction s /\
  owner (push_all ids v s) = owner s /\
  balances (push_all ids v s) = balances s /\
  log (push_all ids v s) = log s.
Proof.
  revert s. induction ids as [|id ids IH]; intros s; simpl; [by repeat split|].
  destruct (IH (push_hole id v s)) as (-> & -> & -> & -> & -> & ->).
  by repeat split.
Qed.

Lemma holesOf_push_hole id v s k :
  holesOf (push_hole id v s) k =
  if decide (id = k) then holesOf s k ++ [v] else holesOf s k.
Proof.
  unfold holesOf at 1. unfold push_hole. simpl. rewrite lookup_insert.
  case_decide; by subst.
Qed.

Lemma holesOf_push_all ids v s k :
  holesOf (push_all ids v s) k = holesOf s k ++ replicate (count_occ Z.eq_dec ids k) v.
Proof.
  revert s. induction ids as [|id ids IH]; intros s; simpl.
  - by rewrite app_nil_r.
  - rewrite IH, holesOf_push_hole.
    destruct (Z.eq_dec id k), (decide (id = k)); try done.
    simpl. by rewrite <- app_assoc.
Qed.

Lemma hole_loop (idx : list Z) n i s :
  (i + n = length idx)%nat ->
  for_loop n i (fun i _ =>
      id <- index idx i ;;
      modify (fun s => push_hole id (ownershipLength s) s)) tt s
  = Ok tt (push_all (drop i idx) (ownershipLength s) s).
Proof.
  revert i s. induction n as [|n IH]; intros i s Hn; simpl.
  - rewrite drop_ge by lia. reflexivity.
  - destruct (lookup_lt_is_Some_2 idx i) as [id Hid]; [lia|].
    unfold bind at 1. unfold bind at 1. rewrite (index_lookup _ _ _ _ Hid).
    unfold modify at 1. rewrite IH by lia.
    rewrite (drop_S _ _ _ Hid). reflexivity.
Qed.

Section Purchase.

Variable doRectanglesOverlap : Rect -> Rect -> option bool.
Variable computeRectOverlap : Rect -> Rect -> option Rect.

#[local] Abbreviation validatePurchases_ :=
  (validatePurchases doRectanglesOverlap computeRectOverlap).
#[local] Abbreviation purchaseAreaWithData_ :=
  (purchaseAreaWithData doRectanglesOverlap computeRectOverlap).
#[local] Abbreviation execute_ :=
  (execute doRectanglesOverlap computeRectOverlap).

Lemma validate_target env p a idx s P s1 :
  validatePurchases_ env p a idx s = Ok P s1 ->
  exists x y w h, p = [x; y; w; h] /\
    checkTarget (Geometry.mkRect x y w h) s = Ok tt s.
Proof.
  unfold validatePurchases. intros H. run_inv.
  destruct p as [|px [|py [|pw [|ph [|]]]]]; try discriminate.
  simpl in *. simplify_eq.
  do 4 eexists. split; [reflexivity|].
  match goal with
  | H : checkTarget _ _ = Ok ?u ?t |- _ =>
      destruct u; rewrite (reader_ok _ _ _ _ (reader_checkTarget _) H) in H; exact H
  end.
Qed.

(** After validation nothing can stop the purchase. *)
Lemma purchase_after_validation env p a idx ipfs u price s P s1 :
  validatePurchases_ env p a idx s = Ok P s1 ->
  exists x y w h, p = [x; y; w; h] /\
    purchaseAreaWithData_ env p a idx ipfs u price s
    = Ok tt (record_purchase env idx ipfs u price P x y w h s1).
Proof.
  intros H. destruct (validate_target _ _ _ _ _ _ _ H) as (x & y & w & h & -> & _).
  exists x, y, w, h. split; [done|].
  unfold purchaseAreaWithData. unfold bind at 1. rewrite H.
  unfold bind at 1. unfold modify at 1.
  unfold bind at 1. rewrite hole_loop by (simpl; lia).
  rewrite drop_0. unfold record_purchase.
  change (ownershipLength (set_holes (<[ownershipLength s1:=[]]> (holes s1)) s1))
    with (ownershipLength s1).
  generalize (push_all_fields idx (ownershipLength s1)
                (set_holes (<[ownershipLength s1 := []]> (holes s1)) s1)).
  set (s2 := push_all _ _ _). simpl. intros (Ho & Hd & Ht & Hw & Hb & Hl).
  unfold bind, modify, gets, emit, index, ret, ownershipLength,
    set_data, set_tokenIdToAuction, set_log, set_ownership. simpl.
  rewrite Ho, Hd, Ht, Hw, Hb, Hl. reflexivity.
Qed.

Lemma purchase_abort env p a idx ipfs u price s e s1 :
  purchaseAreaWithData_ env p a idx ipfs u price s = Revert e s1 ->
  validatePurchases_ env p a idx s = Revert e s1.
Proof.
  intros H. destruct (validatePurchases_ env p a idx s) as [P t|e' t] eqn:Hv.
  - destruct (purchase_after_validation env p a idx ipfs u price s P t Hv)
      as (x & y & w & h & _ & Hp). congruence.
  - unfold purchaseAreaWithData in H. unfold bind at 1 in H. rewrite Hv in H. by injection H as -> ->.
Qed.

Lemma purchase_ok env p a idx ipfs u price s s' :
  purchaseAreaWithData_ env p a idx ipfs u price s = Ok tt s' ->
  exists P s1 x y w h, p = [x; y; w; h] /\
    validatePurchases_ env p a idx s = Ok P s1 /\
    s' = record_purchase env idx ipfs u price P x y w h s1.
Proof.
  intros H. destruct (validatePurchases_ env p a idx s) as [P t|e' t] eqn:Hv.
  - destruct (purchase_after_validation env p a idx ipfs u price s P t Hv)
      as (x & y & w & h & -> & Hp).
    exists P, t, x, y, w, h. repeat split. congruence.
  - unfold purchaseAreaWithData in H. unfold bind at 1 in H. by rewrite Hv in H.
Qed.

Lemma call_failed payable env body s s' e :
  call payable env body s = (s', Failed e) -> s' = s.
Proof. unfold call. repeat case_match; congruence. Qed.

End Purchase.

(** ** SafeMath returns exact results *)

Lemma UINT256_pos : 0 < UINT256.
Proof. reflexivity. Qed.

Lemma add256_range a b : is_uint256 (add256 a b).
Proof. apply Z.mod_pos_bound, UINT256_pos. Qed.

Lemma mul256_range a b : is_uint256 (mul256 a b).
Proof. apply Z.mod_pos_bound, UINT256_pos. Qed.

Lemma add256_exact a b : 0 <= a + b < UINT256 -> add256 a b = a + b.
Proof. intros H. unfold add256. by rewrite Z.mod_small. Qed.

Lemma mul256_exact a b : 0 <= a * b < UINT256 -> mul256 a b = a * b.
Proof. intros H. unfold mul256. by rewrite Z.mod_small. Qed.

Lemma mul_ok a b s c s' :
  0 <= a -> SafeMath.mul a b s = Ok c s' -> c = a * b /\ is_uint256 c /\ s' = s.
Proof.
  intros Ha. unfold SafeMath.mul. destruct (Z.eqb_spec a 0) as [->|Hne].
  - intros H. run_inv. repeat split; unfold UINT256; lia.
  - intros H. run_inv.
    match goal with H : (_ =? _) = true |- _ => apply Z.eqb_eq in H; rename H into Hq end.
    pose proof (mul256_range a b) as Hr.
    refine ((fun X => conj (proj1 X) (conj (proj2 X) eq_refl)) _).
    unfold mul256 in *. set (c := (a * b) mod UINT256) in *.
    assert (Hc : a * b = UINT256 * (a * b / UINT256) + c)
      by (apply Z.div_mod; unfold UINT256; lia).
    pose proof (Z.mul_div_le c a ltac:(lia)) as Hle.
    pose proof (Z.mod_pos_bound c a ltac:(lia)) as Hm.
    pose proof (Z.div_mod c a ltac:(lia)) as Hd.
    rewrite Hq in Hle, Hd.
    destruct Hr as [Hr0 Hr1].
    assert (Hb : 0 <= b) by (rewrite <- Hq; apply Z.div_pos; lia).
    assert (Hab : a * b <= c) by lia.
    assert (Hq0 : 0 <= a * b / UINT256).
    { apply Z.div_pos; [|apply UINT256_pos]. apply Z.mul_nonneg_nonneg; lia. }
    pose proof UINT256_pos.
    assert (UINT256 * (a * b / UINT256) <= 0) by lia.
    assert (a * b / UINT256 = 0) by nia.
    split; [nia | done].
Qed.

Lemma sub_ok a b s c s' :
  SafeMath.sub a b s = Ok c s' -> c = a - b /\ b <= a /\ s' = s.
Proof.
  unfold SafeMath.sub. intros H. run_inv.
  match goal with H : (_ <=? _) = true |- _ => apply Z.leb_le in H end. auto.
Qed.

Lemma div_ok a b s c s' :
  SafeMath.div a b s = Ok c s' -> c = a / b /\ b <> 0 /\ s' = s.
Proof.
  unfold SafeMath.div. intros H. run_inv.
  match goal with H : negb _ = true |- _ => apply negb_true_iff, Z.eqb_neq in H end. auto.
Qed.

Lemma sub_run a b s : b <= a -> SafeMath.sub a b s = Ok (a - b) s.
Proof.
  intros H. unfold SafeMath.sub, bind. apply Z.leb_le in H. by rewrite H.
Qed.

(** ** One step of the payout loop *)

Section Step.

Variable doRectanglesOverlap : Rect -> Rect -> option bool.
Variable computeRectOverlap : Rect -> Rect -> option Rect.

#[local] Abbreviation distributeStep_ :=
  (distributeStep doRectanglesOverlap computeRectOverlap).

Lemma pays_out_run idx i id s :
  idx !! i = Some id ->
  (if Nat.eqb i (length idx - 1) then ret true
   else next <- index idx (i + 1) ;; ret (negb (id =? next))) s
  = Ok (pays_out idx i id) s.
Proof.
  intros Hi. unfold pays_out. apply lookup_lt_Some in Hi.
  destruct (Nat.eqb_spec i (length idx - 1)) as [_|Hne]; [reflexivity|].
  destruct (lookup_lt_is_Some_2 idx (i + 1)) as [next Hn]; [lia|].
  unfold bind. rewrite (index_lookup _ _ _ _ Hn). unfold ret. simpl. do 2 f_equal.
  rewrite Hn. destruct (Z.eqb_spec id next) as [->|Hd].
  - by rewrite bool_decide_eq_true_2.
  - rewrite bool_decide_eq_false_2; [done|]. congruence.
Qed.

Lemma distributeStep_ok env t rects idx i acc s acc' s' :
  distributeStep_ env t rects idx i acc s = Ok acc' s' <->
  step_facts doRectanglesOverlap computeRectOverlap env t rects idx i acc s acc' s'.
Proof.
  unfold distributeStep, step_facts. destruct acc as [rem owed]. cbv zeta. simpl fst. simpl snd.
  split.
  - intros H.
    apply bind_ok in H. destruct H as (id & s1 & Hid & H).
    apply index_ok in Hid. destruct Hid as [Hid ->].
    apply bind_ok in H. destruct H as (zone & s1 & Hz & H).
    pose proof (reader_ok _ _ _ _ (reader_ownershipAt _) Hz) as ->.
    apply bind_ok in H. destruct H as (o & s1 & Ho & H).
    apply bind_ok in H. destruct H as (? & s2 & Hr & H).
    apply require_ok in Hr. destruct Hr as [-> ->].
    apply bind_ok in H. destruct H as (overlap & s3 & Hov & H).
    apply bind_ok in H. destruct H as (piece & s4 & Hp & H).
    apply index_ok in Hp. destruct Hp as [Hp ->].
    do 4 (apply bind_ok in H; destruct H as (? & ? & ?%require_ok & H);
          destruct_and?; subst).
    apply bind_ok in H. destruct H as (? & s5 & Hh & H).
    apply bind_ok in H. destruct H as (price & s6 & Hprice & H).
    apply bind_ok in H. destruct H as (rem1 & s7 & Hsub & H).
    apply bind_ok in H. destruct H as (owed1 & s8 & Hadd & H).
    apply bind_ok in H. destruct H as (payout & s9 & Hpay & H).
    destruct (doRectanglesOverlap t (zoneRect zone)) as [[]|] eqn:Eo; simpl in Ho;
      unfold ret, revert in Ho; try discriminate. injection Ho as <-.
    destruct (computeRectOverlap t (zoneRect zone)) as [ov|] eqn:Ec; simpl in Hov;
      unfold ret, revert in Hov; try discriminate. injection Hov as <- <-.
    pose proof (reader_ok _ _ _ _ (reader_checkHoles _ _ _) Hh) as ->.
    pose proof (reader_ok _ _ _ _ (reader_getPrice _ _) Hprice) as ->.
    apply sub_ok in Hsub. destruct Hsub as (-> & Hle & ->).
    unfold SafeMath.add in Hadd. cbv zeta in Hadd.
    apply bind_ok in Hadd. destruct Hadd as (? & ? & Hq & Hadd).
    apply require_ok in Hq. destruct Hq as [Hq ->]. apply ret_ok in Hadd.
    destruct Hadd as [-> ->]. apply Z.leb_le in Hq.
    rewrite (pays_out_run idx i id s Hid) in Hpay. injection Hpay as <- <-.
    unfold ownershipAt in Hz. apply bind_ok in Hz. destruct Hz as (? & ? & Hg & Hz).
    apply gets_ok in Hg. destruct Hg as [-> ->]. apply index_ok in Hz. destruct Hz as [Hz _].
    exists id, zone, ov, piece, price.
    repeat match goal with u : unit |- _ => destruct u end.
    repeat (split; [first [assumption | reflexivity]|]).
    split.
    { unfold within. by repeat (apply andb_true_intro; split). }
    repeat (split; [first [assumption | reflexivity]|]).
    destruct (pays_out idx i id).
    + unfold transfer, emit in H.
      apply bind_ok in H. destruct H as (? & ? & Ht & H).
      apply bind_ok in Ht. destruct Ht as (? & ? & Hb & Ht).
      apply gets_ok in Hb. destruct Hb as [-> ->].
      apply bind_ok in Ht. destruct Ht as (? & ? & Hc & Ht).
      apply require_ok in Hc. destruct Hc as [Hc ->].
      apply andb_prop in Hc. destruct Hc as [Hc1 Hc2]. apply Z.leb_le in Hc1.
      apply modify_ok in Ht. subst.
      apply bind_ok in H. destruct H as (? & ? & He & H).
      apply modify_ok in He. subst. apply ret_ok in H. destruct H as [-> ->].
      by repeat split.
    + apply ret_ok in H. destruct H as [-> ->]. by split.
  - intros (id & zone & overlap & piece & price & Hid & Hz & Ho & Hov & Hp & Hw &
            Hh & Hprice & Hle & Hq & Hrem & Hpay).
    unfold within in Hw. repeat (apply andb_prop in Hw; destruct Hw as [Hw ?]).
    unfold bind at 1. rewrite (index_lookup _ _ _ _ Hid).
    unfold bind at 1. unfold ownershipAt at 1. unfold bind at 1. unfold gets at 1.
    rewrite (index_lookup _ _ _ _ Hz).
    unfold bind at 1. rewrite Ho. unfold geometry at 1, ret at 1.
    unfold bind at 1. rewrite require_true.
    unfold bind at 1. rewrite Hov. unfold geometry at 1, ret at 1.
    unfold bind at 1. rewrite (index_lookup _ _ _ _ Hp).
    do 4 (unfold bind at 1;
          match goal with H : ?b = true |- context [require ?b _ _] => rewrite H end;
          rewrite require_true).
    unfold bind at 1. rewrite Hh.
    unfold bind at 1. rewrite Hprice.
    unfold bind at 1. rewrite (sub_run _ _ _ Hle).
    unfold bind at 1. unfold SafeMath.add at 1. cbv zeta. unfold bind at 1.
    apply Z.leb_le in Hq. rewrite Hq, require_true. unfold ret at 1.
    unfold bind at 1. rewrite (pays_out_run idx i id s Hid).
    destruct acc' as [rem' owed']. simpl in Hrem, Hpay. subst rem'.
    destruct (pays_out idx i id).
    + destruct Hpay as (-> & Hb & Hc & ->).
      unfold transfer, emit, bind, gets, modify, ret. apply Z.leb_le in Hb.
      rewrite Hb, Hc. reflexivity.
    + destruct Hpay as (-> & ->). reflexivity.
Qed.

(** A piece that passes the checks on its owner and on the holes, and
    whose record has no price, stops the loop with [NotForSale]. *)
Lemma distributeStep_not_for_sale env t rects idx i acc s id zone overlap piece :
  idx !! i = Some id ->
  ownership s !! Z.to_nat id = Some zone ->
  doRectanglesOverlap t (zoneRect zone) = Some true ->
  computeRectOverlap t (zoneRect zone) = Some overlap ->
  rects !! i = Some piece ->
  within piece overlap = true ->
  checkHoles doRectanglesOverlap piece id s = Ok tt s ->
  priceOf s id = 0 ->
  distributeStep_ env t rects idx i acc s = Revert NotForSale s.
Proof.
  intros Hid Hz Ho Hov Hp Hw Hh Hzero. unfold distributeStep. cbv zeta.
  unfold within in Hw. repeat (apply andb_prop in Hw; destruct Hw as [Hw ?]).
  unfold bind at 1. rewrite (index_lookup _ _ _ _ Hid).
  unfold bind at 1. unfold ownershipAt at 1. unfold bind at 1. unfold gets at 1.
  rewrite (index_lookup _ _ _ _ Hz).
  unfold bind at 1. rewrite Ho. unfold geometry at 1, ret at 1.
  unfold bind at 1. rewrite require_true.
  unfold bind at 1. rewrite Hov. unfold geometry at 1, ret at 1.
  unfold bind at 1. rewrite (index_lookup _ _ _ _ Hp).
  do 4 (unfold bind at 1;
        match goal with H : ?b = true |- context [require ?b _ _] => rewrite H end;
        rewrite require_true).
  unfold bind at 1. rewrite Hh.
  unfold bind at 1. unfold getPriceOfAuctionedZone, bind, gets. rewrite Hzero. reflexivity.
Qed.

End Step.

(** ** The tiling and its price *)

Lemma add256_checked a b :
  is_uint256 a -> is_uint256 b -> a <= add256 a b -> add256 a b = a + b.
Proof.
  intros Ha Hb Hq. unfold add256, is_uint256 in *.
  destruct (Z_lt_ge_dec (a + b) UINT256) as [Hlt|Hge].
  - rewrite Z.mod_small; lia.
  - exfalso. replace ((a + b) mod UINT256) with (a + b - UINT256) in Hq; [lia|].
    apply Zmod_unique with (q := 1); lia.
Qed.

Lemma add256_le a b : 0 <= a + b -> add256 a b <= a + b.
Proof. intros H. unfold add256. apply Z.mod_le; [done | apply UINT256_pos]. Qed.

Lemma getPrice_ok piece id s price s' :
  nonneg_width piece ->
  getPriceOfAuctionedZone piece id s = Ok price s' ->
  0 < priceOf s id /\ price = sectionPrice s (piece, id) /\ is_uint256 price.
Proof.
  unfold getPriceOfAuctionedZone, nonneg_width. intros Hw H.
  apply bind_ok in H. destruct H as (p & ? & Hg & H).
  apply gets_ok in Hg. destruct Hg as [-> ->].
  apply bind_ok in H. destruct H as (? & ? & Hr & H).
  apply require_ok in Hr. destruct Hr as [Hr ->]. apply Z.ltb_lt in Hr.
  apply bind_ok in H. destruct H as (area & ? & Ha & H).
  apply mul_ok in Ha; [|done]. destruct Ha as (-> & Har & ->).
  apply mul_ok in H; [|apply Har]. destruct H as (-> & Hp & ->).
  unfold sectionPrice. simpl. auto.
Qed.

Lemma getPrice_nonneg piece id s price s' :
  getPriceOfAuctionedZone piece id s = Ok price s' -> 0 <= price.
Proof.
  unfold getPriceOfAuctionedZone. intros H.
  apply bind_ok in H. destruct H as (p & ? & Hg & H).
  apply bind_ok in H. destruct H as (? & ? & Hr & H).
  apply bind_ok in H. destruct H as (area & ? & Ha & H).
  unfold SafeMath.mul in H. destruct (area =? 0).
  - apply ret_ok in H. lia.
  - apply bind_ok in H. destruct H as (? & ? & _ & H). apply ret_ok in H.
    destruct H as [-> _]. apply mul256_range.
Qed.

(** ** The payout loop *)

Lemma totalPrice_ledger s1 s2 t : ledger_eq s1 s2 -> totalPrice s1 t = totalPrice s2 t.
Proof.
  intros H. induction t as [|p t IH]; simpl; [done|].
  unfold sectionPrice. by rewrite IH, (priceOf_ledger s1 s2).
Qed.

Lemma payouts_ledger s1 s2 owed t : ledger_eq s1 s2 -> payouts s1 owed t = payouts s2 owed t.
Proof.
  intros H. revert owed. induction t as [|p t IH]; intros owed; simpl; [done|].
  assert (Hp : sectionPrice s1 p = sectionPrice s2 p)
    by (unfold sectionPrice; by rewrite (priceOf_ledger s1 s2)).
  rewrite Hp. destruct t as [|q t]; [done|].
  destruct (p.2 =? q.2); by rewrite IH.
Qed.

Lemma payouts_cons s owed piece id (rects : list Rect) (idx : list Z) i :
  length rects = length idx ->
  idx !! i = Some id ->
  payouts s owed ((piece, id) :: drop (S i) (zip rects idx)) =
  if pays_out idx i id
  then (id, owed + sectionPrice s (piece, id)) :: payouts s 0 (drop (S i) (zip rects idx))
  else payouts s (owed + sectionPrice s (piece, id)) (drop (S i) (zip rects idx)).
Proof.
  intros Hlen Hid. pose proof (lookup_lt_Some _ _ _ Hid) as Hi.
  unfold pays_out. simpl payouts at 1.
  destruct (drop (S i) (zip rects idx)) as [|q rest] eqn:Hd.
  - assert (Hl : length (drop (S i) (zip rects idx)) = 0%nat) by by rewrite Hd.
    rewrite length_drop, length_zip in Hl.
    destruct (Nat.eqb_spec i (length idx - 1)) as [_|Hne]; [done | lia].
  - assert (Hq : zip rects idx !! (S i) = Some q).
    { rewrite <- (Nat.add_0_r (S i)), <- lookup_drop, Hd. done. }
    unfold zip in Hq. apply lookup_zip_with_Some in Hq.
    destruct Hq as (r & id' & -> & _ & Hn). simpl.
    pose proof (lookup_lt_Some _ _ _ Hn) as Hi'.
    destruct (Nat.eqb_spec i (length idx - 1)) as [He|_]; [lia|].
    replace (i + 1)%nat with (S i) by lia. rewrite Hn. simpl.
    destruct (Z.eqb_spec id id') as [->|Hne].
    + by rewrite bool_decide_eq_true_2.
    + rewrite bool_decide_eq_false_2; [done | congruence].
Qed.

Section PayoutLoop.

Variable doRectanglesOverlap : Rect -> Rect -> option bool.
Variable computeRectOverlap : Rect -> Rect -> option Rect.

#[local] Abbreviation distributeStep_ :=
  (distributeStep doRectanglesOverlap computeRectOverlap).
#[local] Abbreviation step_facts_ :=
  (step_facts doRectanglesOverlap computeRectOverlap).

Lemma step_keeps env t rects idx i acc s acc' s' :
  step_facts_ env t rects idx i acc s acc' s' -> ledger_eq s s'.
Proof.
  intros H. apply distributeStep_ok in H.
  exact (keeps_ok _ _ _ _ (keeps_distributeStep _ _ _ _ _ _ _ _) H).
Qed.

(** What the loop returns, what it pays, and what it has checked of
    every piece. *)
Lemma distribute_loop env t rects idx n i rem owed s rem' owed' s' :
  length rects = length idx -> (i + n = length idx)%nat ->
  Forall nonneg_width rects -> is_uint256 owed ->
  for_loop n i (distributeStep_ env t rects idx) (rem, owed) s = Ok (rem', owed') s' ->
  rem' = rem - totalPrice s (drop i (zip rects idx)) /\
  s' = settle env (payouts s owed (drop i (zip rects idx))) s /\
  Forall (fun p => 0 < priceOf s p.2 /\ (Z.to_nat p.2 < length (ownership s))%nat)
         (drop i (zip rects idx)).
Proof.
  intros Hlen Hn Hw. revert i rem owed s Hn.
  induction n as [|n IH]; intros i rem owed s Hn Howed H; simpl in H.
  - apply ret_ok in H. destruct H as [[= -> ->] ->].
    rewrite drop_ge by (rewrite length_zip; lia). simpl. split; [lia|]. by split.
  - apply bind_ok in H. destruct H as ([rem1 owed1] & s1 & Hstep & H).
    apply distributeStep_ok in Hstep.
    pose proof (step_keeps _ _ _ _ _ _ _ _ _ Hstep) as Hk.
    destruct Hstep as (id & zone & overlap & piece & price & Hid & Hz & _ & _ & Hp & _ &
                       _ & Hprice & Hle & Hq & Hrem & Hpay).
    simpl in Hle, Hq, Hrem, Hpay. subst rem1.
    assert (Hnn : nonneg_width piece).
    { eapply Forall_lookup_1; eassumption. }
    destruct (getPrice_ok _ _ _ _ _ Hnn Hprice) as (Hpos & -> & Hrange).
    rewrite (add256_checked _ _ Howed Hrange Hq) in Hpay.
    assert (Hzip : zip rects idx !! i = Some (piece, id)).
    { unfold zip. apply lookup_zip_with_Some. by exists piece, id. }
    rewrite (drop_S _ _ _ Hzip).
    assert (Howed1 : is_uint256 owed1).
    { destruct (pays_out idx i id).
      - destruct Hpay as (-> & _). unfold is_uint256, UINT256. lia.
      - destruct Hpay as (-> & _).
        rewrite <- (add256_checked _ _ Howed Hrange Hq). apply add256_range. }
    apply IH in H; [|lia|done]. destruct H as (-> & -> & Hall).
    rewrite <- (totalPrice_ledger s s1 _ Hk), <- (payouts_ledger s s1 _ _ Hk).
    rewrite payouts_cons by done.
    split; [simpl; lia|]. split.
    + destruct (pays_out idx i id).
      * destruct Hpay as (-> & _ & _ & ->). simpl. do 2 f_equal.
        unfold pay, sellerOf. simpl. by rewrite Hz.
      * by destruct Hpay as (-> & ->).
    + constructor.
      * simpl. split; [done|]. by apply lookup_lt_Some in Hz.
      * eapply Forall_impl; [exact Hall|]. intros p [? ?].
        pose proof Hk as (Ho & _ & _ & _). rewrite (priceOf_ledger s s1) by done.
        by rewrite <- Ho.
Qed.

End PayoutLoop.

(** ** The first loop of the validation *)

Lemma pieceAt_lookup (a : list Z) i x y w h :
  a !! (i * 4)%nat = Some x -> a !! (i * 4 + 1)%nat = Some y ->
  a !! (i * 4 + 2)%nat = Some w -> a !! (i * 4 + 3)%nat = Some h ->
  pieceAt a i = Geometry.mkRect x y w h.
Proof.
  intros Hx Hy Hw Hh. unfold pieceAt.
  by rewrite (list_lookup_total_correct _ _ _ Hx), (list_lookup_total_correct _ _ _ Hy),
    (list_lookup_total_correct _ _ _ Hw), (list_lookup_total_correct _ _ _ Hh).
Qed.

Lemma collect_loop t (a : list Z) n s total rects s' :
  for_loop n 0 (collectStep t a) (0, replicate n (Geometry.mkRect 0 0 0 0)) s
    = Ok (total, rects) s' ->
  rects = map (pieceAt a) (seq 0 n) /\ s' = s.
Proof.
  intros H.
  pose proof (reader_ok _ _ _ _
    (reader_for_loop _ _ _ _ (fun i acc => reader_collectStep t a i acc)) H) as ->.
  split; [|done].
  apply (for_loop_inv
    (fun j acc _ => (j <= n)%nat ->
       acc.2 = map (pieceAt a) (seq 0 j) ++ replicate (n - j) (Geometry.mkRect 0 0 0 0)))
    in H.
  - simpl in H. rewrite H. by rewrite Nat.sub_diag, app_nil_r.
  - intros _. simpl. by rewrite Nat.sub_0_r.
  - intros j [tot rs] st [tot' rs'] st' Hj Hinv Hstep Hle. cbn [fst snd] in *.
    rewrite Hinv in Hstep by lia. clear Hinv.
    unfold collectStep in Hstep. cbv zeta in Hstep. simpl fst in Hstep. simpl snd in Hstep.
    apply bind_ok in Hstep. destruct Hstep as (x & ? & [Hx ->]%index_ok & Hstep).
    apply bind_ok in Hstep. destruct Hstep as (y & ? & [Hy ->]%index_ok & Hstep).
    apply bind_ok in Hstep. destruct Hstep as (w & ? & [Hw ->]%index_ok & Hstep).
    apply bind_ok in Hstep. destruct Hstep as (h & ? & [Hh ->]%index_ok & Hstep).
    run_inv.
    match goal with H : (_, _) = (_, _) |- _ => injection H as _ -> end.
    rewrite insert_app_r_alt by (rewrite length_map, length_seq; lia).
    rewrite length_map, length_seq, Nat.sub_diag.
    rewrite seq_S, map_app.
    replace (n - j)%nat with (S (n - S j)) by lia. simpl.
    rewrite <- app_assoc. simpl.
    by rewrite (pieceAt_lookup a j x y w h).
  - simpl. lia.
Qed.

Lemma pieces_nonneg a : Forall is_uint256 a -> Forall nonneg_width (pieces a).
Proof.
  intros Ha. unfold pieces. apply Forall_map, Forall_forall. intros i Hi.
  apply elem_of_seq in Hi. unfold nonneg_width, pieceAt. simpl.
  assert (Hlt : (i * 4 + 2 < length a)%nat).
  { pose proof (Nat.div_mod_eq (length a) 4). lia. }
  destruct (lookup_lt_is_Some_2 a _ Hlt) as [w Hw].
  rewrite (list_lookup_total_correct _ _ _ Hw).
  by destruct (Forall_lookup_1 _ _ _ _ Ha Hw).
Qed.

(** ** The validation before the payout *)

Section Validate.

Variable doRectanglesOverlap : Rect -> Rect -> option bool.
Variable computeRectOverlap : Rect -> Rect -> option Rect.

#[local] Abbreviation distributePurchaseFunds_ :=
  (distributePurchaseFunds doRectanglesOverlap computeRectOverlap).
#[local] Abbreviation validatePurchases_ :=
  (validatePurchases doRectanglesOverlap computeRectOverlap).

Lemma prelude_ledger p a idx t s1 s2 :
  prelude_ok doRectanglesOverlap p a idx t s1 -> ledger_eq s1 s2 ->
  prelude_ok doRectanglesOverlap p a idx t s2.
Proof.
  intros (Hp & Ht & H4 & H0 & Hm & Hd & Hc & Hj) Hl.
  repeat (split; [done|]).
  split; [eapply reader_same; [apply reader_checkTarget | exact Hl | exact Ht]|].
  repeat (split; [done|]).
  split.
  - eapply reader_same; [| exact Hl | exact Hc].
    apply reader_for_loop. intros. apply reader_collectStep.
  - eapply reader_same; [apply reader_checkDisjoint | exact Hl | exact Hj].
Qed.

Lemma validate_run env p a idx t s :
  prelude_ok doRectanglesOverlap p a idx t s ->
  validatePurchases_ env p a idx s
  = settlement doRectanglesOverlap computeRectOverlap env t a idx s.
Proof.
  intros (Hp & Ht & H4 & H0 & Hm & Hd & Hc & Hj). destruct t as [x y w h].
  simpl in Hp. subst p. unfold validatePurchases, settlement.
  change (Nat.eqb (length [x; y; w; h]) 4) with true.
  unfold bind at 1. rewrite require_true.
  unfold bind at 1. rewrite (index_lookup [x; y; w; h] 0 x s eq_refl).
  unfold bind at 1. rewrite (index_lookup [x; y; w; h] 1 y s eq_refl).
  unfold bind at 1. rewrite (index_lookup [x; y; w; h] 2 w s eq_refl).
  unfold bind at 1. rewrite (index_lookup [x; y; w; h] 3 h s eq_refl).
  cbv zeta. unfold bind at 1. rewrite Ht.
  apply Nat.leb_le in H4. apply Nat.ltb_lt in H0.
  apply Nat.eqb_eq in Hm. apply Nat.eqb_eq in Hd.
  unfold bind at 1. rewrite H4, require_true.
  unfold bind at 1. rewrite H0, require_true.
  unfold bind at 1. rewrite Hm, require_true.
  unfold bind at 1. rewrite Hd, require_true.
  unfold bind at 1. rewrite Hc. simpl fst. simpl snd.
  unfold bind at 1. simpl Geometry.w. simpl Geometry.h. rewrite Z.eqb_refl, require_true.
  unfold bind at 1. rewrite Hj. reflexivity.
Qed.

Lemma validate_inv env p a idx s P s' :
  validatePurchases_ env p a idx s = Ok P s' ->
  exists t, prelude_ok doRectanglesOverlap p a idx t s.
Proof.
  unfold validatePurchases. intros Hv.
  apply bind_ok in Hv. destruct Hv as (? & ? & [Hlen ->]%require_ok & Hv).
  destruct p as [|px [|py [|pw [|ph [|]]]]]; try discriminate.
  do 4 (apply bind_ok in Hv; destruct Hv as (? & ? & [[= <-] ->]%index_ok & Hv)).
  cbv zeta in Hv.
  apply bind_ok in Hv. destruct Hv as ([] & ? & Ht & Hv).
  pose proof (reader_ok _ _ _ _ (reader_checkTarget _) Ht) as ->.
  do 4 (apply bind_ok in Hv; destruct Hv as (? & ? & [? ->]%require_ok & Hv)).
  apply bind_ok in Hv. destruct Hv as ([total rects] & ? & Hc & Hv).
  destruct (collect_loop _ _ _ _ _ _ _ Hc) as [-> ->].
  simpl fst in Hv. simpl snd in Hv.
  apply bind_ok in Hv. destruct Hv as (? & ? & [Htot ->]%require_ok & Hv).
  apply bind_ok in Hv. destruct Hv as ([] & ? & Hj & Hv).
  pose proof (reader_ok _ _ _ _ (reader_checkDisjoint _ _) Hj) as ->.
  apply Z.eqb_eq in Htot. subst total.
  repeat match goal with
         | H : Nat.leb _ _ = true |- _ => apply Nat.leb_le in H
         | H : Nat.ltb _ _ = true |- _ => apply Nat.ltb_lt in H
         | H : Nat.eqb _ _ = true |- _ => apply Nat.eqb_eq in H
         end.
  exists (Geometry.mkRect px py pw ph). unfold prelude_ok, pieces.
  cbn [Geometry.x Geometry.y Geometry.w Geometry.h].
  match goal with H : (length a / 4)%nat = length idx |- _ => rewrite H end.
  repeat (split; [done|]). done.
Qed.

End Validate.

(** ** Balances *)

Lemma balanceOf_move f t a s x :
  balanceOf (move f t a s) x =
  balanceOf s x - (if decide (x = f) then a else 0) + (if decide (x = t) then a else 0).
Proof.
  unfold move, balanceOf. simpl.
  destruct (decide (x = t)) as [->|Hxt].
  - rewrite lookup_insert_eq. simpl.
    destruct (decide (t = f)) as [->|Htf].
    + rewrite lookup_insert_eq. simpl. lia.
    + rewrite lookup_insert_ne by done. lia.
  - rewrite lookup_insert_ne by done.
    destruct (decide (x = f)) as [->|Hxf].
    + rewrite lookup_insert_eq. simpl. lia.
    + rewrite lookup_insert_ne by done. lia.
Qed.

Lemma balanceOf_set_log l s x : balanceOf (set_log l s) x = balanceOf s x.
Proof. reflexivity. Qed.

(** ** The same purchase in another environment *)

Section Relational.

Variable doRectanglesOverlap : Rect -> Rect -> option bool.
Variable computeRectOverlap : Rect -> Rect -> option Rect.

#[local] Abbreviation distributeStep_ :=
  (distributeStep doRectanglesOverlap computeRectOverlap).
#[local] Abbreviation step_facts_ :=
  (step_facts doRectanglesOverlap computeRectOverlap).
#[local] Abbreviation distributePurchaseFunds_ :=
  (distributePurchaseFunds doRectanglesOverlap computeRectOverlap).
#[local] Abbreviation settlement_ :=
  (settlement doRectanglesOverlap computeRectOverlap).

(** The loop only ever lowers the remaining balance, and what it owes
    is never negative. *)
Lemma distribute_loop_le env t rects idx n i rem owed s rem' owed' s' :
  0 <= owed ->
  for_loop n i (distributeStep_ env t rects idx) (rem, owed) s = Ok (rem', owed') s' ->
  rem' <= rem /\ 0 <= owed'.
Proof.
  revert i rem owed s. induction n as [|n IH]; intros i rem owed s Ho H; simpl in H.
  - apply ret_ok in H. destruct H as [[= -> ->] _]. lia.
  - apply bind_ok in H. destruct H as ([rem1 owed1] & s1 & Hstep & H).
    apply distributeStep_ok in Hstep.
    destruct Hstep as (id & zone & overlap & piece & price & _ & _ & _ & _ & _ & _ &
                       _ & Hprice & Hle & Hq & Hrem & Hpay).
    simpl in Hle, Hq, Hrem, Hpay. apply getPrice_nonneg in Hprice.
    assert (0 <= owed1).
    { destruct (pays_out idx i id); destruct Hpay as (-> & _); [lia|].
      apply add256_range. }
    apply IH in H; [|done]. lia.
Qed.

Lemma distribute_loop_rel env1 env2 t rects idx n i rem1 rem2 owed s1 s2 rem1' owed' s1' :
  this env2 = this env1 -> can_receive env2 = can_receive env1 ->
  ledger_eq s1 s2 -> 0 <= owed ->
  for_loop n i (distributeStep_ env1 t rects idx) (rem1, owed) s1 = Ok (rem1', owed') s1' ->
  rem1 - rem1' <= rem2 ->
  owed + (rem1 - rem1') <= balanceOf s2 (this env2) ->
  exists s2',
    for_loop n i (distributeStep_ env2 t rects idx) (rem2, owed) s2
    = Ok (rem2 - (rem1 - rem1'), owed') s2'.
Proof.
  intros Hthis Hcan. revert i rem1 rem2 owed s1 s2.
  induction n as [|n IH]; intros i rem1 rem2 owed s1 s2 Hl Ho H Hrem Hbal; simpl in H |- *.
  - apply ret_ok in H. destruct H as [[= -> ->] _].
    exists s2. unfold ret. do 2 f_equal. lia.
  - apply bind_ok in H. destruct H as ([r1 o1] & t1 & Hstep & H).
    pose proof (fun Ho1 =>
      distribute_loop_le env1 t rects idx n (S i) r1 o1 t1 rem1' owed' s1' Ho1 H) as Hmono.
    apply distributeStep_ok in Hstep.
    pose proof (step_keeps _ _ _ _ _ _ _ _ _ _ _ Hstep) as Hk1.
    destruct Hstep as (id & zone & overlap & piece & price & Hid & Hz & Hov & Hco & Hp & Hw &
                       Hh & Hprice & Hle & Hq & Hr & Hpay).
    simpl in Hle, Hq, Hr, Hpay. subst r1.
    pose proof (getPrice_nonneg _ _ _ _ _ Hprice) as Hp0.
    assert (Ho1 : 0 <= o1).
    { destruct (pays_out idx i id); destruct Hpay as (-> & _); [lia|].
      apply add256_range. }
    specialize (Hmono Ho1). destruct Hmono as [Hmono _].
    pose proof (add256_le owed price ltac:(lia)) as Hadd.
    set (t2 := if pays_out idx i id
               then set_log (log s2 ++ [PlotSectionSold id (add256 owed price)
                                          (msg_sender env2) (Zone.owner zone)])
                      (move (this env2) (Zone.owner zone) (add256 owed price) s2)
               else s2).
    assert (Hstep2 : step_facts_ env2 t rects idx i (rem2, owed) s2 (rem2 - price, o1) t2).
    { exists id, zone, overlap, piece, price.
      pose proof Hl as (Hown & _).
      split; [done|]. split; [by rewrite Hown|].
      repeat (split; [done|]).
      split; [eapply reader_same; [apply reader_checkHoles | exact Hl | exact Hh]|].
      split; [eapply reader_same; [apply reader_getPrice | exact Hl | exact Hprice]|].
      simpl. split; [lia|]. split; [done|]. split; [done|].
      subst t2. destruct (pays_out idx i id).
      - destruct Hpay as (-> & _ & Hc & _). rewrite Hcan. repeat split; [lia | done].
      - by destruct Hpay as (-> & _). }
    pose proof (step_keeps _ _ _ _ _ _ _ _ _ _ _ Hstep2) as Hk2.
    apply distributeStep_ok in Hstep2. unfold bind. rewrite Hstep2.
    destruct (IH (S i) (rem1 - price) (rem2 - price) o1 t1 t2) as (s2' & Hrun); try done.
    + eapply ledger_eq_trans; [apply ledger_eq_sym, Hk1|].
      eapply ledger_eq_trans; [exact Hl | exact Hk2].
    + lia.
    + subst t2. destruct (pays_out idx i id).
      * destruct Hpay as (-> & _). rewrite balanceOf_set_log, balanceOf_move.
        rewrite decide_True by done. case_decide; lia.
      * destruct Hpay as (-> & _). lia.
    + exists s2'. rewrite Hrun. do 2 f_equal. lia.
Qed.

End Relational.

(** ** The settlement *)

Lemma mul_any a b s c s' t : SafeMath.mul a b s = Ok c s' -> SafeMath.mul a b t = Ok c t.
Proof.
  unfold SafeMath.mul. destruct (a =? 0).
  - by intros [-> _]%ret_ok.
  - unfold bind. destruct (_ =? _); simpl; [|discriminate]. by intros [-> _]%ret_ok.
Qed.

Lemma length_pieces a : length (pieces a) = (length a / 4)%nat.
Proof. unfold pieces. by rewrite length_map, length_seq. Qed.

Lemma requiredFee_hundredth P : requiredFee P = P / 100.
Proof.
  unfold requiredFee, FEE_IN_THOUSANDS_OF_PERCENT.
  change (1000 * 100) with (1000 * 100)%Z.
  rewrite (Z.mul_comm P 1000). by rewrite Z.div_mul_cancel_l.
Qed.

Section Settlement.

Variable doRectanglesOverlap : Rect -> Rect -> option bool.
Variable computeRectOverlap : Rect -> Rect -> option Rect.

#[local] Abbreviation distributeStep_ :=
  (distributeStep doRectanglesOverlap computeRectOverlap).
#[local] Abbreviation settlement_ :=
  (settlement doRectanglesOverlap computeRectOverlap).
#[local] Abbreviation validatePurchases_ :=
  (validatePurchases doRectanglesOverlap computeRectOverlap).

(** What a settlement that returns has charged, paid and checked. *)
Lemma settlement_ok env t a idx s P s' :
  Forall is_uint256 a -> (length a / 4 = length idx)%nat ->
  settlement_ env t a idx s = Ok P s' ->
  P = totalPrice s (tiling a idx) /\
  s' = settle env (payouts s 0 (tiling a idx)) s /\
  Forall (fun p => 0 < priceOf s p.2 /\ (Z.to_nat p.2 < length (ownership s))%nat)
         (tiling a idx) /\
  0 <= P <= msg_value env /\
  requiredFee P <= msg_value env - P.
Proof.
  intros Ha Hlen H. unfold settlement, distributePurchaseFunds in H.
  apply bind_ok in H. destruct H as (rem & s1 & Hd & H).
  apply bind_ok in Hd. destruct Hd as ([rem' owed'] & s2 & Hloop & [-> ->]%ret_ok).
  apply distribute_loop in Hloop;
    [| by rewrite length_pieces | lia | by apply pieces_nonneg
     | unfold is_uint256, UINT256; lia].
  rewrite drop_0 in Hloop. destruct Hloop as (Hrem & -> & Hall). simpl in H.
  apply bind_ok in H. destruct H as (P' & ? & (-> & Hle & ->)%sub_ok & H).
  apply bind_ok in H. destruct H as (scaled & ? & Hmul & H).
  apply mul_ok in Hmul; [|lia]. destruct Hmul as (-> & _ & ->).
  apply bind_ok in H. destruct H as (fee & ? & (-> & _ & ->)%div_ok & H).
  apply bind_ok in H. destruct H as (? & ? & [Hfee ->]%require_ok & H).
  apply ret_ok in H. destruct H as [-> ->]. apply Z.leb_le in Hfee.
  assert (0 <= (msg_value env - rem') * FEE_IN_THOUSANDS_OF_PERCENT / (1000 * 100)).
  { apply Z.div_pos; unfold FEE_IN_THOUSANDS_OF_PERCENT; lia. }
  unfold tiling, requiredFee. repeat split; try done; lia.
Qed.

(** A returning settlement, run again with another sender or another
    payment that still covers the price. *)
Lemma settlement_rel env1 env2 t a idx s1 s2 P s1' :
  this env2 = this env1 -> can_receive env2 = can_receive env1 ->
  ledger_eq s1 s2 ->
  settlement_ env1 t a idx s1 = Ok P s1' ->
  P <= msg_value env2 -> P <= balanceOf s2 (this env2) ->
  exists s2',
    settlement_ env2 t a idx s2 =
    if requiredFee P <=? msg_value env2 - P then Ok P s2'
    else Revert InsufficientFee s2'.
Proof.
  intros Hthis Hcan Hl H HP Hbal. unfold settlement, distributePurchaseFunds in H |- *.
  apply bind_ok in H. destruct H as (rem & t1 & Hd & H).
  apply bind_ok in Hd. destruct Hd as ([rem' owed'] & t2 & Hloop & [-> ->]%ret_ok).
  simpl in H.
  apply bind_ok in H. destruct H as (P' & ? & (-> & Hle & ->)%sub_ok & H).
  apply bind_ok in H. destruct H as (scaled & ? & Hmul & H).
  pose proof Hmul as Hmul'.
  apply mul_ok in Hmul; [|lia]. destruct Hmul as (-> & _ & ->).
  apply bind_ok in H. destruct H as (fee & ? & (-> & _ & ->)%div_ok & H).
  apply bind_ok in H. destruct H as (? & ? & [Hfee ->]%require_ok & H).
  apply ret_ok in H. destruct H as [-> ->].
  destruct (distribute_loop_rel doRectanglesOverlap computeRectOverlap
              env1 env2 t (pieces a) idx (length idx) 0
              (msg_value env1) (msg_value env2) 0 s1 s2 rem' owed' _
              Hthis Hcan Hl ltac:(lia) Hloop ltac:(lia) ltac:(lia)) as (s2' & Hrun).
  exists s2'. unfold bind at 1. unfold bind at 1. rewrite Hrun. unfold ret at 1. simpl fst.
  unfold bind at 1. rewrite sub_run by lia.
  replace (msg_value env2 - (msg_value env2 - (msg_value env1 - rem')))
    with (msg_value env1 - rem') by lia.
  unfold bind at 1. rewrite (mul_any _ _ _ _ _ s2' Hmul').
  unfold bind at 1. unfold SafeMath.div, bind. simpl (require _ _ _). unfold ret.
  change (msg_value env1 - rem') with (msg_value env1 - rem').
  unfold requiredFee.
  generalize ((msg_value env1 - rem') * FEE_IN_THOUSANDS_OF_PERCENT / (1000 * 100)
              <=? msg_value env2 - (msg_value env1 - rem')).
  intros []; reflexivity.
Qed.

End Settlement.

(** * The claims *)

Lemma settle_fields env ps s :
  ledger_eq s (settle env ps s) /\
  log (settle env ps s) = log s ++ map (sale env s) ps.
Proof.
  revert s. induction ps as [|p ps IH]; intros s; simpl.
  - split; [apply ledger_eq_refl | by rewrite app_nil_r].
  - destruct (IH (pay env s p)) as [Hl Hlog]. split.
    + eapply ledger_eq_trans; [|exact Hl]. by repeat split.
    + rewrite Hlog. simpl. rewrite <- app_assoc. reflexivity.
Qed.

Lemma holesOf_holes s s' k : holes s' = holes s -> holesOf s' k = holesOf s k.
Proof. unfold holesOf. by intros ->. Qed.

Lemma call_payable_inv env body s s' :
  call true env body s = (s', Success) ->
  msg_value env <= balanceOf s (msg_sender env) /\ body (entry env s) = Ok tt s'.
Proof.
  unfold call, entry. simpl.
  destruct (Z.ltb_spec (balanceOf s (msg_sender env)) (msg_value env)); [discriminate|].
  destruct (body _) as [[] t|e t]; [|discriminate]. intros [= ->]. by split.
Qed.

Lemma call_payable_run env body s :
  msg_value env <= balanceOf s (msg_sender env) ->
  call true env body s =
  match body (entry env s) with
  | Ok _ s' => (s', Success)
  | Revert e _ => (s, Failed e)
  end.
Proof.
  intros H. unfold call, entry. simpl.
  destruct (Z.ltb_spec (balanceOf s (msg_sender env)) (msg_value env)); [lia | done].
Qed.

Lemma ledger_eq_entry env s : ledger_eq s (entry env s).
Proof. apply ledger_eq_move. Qed.

Section Claims.

Variable doRectanglesOverlap : Rect -> Rect -> option bool.
Variable computeRectOverlap : Rect -> Rect -> option Rect.

#[local] Abbreviation distributeStep_ :=
  (distributeStep doRectanglesOverlap computeRectOverlap).
#[local] Abbreviation settlement_ :=
  (settlement doRectanglesOverlap computeRectOverlap).
#[local] Abbreviation validatePurchases_ :=
  (validatePurchases doRectanglesOverlap computeRectOverlap).
#[local] Abbreviation purchaseAreaWithData_ :=
  (purchaseAreaWithData doRectanglesOverlap computeRectOverlap).
#[local] Abbreviation execute_ :=
  (execute doRectanglesOverlap computeRectOverlap).

Lemma purchase_revert env p a idx ipfs u price s e s1 :
  validatePurchases_ env p a idx s = Revert e s1 ->
  purchaseAreaWithData_ env p a idx ipfs u price s = Revert e s1.
Proof. intros H. unfold purchaseAreaWithData. unfold bind at 1. by rewrite H. Qed.

(** Every record a returning validation was pointed at exists. *)
Lemma validate_indices env p a idx s P s' :
  validatePurchases_ env p a idx s = Ok P s' ->
  Forall (fun id => (Z.to_nat id < length (ownership s))%nat) idx.
Proof.
  intros H. destruct (validate_inv _ _ _ _ _ _ _ _ _ H) as (t & Hpre).
  rewrite (validate_run _ _ _ _ _ _ _ _ Hpre) in H.
  unfold settlement, distributePurchaseFunds in H.
  apply bind_ok in H. destruct H as (rem & s1 & Hd & _).
  apply bind_ok in Hd. destruct Hd as (acc & s2 & Hloop & _).
  apply (for_loop_inv
    (fun j _ st => ownership st = ownership s /\
       forall k id, (k < j)%nat -> idx !! k = Some id ->
         (Z.to_nat id < length (ownership s))%nat)) in Hloop.
  - destruct Hloop as [_ Hall]. apply Forall_lookup. intros k id Hk.
    apply (Hall k id); [|done]. apply lookup_lt_Some in Hk. simpl. lia.
  - split; [done|]. intros k id Hk. lia.
  - intros j acc1 st acc2 st' _ [Ho Hall] Hstep.
    apply distributeStep_ok in Hstep.
    pose proof (step_keeps _ _ _ _ _ _ _ _ _ _ _ Hstep) as (Ho' & _).
    destruct Hstep as (id & zone & _ & _ & _ & Hid & Hz & _).
    split; [congruence|]. intros k id' Hk Hid'.
    destruct (decide (k = j)) as [->|Hne].
    + rewrite Hid in Hid'. injection Hid' as <-.
      apply lookup_lt_Some in Hz. by rewrite <- Ho.
    + apply (Hall k); [lia | done].
Qed.

(** C1.  A purchase that fails, for whatever reason, leaves the whole
    state as it was before the call: ownership records, hole sets,
    auction prices, metadata, and also the balances and the event log
    (no payout and no hole update remains).  Moreover the contract
    storage is untouched at the moment the call stops: every failure
    happens before the first write to the ledger. *)
Theorem purchase_failure_atomic env p a idx ipfs u price s s' e :
  execute_ env (Purchase p a idx ipfs u price) s = (s', Failed e) ->
  s' = s /\
  forall e' s_abort,
    purchaseAreaWithData_ env p a idx ipfs u price (entry env s) = Revert e' s_abort ->
    ownership s_abort = ownership s /\ holes s_abort = holes s /\
    tokenIdToAuction s_abort = tokenIdToAuction s /\ data s_abort = data s.
Proof.
  intros H. split.
  - simpl in H. by apply call_failed in H.
  - intros e' s_abort Hr. apply purchase_abort in Hr.
    apply (keeps_abort _ _ _ _ (keeps_validatePurchases _ _ _ _ _ _)) in Hr.
    pose proof (ledger_eq_trans _ _ _ (ledger_eq_entry env s) Hr) as (? & ? & ? & ? & _).
    by repeat split.
Qed.

(** C9.  After a successful purchase the record at the index that was
    the record count before the call is the submitted rectangle with the
    buyer as its owner, and the record count has grown by one. *)
Theorem purchase_roundtrip env x y w h a idx ipfs u price s s' :
  execute_ env (Purchase [x; y; w; h] a idx ipfs u price) s = (s', Success) ->
  getRecord s' (ownershipLength s) = Some (Zone.mk x y w h (msg_sender env)) /\
  ownershipLength s' = ownershipLength s + 1.
Proof.
  intros H. simpl in H. apply call_payable_inv in H. destruct H as [_ H].
  apply purchase_ok in H.
  destruct H as (P & s1 & x' & y' & w' & h' & [= <- <- <- <-] & Hv & ->).
  apply (keeps_ok _ _ _ _ (keeps_validatePurchases _ _ _ _ _ _)) in Hv.
  pose proof (ledger_eq_trans _ _ _ (ledger_eq_entry env s) Hv) as (Ho & _).
  unfold getRecord, ownershipLength, record_purchase. simpl. rewrite Ho. split.
  - rewrite Nat2Z.id. by rewrite list_lookup_middle.
  - rewrite length_app. simpl. lia.
Qed.

(** C6, as the contract has it.  After a successful purchase the id of
    the new record has been appended to the hole set of a record once
    for every piece of the tiling attributed to that record (so a record
    referenced by n pieces gains n entries), the hole set of the new
    record is empty, and no other hole set has changed. *)
Theorem holes_after_purchase env p a idx ipfs u price s s' :
  execute_ env (Purchase p a idx ipfs u price) s = (s', Success) ->
  holesOf s' (ownershipLength s) = [] /\
  forall k, k <> ownershipLength s ->
    holesOf s' k = holesOf s k ++ replicate (count_occ Z.eq_dec idx k) (ownershipLength s).
Proof.
  intros H. simpl in H. apply call_payable_inv in H. destruct H as [_ H].
  apply purchase_ok in H.
  destruct H as (P & s1 & x & y & w & h & -> & Hv & ->).
  pose proof (validate_indices _ _ _ _ _ _ _ Hv) as Hidx.
  apply (keeps_ok _ _ _ _ (keeps_validatePurchases _ _ _ _ _ _)) in Hv.
  pose proof (ledger_eq_trans _ _ _ (ledger_eq_entry env s) Hv) as Hl.
  pose proof Hl as (Ho & _ & _ & Hh & _).
  assert (Hlen : ownershipLength s1 = ownershipLength s)
    by (unfold ownershipLength; by rewrite Ho).
  assert (Hk : forall k,
    holesOf (record_purchase env idx ipfs u price P x y w h s1) k =
    (if decide (ownershipLength s = k) then [] else holesOf s k)
    ++ replicate (count_occ Z.eq_dec idx k) (ownershipLength s)).
  { intros k. unfold record_purchase. rewrite Hlen.
    transitivity (holesOf (push_all idx (ownershipLength s)
                    (set_holes (<[ownershipLength s := []]> (holes s1)) s1)) k);
      [reflexivity|].
    rewrite holesOf_push_all. f_equal.
    unfold holesOf at 1. simpl. rewrite lookup_insert. case_decide; [done|].
    by rewrite Hh. }
  split.
  - rewrite Hk, decide_True by done. simpl.
    rewrite (proj1 (count_occ_not_In Z.eq_dec idx (ownershipLength s))); [done|].
    intros Hin. apply list_elem_of_In in Hin.
    rewrite Forall_forall in Hidx. specialize (Hidx _ Hin). simpl in Hidx.
    unfold ownershipLength in Hidx. rewrite Nat2Z.id in Hidx. lia.
  - intros k Hne. rewrite Hk, decide_False by done. reflexivity.
Qed.

(** A successful purchase, spelled out. *)
Lemma purchase_success env p a idx ipfs u price s s' :
  Forall is_uint256 a ->
  execute_ env (Purchase p a idx ipfs u price) s = (s', Success) ->
  exists t,
    prelude_ok doRectanglesOverlap p a idx t (entry env s) /\
    settlement_ env t a idx (entry env s)
      = Ok (totalPrice s (tiling a idx))
           (settle env (payouts s 0 (tiling a idx)) (entry env s)) /\
    s' = record_purchase env idx ipfs u price (totalPrice s (tiling a idx))
           (Geometry.x t) (Geometry.y t) (Geometry.w t) (Geometry.h t)
           (settle env (payouts s 0 (tiling a idx)) (entry env s)) /\
    msg_value env <= balanceOf s (msg_sender env) /\
    0 <= totalPrice s (tiling a idx) <= msg_value env /\
    requiredFee (totalPrice s (tiling a idx)) <= msg_value env - totalPrice s (tiling a idx) /\
    Forall (fun q => 0 < priceOf s q.2 /\ (Z.to_nat q.2 < length (ownership s))%nat)
           (tiling a idx).
Proof.
  intros Ha H. simpl in H. apply call_payable_inv in H. destruct H as [Hfunds H].
  apply purchase_ok in H. destruct H as (P & s1 & x & y & w & h & -> & Hv & ->).
  destruct (validate_inv _ _ _ _ _ _ _ _ _ Hv) as (t & Hpre).
  rewrite (validate_run _ _ _ _ _ _ _ _ Hpre) in Hv.
  pose proof Hpre as (Hp & _ & _ & _ & _ & Hlen & _).
  destruct (settlement_ok _ _ _ _ _ _ _ _ _ Ha Hlen Hv) as (HP & Hs1 & Hall & Hrange & Hfee).
  pose proof (ledger_eq_entry env s) as Hl.
  rewrite <- (totalPrice_ledger s (entry env s) _ Hl) in HP.
  rewrite <- (payouts_ledger s (entry env s) _ _ Hl) in Hs1.
  subst P s1. injection Hp as -> -> -> ->.
  exists t. split; [done|]. split; [done|]. split; [done|]. split; [done|].
  split; [done|]. split; [done|].
  eapply Forall_impl; [exact Hall|]. intros q [? ?]. split.
  - by rewrite (priceOf_ledger s (entry env s)).
  - done.
Qed.

(** A purchase whose prelude holds, in terms of its settlement. *)
Lemma purchase_run env p a idx ipfs u price s t :
  prelude_ok doRectanglesOverlap p a idx t (entry env s) ->
  msg_value env <= balanceOf s (msg_sender env) ->
  execute_ env (Purchase p a idx ipfs u price) s =
  match settlement_ env t a idx (entry env s) with
  | Ok P s1 =>
      (record_purchase env idx ipfs u price P
         (Geometry.x t) (Geometry.y t) (Geometry.w t) (Geometry.h t) s1, Success)
  | Revert e _ => (s, Failed e)
  end.
Proof.
  intros Hpre Hfunds. simpl. rewrite call_payable_run by done.
  pose proof (validate_run doRectanglesOverlap computeRectOverlap env _ _ _ _ _ Hpre) as Hv.
  destruct (settlement_ env t a idx (entry env s)) as [P s1|e s1] eqn:Hs.
  - destruct (purchase_after_validation _ _ env p a idx ipfs u price _ P s1 Hv)
      as (x & y & w & h & Hp & ->).
    destruct Hpre as (Hp' & _). rewrite Hp' in Hp. by injection Hp as <- <- <- <-.
  - by rewrite (purchase_revert env p a idx ipfs u price _ e s1 Hv).
Qed.

(** C2, as the contract has it.  The contract has no check on the order
    of the owners in the tiling.  Every purchase that succeeds, whether
    or not the pieces of one owner are next to each other in the list,
    emits exactly one [PlotSectionSold] per maximal run of consecutive
    pieces of the same owner, carrying the summed price of that run,
    followed by the [PlotPurchased] event with the total price. *)
Theorem payout_per_run env p a idx ipfs u price s s' :
  Forall is_uint256 a ->
  execute_ env (Purchase p a idx ipfs u price) s = (s', Success) ->
  log s' = log s ++ map (sale env s) (payouts s 0 (tiling a idx))
                 ++ [PlotPurchased (ownershipLength s) (totalPrice s (tiling a idx))
                       (msg_sender env)].
Proof.
  intros Ha H. destruct (purchase_success _ _ _ _ _ _ _ _ _ Ha H)
    as (t & _ & _ & -> & _).
  unfold record_purchase. simpl.
  destruct (settle_fields env (payouts s 0 (tiling a idx)) (entry env s)) as [(Ho & _) ->].
  unfold ownershipLength. rewrite Ho. simpl. by rewrite <- app_assoc.
Qed.

(** C4, as the contract has it.  Take a purchase that succeeds with some
    payment, and send it again with a payment equal to its total price.
    The required fee is the integer part of one hundredth of the price:
    when the price is at least 100 wei the purchase fails with
    [InsufficientFee] and changes nothing; when the price is below 100
    wei the fee is zero and the purchase succeeds. *)
Theorem exact_payment env p a idx ipfs u price s s1 :
  Forall is_uint256 a -> 0 <= balanceOf s (this env) ->
  execute_ env (Purchase p a idx ipfs u price) s = (s1, Success) ->
  let P := totalPrice s (tiling a idx) in
  (100 <= P ->
     execute_ (with_value env P) (Purchase p a idx ipfs u price) s
     = (s, Failed InsufficientFee)) /\
  (P < 100 ->
     (execute_ (with_value env P) (Purchase p a idx ipfs u price) s).2 = Success).
Proof.
  intros Ha Hbal H P.
  destruct (purchase_success _ _ _ _ _ _ _ _ _ Ha H)
    as (t & Hpre & Hs & _ & Hfunds & HP & _ & _). fold P in Hs, HP.
  set (env' := with_value env P).
  assert (Hl : ledger_eq (entry env s) (entry env' s)) by by repeat split.
  assert (Hfunds' : msg_value env' <= balanceOf s (msg_sender env')) by (simpl; lia).
  assert (Hthis : P <= balanceOf (entry env' s) (this env')).
  { unfold entry. rewrite balanceOf_move. simpl.
    rewrite (decide_True (P := this env = this env)) by done. case_decide as Hd; [|lia].
    rewrite Hd. lia. }
  destruct (settlement_rel doRectanglesOverlap computeRectOverlap env env' t a idx
              (entry env s) (entry env' s) P _ eq_refl eq_refl Hl Hs
              ltac:(simpl; lia) Hthis) as (s2' & Hrun).
  pose proof (prelude_ledger _ _ _ _ _ _ _ Hpre Hl) as Hpre'.
  rewrite (purchase_run env' p a idx ipfs u price s t Hpre' Hfunds'), Hrun.
  simpl msg_value. rewrite Z.sub_diag, requiredFee_hundredth. split; intros HP100.
  - destruct (Z.leb_spec (P / 100) 0) as [Hle|_]; [|done].
    exfalso. assert (1 <= P / 100); [|lia].
    apply Z.div_le_lower_bound; lia.
  - destruct (Z.leb_spec (P / 100) 0) as [_|Hlt]; [done|].
    exfalso. rewrite Z.div_small in Hlt; lia.
Qed.

(** C10.  Nothing compares the buyer with a seller.  A purchase that
    succeeds for one sender succeeds for every sender who can pay
    [msg.value], in particular for the owner of a record the tiling
    refers to; the payments are the same, each going to the owner of
    the record it is for, and the sale events of the buyer's own records
    name the buyer as both buyer and seller. *)
Theorem self_purchase env buyer id zone p a idx ipfs u price s s1 :
  Forall is_uint256 a -> 0 <= balanceOf s (this env) ->
  id ∈ idx -> getRecord s id = Some zone -> buyer = Zone.owner zone ->
  msg_value env <= balanceOf s buyer ->
  execute_ env (Purchase p a idx ipfs u price) s = (s1, Success) ->
  let env' := with_sender env buyer in
  let payments := payouts s 0 (tiling a idx) in
  exists t,
    execute_ env' (Purchase p a idx ipfs u price) s
    = (record_purchase env' idx ipfs u price (totalPrice s (tiling a idx))
         (Geometry.x t) (Geometry.y t) (Geometry.w t) (Geometry.h t)
         (settle env' payments (entry env' s)), Success) /\
    forall amount, (id, amount) ∈ payments ->
      PlotSectionSold id amount buyer buyer
        ∈ log (settle env' payments (entry env' s)).
Proof.
  intros Ha Hbal Hid Hz Hb Hfunds' H env' payments.
  destruct (purchase_success _ _ _ _ _ _ _ _ _ Ha H)
    as (t & Hpre & Hs & _ & Hfunds & HP & Hfee & _).
  set (P := totalPrice s (tiling a idx)) in *.
  assert (Hl : ledger_eq (entry env s) (entry env' s)) by by repeat split.
  assert (Hthis : P <= balanceOf (entry env' s) (this env')).
  { unfold entry. rewrite balanceOf_move. simpl.
    rewrite (decide_True (P := this env = this env)) by done. case_decide as Hd; [|lia].
    rewrite Hd. lia. }
  destruct (settlement_rel doRectanglesOverlap computeRectOverlap env env' t a idx
              (entry env s) (entry env' s) P _ eq_refl eq_refl Hl Hs
              ltac:(simpl; lia) Hthis) as (s2' & Hrun).
  simpl msg_value in Hrun. apply Z.leb_le in Hfee. rewrite Hfee in Hrun.
  pose proof (prelude_ledger _ _ _ _ _ _ _ Hpre Hl) as Hpre'.
  pose proof Hpre' as (_ & _ & _ & _ & _ & Hlen & _).
  destruct (settlement_ok _ _ _ _ _ _ _ _ _ Ha Hlen Hrun) as (_ & Hs2 & _).
  pose proof (ledger_eq_entry env' s) as Hl'.
  rewrite <- (payouts_ledger s (entry env' s) _ _ Hl') in Hs2. fold payments in Hs2.
  exists t. split.
  - rewrite (purchase_run env' p a idx ipfs u price s t Hpre' Hfunds'), Hrun.
    by rewrite Hs2.
  - intros amount Hin.
    rewrite (proj2 (settle_fields env' payments (entry env' s))).
    apply elem_of_app. right. apply list_elem_of_fmap.
    exists (id, amount). split; [|done].
    unfold sale, sellerOf. simpl. unfold getRecord in Hz. rewrite Hz. by rewrite Hb.
Qed.

(** The five requirements on the rectangle to purchase, over the
    integers. *)
Lemma checkTarget_spec t s :
  uint24_rect t ->
  checkTarget t s = if decide (admissible t) then Ok tt s else Revert BoundsError s.
Proof.
  destruct t as [x y w h].
  unfold uint24_rect, admissible, in_grid, area, is_uint24, UINT24, checkTarget.
  simpl. intros (Hx & Hy & Hw & Hh).
  rewrite (add256_exact w x), (add256_exact h y), (mul256_exact w h)
    by (unfold UINT256; nia).
  unfold GRID_WIDTH, GRID_HEIGHT, MAXIMUM_PURCHASE_AREA, bind.
  destruct (Z.ltb_spec x 250), (Z.leb_spec 0 x), (Z.ltb_spec y 250), (Z.leb_spec 0 y),
    (Z.ltb_spec 0 w), (Z.leb_spec (w + x) 250), (Z.ltb_spec 0 h), (Z.leb_spec (h + y) 250),
    (Z.ltb_spec (w * h) 1000); simpl;
    case_decide; try reflexivity; exfalso; lia.
Qed.

(** C3, as the contract has it.  The first precondition of the validator
    admits exactly the rectangles that lie within the grid, are not
    empty, and have an area strictly below [MAXIMUM_PURCHASE_AREA]:
    an in-grid rectangle of area [MAXIMUM_PURCHASE_AREA - 1] passes, and
    one of area [MAXIMUM_PURCHASE_AREA] is rejected with [BoundsError],
    by the check and so by the whole validation. *)
Theorem target_admission t s :
  uint24_rect t ->
  (checkTarget t s = Ok tt s <-> in_grid t /\ area t < MAXIMUM_PURCHASE_AREA) /\
  (in_grid t -> area t = MAXIMUM_PURCHASE_AREA - 1 -> checkTarget t s = Ok tt s) /\
  (in_grid t -> area t = MAXIMUM_PURCHASE_AREA ->
     checkTarget t s = Revert BoundsError s /\
     forall env a idx,
       validatePurchases_ env [Geometry.x t; Geometry.y t; Geometry.w t; Geometry.h t]
         a idx s = Revert BoundsError s).
Proof.
  intros Ht. pose proof (checkTarget_spec t s Ht) as Hc.
  split; [|split].
  - rewrite Hc. case_decide; split; done.
  - intros Hg Ha. rewrite Hc, decide_True; [done|]. split; [done|]. lia.
  - intros Hg Ha.
    assert (Hr : checkTarget t s = Revert BoundsError s).
    { rewrite Hc, decide_False; [done|]. intros [_ ?]. lia. }
    split; [done|]. intros env a idx. destruct t as [x y w h].
    unfold validatePurchases. simpl Geometry.x. simpl Geometry.y.
    simpl Geometry.w. simpl Geometry.h.
    change (Nat.eqb (length [x; y; w; h]) 4) with true.
    unfold bind at 1. rewrite require_true.
    unfold bind at 1. rewrite (index_lookup [x; y; w; h] 0 x s eq_refl).
    unfold bind at 1. rewrite (index_lookup [x; y; w; h] 1 y s eq_refl).
    unfold bind at 1. rewrite (index_lookup [x; y; w; h] 2 w s eq_refl).
    unfold bind at 1. rewrite (index_lookup [x; y; w; h] 3 h s eq_refl).
    cbv zeta. unfold bind at 1. by rewrite Hr.
Qed.

Lemma call_ownership payable env body s :
  (forall u s', body (entry env s) = Ok u s' -> ownership s' = ownership s) ->
  ownership (call payable env body s).1 = ownership s.
Proof.
  intros Hb. unfold call. repeat case_match; simpl; try done.
  eapply Hb. eassumption.
Qed.

Lemma updateAuction_ownership env z price s u s' :
  updateAuction env z price s = Ok u s' -> ownership s' = ownership s.
Proof.
  unfold updateAuction, setAuctionPrice, emit. intros H.
  apply bind_ok in H. destruct H as (? & ? & H1 & H).
  apply bind_ok in H1. destruct H1 as (? & ? & [_ ->]%require_ok & H1).
  apply bind_ok in H1. destruct H1 as (? & ? & [-> ->]%gets_ok & H1).
  apply bind_ok in H1. destruct H1 as (? & ? & [_ ->]%require_ok & H1).
  apply bind_ok in H1. destruct H1 as (? & ? & Hz & H1).
  apply (reader_ok _ _ _ _ (reader_ownershipAt _)) in Hz. subst.
  apply bind_ok in H1. destruct H1 as (? & ? & [_ ->]%require_ok & H1).
  apply modify_ok in H1. subst. apply modify_ok in H. by subst.
Qed.

Lemma withdraw_ownership env to s u s' :
  withdraw env to s = Ok u s' -> ownership s' = ownership s.
Proof.
  unfold withdraw. intros H.
  apply bind_ok in H. destruct H as (? & ? & [-> ->]%gets_ok & H).
  apply bind_ok in H. destruct H as (? & ? & [_ ->]%require_ok & H).
  apply bind_ok in H. destruct H as (? & ? & [_ ->]%require_ok & H).
  apply bind_ok in H. destruct H as (? & ? & [-> ->]%gets_ok & H).
  by destruct (keeps_ok _ _ _ _ (keeps_transfer _ _ _) H) as (? & _).
Qed.

(** C7.  Every ownership record of every reachable state -- the record
    of the constructor and every record a purchase has appended -- has
    positive width and height and lies within the grid, as inequalities
    over the integers; every transaction preserves this. *)
Theorem ownership_invariant s :
  reachable doRectanglesOverlap computeRectOverlap s -> Forall valid_zone (ownership s).
Proof.
  induction 1 as [env bal|env tx s Hr IH Hwt].
  - simpl. repeat constructor; unfold GRID_WIDTH, GRID_HEIGHT; simpl; lia.
  - destruct tx as [p a idx ipfs u price|z price|to].
    + destruct (execute_ env (Purchase p a idx ipfs u price) s) as [s' [|e]] eqn:He.
      * simpl in He |- *. apply call_payable_inv in He. destruct He as [_ He].
        apply purchase_ok in He.
        destruct He as (P & s1 & x & y & w & h & -> & Hv & ->).
        destruct (validate_target _ _ _ _ _ _ _ _ _ Hv) as (x' & y' & w' & h' & [= <- <- <- <-] & Hc).
        apply (keeps_ok _ _ _ _ (keeps_validatePurchases _ _ _ _ _ _)) in Hv.
        destruct Hv as (Ho & _). simpl in Ho.
        unfold record_purchase. simpl. rewrite Ho. apply Forall_app. split; [done|].
        constructor; [|constructor].
        simpl in Hwt. apply Forall_cons in Hwt. destruct Hwt as [Hx Hwt].
        apply Forall_cons in Hwt. destruct Hwt as [Hy Hwt].
        apply Forall_cons in Hwt. destruct Hwt as [Hw Hwt].
        apply Forall_cons in Hwt. destruct Hwt as [Hh _].
        rewrite checkTarget_spec in Hc by done.
        case_decide as Hadm; [|discriminate].
        destruct Hadm as [Hg _]. exact Hg.
      * simpl in He |- *. apply call_failed in He. by subst.
    + simpl. rewrite call_ownership; [done|]. intros ? ? Hb.
      apply updateAuction_ownership in Hb. exact Hb.
    + simpl. rewrite call_ownership; [done|]. intros ? ? Hb.
      apply withdraw_ownership in Hb. exact Hb.
Qed.

End Claims.

(** * The claims on the scenarios *)

Import Scenario.

#[local] Abbreviation overlapG := GeometrySpec.doRectanglesOverlap.
#[local] Abbreviation intersectG := GeometrySpec.computeRectOverlap.

Lemma uint256_small z : 0 <= z < 1000 -> is_uint256 z.
Proof. unfold is_uint256, UINT256. lia. Qed.

(** C1 on an underpaid purchase: the fee is missing, and the grid is left
    as it was. *)
Lemma purchase_failure_atomic_witness :
  run (env alice (2 * 10 ^ 13)) pixel s0 = (s0, Failed InsufficientFee) /\
  (s0 = s0 /\
   forall e' s_abort,
     purchaseAreaWithData overlapG intersectG (env alice (2 * 10 ^ 13))
       [10; 10; 1; 1] [10; 10; 1; 1] [0] "hash" "url" 7
       (entry (env alice (2 * 10 ^ 13)) s0) = Revert e' s_abort ->
     ownership s_abort = ownership s0 /\ holes s_abort = holes s0 /\
     tokenIdToAuction s_abort = tokenIdToAuction s0 /\ data s_abort = data s0).
Proof.
  assert (H : run (env alice (2 * 10 ^ 13)) pixel s0 = (s0, Failed InsufficientFee))
    by (vm_compute; reflexivity).
  split; [exact H|].
  exact (purchase_failure_atomic overlapG intersectG
           (env alice (2 * 10 ^ 13)) [10; 10; 1; 1] [10; 10; 1; 1] [0]
           "hash" "url" 7 s0 s0 InsufficientFee H).
Defined.

(** C9 on Alice's pixel. *)
Lemma purchase_roundtrip_witness :
  run (env alice (505 * 10 ^ 12)) pixel s0 = (s1, Success) /\
  getRecord s1 (ownershipLength s0) = Some (Zone.mk 10 10 1 1 alice) /\
  ownershipLength s1 = ownershipLength s0 + 1.
Proof.
  assert (H : run (env alice (505 * 10 ^ 12)) pixel s0 = (s1, Success))
    by (vm_compute; reflexivity).
  split; [exact H|].
  exact (purchase_roundtrip overlapG intersectG (env alice (505 * 10 ^ 12))
           10 10 1 1 [10; 10; 1; 1] [0] "hash" "url" 7 s0 s1 H).
Defined.

(** C2 fails on the contract: the owners of the strip are [0; 1; 0],
    record 0 at two positions that are not next to each other, and the
    purchase is accepted. *)
Lemma noncontiguous_owners_accepted :
  run (env bob (505 * 10 ^ 12))
    (Purchase [9; 10; 3; 1] [9; 10; 1; 1;  10; 10; 1; 1;  11; 10; 1; 1] [0; 1; 0]
       "hash" "url" 7) s1
  = (s2, Success).
Proof. vm_compute. reflexivity. Qed.

(** C2, as the contract has it, on the strip: three sales. *)
Lemma payout_per_run_witness :
  Forall is_uint256 [9; 10; 1; 1;  10; 10; 1; 1;  11; 10; 1; 1] /\
  run (env bob (505 * 10 ^ 12)) strip s1 = (s2, Success) /\
  log s2 = log s1
    ++ map (sale (env bob (505 * 10 ^ 12)) s1)
         (payouts s1 0 (tiling [9; 10; 1; 1;  10; 10; 1; 1;  11; 10; 1; 1] [0; 1; 0]))
    ++ [PlotPurchased (ownershipLength s1)
          (totalPrice s1 (tiling [9; 10; 1; 1;  10; 10; 1; 1;  11; 10; 1; 1] [0; 1; 0]))
          bob].
Proof.
  assert (Ha : Forall is_uint256 [9; 10; 1; 1;  10; 10; 1; 1;  11; 10; 1; 1])
    by (repeat constructor; apply uint256_small; lia).
  assert (H : run (env bob (505 * 10 ^ 12)) strip s1 = (s2, Success))
    by (vm_compute; reflexivity).
  split; [exact Ha|]. split; [exact H|].
  exact (payout_per_run overlapG intersectG (env bob (505 * 10 ^ 12))
           [9; 10; 3; 1] _ [0; 1; 0] "hash" "url" 7 s1 s2 Ha H).
Defined.

(** The three payments of the strip: records 0, 1 and 0 again. *)
Example strip_payouts :
  payouts s1 0 (tiling [9; 10; 1; 1;  10; 10; 1; 1;  11; 10; 1; 1] [0; 1; 0])
  = [(0, 2 * 10 ^ 13); (1, 7); (0, 2 * 10 ^ 13)].
Proof. vm_compute. reflexivity. Qed.

(** C3 fails on the contract: the 40 x 25 rectangle at the origin lies
    within the grid and its area is [MAXIMUM_PURCHASE_AREA], which is
    not above the maximum, and the first precondition rejects it. *)
Lemma area_at_maximum_rejected :
  let t := Geometry.mkRect 0 0 40 25 in
  in_grid t /\ area t <= MAXIMUM_PURCHASE_AREA /\
  checkTarget t s0 = Revert BoundsError s0.
Proof.
  unfold in_grid, area, GRID_WIDTH, GRID_HEIGHT, MAXIMUM_PURCHASE_AREA. simpl.
  repeat split; try lia; discriminate.
Qed.

(** C3, as the contract has it, on a 27 x 37 rectangle, of area 999. *)
Lemma target_admission_witness :
  uint24_rect (Geometry.mkRect 0 0 27 37) /\
  checkTarget (Geometry.mkRect 0 0 27 37) s0 = Ok tt s0.
Proof.
  assert (Ht : uint24_rect (Geometry.mkRect 0 0 27 37))
    by (unfold uint24_rect, is_uint24, UINT24; simpl; lia).
  split; [exact Ht|].
  apply (proj1 (proj2 (target_admission overlapG intersectG
                         (Geometry.mkRect 0 0 27 37) s0 Ht))).
  - unfold in_grid, GRID_WIDTH, GRID_HEIGHT; simpl; lia.
  - reflexivity.
Defined.

(** C4 fails on the contract: with the first record at one wei per
    pixel, Alice buys one pixel and pays exactly its price, one wei; the
    fee rate is not zero, and the purchase is accepted. *)
Lemma exact_payment_accepted :
  totalPrice cheap (tiling [0; 0; 1; 1] [0]) = 1 /\
  FEE_IN_THOUSANDS_OF_PERCENT <> 0 /\
  run (env alice 1) (Purchase [0; 0; 1; 1] [0; 0; 1; 1] [0] "hash" "url" 7) cheap
  = (s_cheap, Success).
Proof.
  split; [vm_compute; reflexivity|]. split; [discriminate|].
  vm_compute. reflexivity.
Qed.

(** C4, as the contract has it, on Alice's pixel, whose price is
    2 * 10^13 wei. *)
Lemma exact_payment_witness :
  Forall is_uint256 [10; 10; 1; 1] /\
  0 <= balanceOf s0 grid /\
  run (env alice (505 * 10 ^ 12)) pixel s0 = (s1, Success) /\
  run (env alice (2 * 10 ^ 13)) pixel s0 = (s0, Failed InsufficientFee).
Proof.
  assert (Ha : Forall is_uint256 [10; 10; 1; 1])
    by (repeat constructor; apply uint256_small; lia).
  assert (Hb : 0 <= balanceOf s0 grid) by (vm_compute; discriminate).
  assert (H : run (env alice (505 * 10 ^ 12)) pixel s0 = (s1, Success))
    by (vm_compute; reflexivity).
  split; [exact Ha|]. split; [exact Hb|]. split; [exact H|].
  apply (proj1 (exact_payment overlapG intersectG (env alice (505 * 10 ^ 12))
                  [10; 10; 1; 1] [10; 10; 1; 1] [0] "hash" "url" 7 s0 s1 Ha Hb H)).
  vm_compute. discriminate.
Defined.

(** C6 fails on the contract: both pieces of the pair are of the first
    record, and its hole set gains the new id twice. *)
Lemma one_hole_per_piece :
  run (env alice (505 * 10 ^ 12))
    (Purchase [0; 0; 2; 1] [0; 0; 1; 1;  1; 0; 1; 1] [0; 0] "hash" "url" 7) s0
  = (s_pair, Success) /\
  holesOf s0 0 = [] /\ holesOf s_pair 0 = [1; 1].
Proof. repeat split; vm_compute; reflexivity. Qed.

(** C6, as the contract has it, on the pair. *)
Lemma holes_after_purchase_witness :
  run (env alice (505 * 10 ^ 12)) pair s0 = (s_pair, Success) /\
  holesOf s_pair (ownershipLength s0) = [] /\
  forall k, k <> ownershipLength s0 ->
    holesOf s_pair k
    = holesOf s0 k ++ replicate (count_occ Z.eq_dec [0; 0] k) (ownershipLength s0).
Proof.
  assert (H : run (env alice (505 * 10 ^ 12)) pair s0 = (s_pair, Success))
    by (vm_compute; reflexivity).
  split; [exact H|].
  exact (holes_after_purchase overlapG intersectG (env alice (505 * 10 ^ 12))
           [0; 0; 2; 1] [0; 0; 1; 1;  1; 0; 1; 1] [0; 0] "hash" "url" 7 s0 s_pair H).
Defined.

(** C7 on the grid after Alice's purchase. *)
Lemma ownership_invariant_witness :
  reachable overlapG intersectG s1 /\ Forall valid_zone (ownership s1).
Proof.
  assert (Hr : reachable overlapG intersectG s1).
  { apply (reachable_execute overlapG intersectG (env alice (505 * 10 ^ 12)) pixel s0).
    - apply reachable_constructor.
    - repeat constructor; unfold UINT24; lia. }
  split; [exact Hr|]. exact (ownership_invariant overlapG intersectG s1 Hr).
Defined.

(** C8, the input on which the contract wraps.  On the new grid Alice
    buys the pixel at the origin with a single piece whose left edge is
    [2^256 - 1]: the sum [x + w] of the piece is [2^256], outside the
    range of [uint256]; the contract computes it as [0], finds the piece
    inside the target, and accepts the purchase. *)
Lemma wrapped_piece_accepted :
  let piece := Geometry.mkRect (UINT256 - 1) 0 1 1 in
  Geometry.x piece + Geometry.w piece = UINT256 /\
  add256 (Geometry.x piece) (Geometry.w piece) = 0 /\
  (run (env alice (505 * 10 ^ 12))
     (Purchase [0; 0; 1; 1] [UINT256 - 1; 0; 1; 1] [0] "hash" "url" 7) s0).2 = Success.
Proof. repeat split; vm_compute; reflexivity. Qed.

(** C10 on the admin buying a pixel of the admin's own record. *)
Lemma self_purchase_witness :
  Forall is_uint256 [10; 10; 1; 1] /\
  0 <= balanceOf s0 grid /\
  0 ∈ [0] /\
  getRecord s0 0 = Some (Zone.mk 0 0 250 250 admin) /\
  505 * 10 ^ 12 <= balanceOf s0 admin /\
  run (env alice (505 * 10 ^ 12)) pixel s0 = (s1, Success) /\
  run (env admin (505 * 10 ^ 12)) pixel s0 = (s_self, Success) /\
  PlotSectionSold 0 (2 * 10 ^ 13) admin admin ∈ log s_self.
Proof.
  assert (Ha : Forall is_uint256 [10; 10; 1; 1])
    by (repeat constructor; apply uint256_small; lia).
  assert (Hb : 0 <= balanceOf s0 grid) by (vm_compute; discriminate).
  assert (Hi : 0 ∈ [0]) by (apply list_elem_of_here).
  assert (Hz : getRecord s0 0 = Some (Zone.mk 0 0 250 250 admin)) by reflexivity.
  assert (Hf : msg_value (env alice (505 * 10 ^ 12)) <= balanceOf s0 admin)
    by (vm_compute; discriminate).
  assert (H : run (env alice (505 * 10 ^ 12)) pixel s0 = (s1, Success))
    by (vm_compute; reflexivity).
  destruct (self_purchase overlapG intersectG (env alice (505 * 10 ^ 12)) admin 0
              (Zone.mk 0 0 250 250 admin) [10; 10; 1; 1] [10; 10; 1; 1] [0]
              "hash" "url" 7 s0 s1 Ha Hb Hi Hz eq_refl Hf H) as (t & Hrun & Hlog).
  repeat (split; [assumption|]).
  split; [vm_compute; reflexivity|].
  vm_compute. apply list_elem_of_here.
Defined.

(** * Further properties of the contract *)

(** ** Calls that are not payable *)

Lemma balanceOf_entry env s a :
  balanceOf (entry env s) a =
  balanceOf s a - (if decide (a = msg_sender env) then msg_value env else 0)
               + (if decide (a = this env) then msg_value env else 0).
Proof. unfold entry. apply balanceOf_move. Qed.

Lemma call_inv payable env body s s' :
  call payable env body s = (s', Success) ->
  (payable = false -> msg_value env = 0) /\
  msg_value env <= balanceOf s (msg_sender env) /\
  body (entry env s) = Ok tt s'.
Proof.
  unfold call, entry.
  destruct payable; simpl.
  - destruct (Z.ltb_spec (balanceOf s (msg_sender env)) (msg_value env)); [discriminate|].
    destruct (body _) as [[] t|e t]; [|discriminate]. intros [= ->]. by repeat split.
  - destruct (Z.eqb_spec (msg_value env) 0) as [Hv|Hv]; simpl; [|discriminate].
    destruct (Z.ltb_spec (balanceOf s (msg_sender env)) (msg_value env)); [discriminate|].
    destruct (body _) as [[] t|e t]; [|discriminate]. intros [= ->]. by repeat split.
Qed.

(** [setAuctionPrice] by cases. *)
Lemma setAuctionPrice_cases env z p s :
  setAuctionPrice env z p s =
  match (if decide (0 <= z) then ownership s !! Z.to_nat z else None) with
  | None => Revert OutOfRange s
  | Some zone =>
      if msg_sender env =? Zone.owner zone
      then Ok tt (set_tokenIdToAuction (<[z := p]> (tokenIdToAuction s)) s)
      else Revert NotOwner s
  end.
Proof.
  unfold setAuctionPrice, bind, gets, ownershipAt, bind, gets, index, modify, ownershipLength.
  destruct (Z.leb_spec 0 z) as [H0|H0]; simpl.
  - rewrite decide_True by done.
    destruct (Z.ltb_spec z (Z.of_nat (length (ownership s)))) as [Hlt|Hge]; simpl.
    + destruct (lookup_lt_is_Some_2 (ownership s) (Z.to_nat z)) as [zone Hz]; [lia|].
      rewrite Hz. simpl. by destruct (_ =? _).
    + rewrite lookup_ge_None_2 by lia. done.
  - rewrite decide_False by lia. done.
Qed.

Lemma updateAuction_cases env z p s :
  updateAuction env z p s =
  match (if decide (0 <= z) then ownership s !! Z.to_nat z else None) with
  | None => Revert OutOfRange s
  | Some zone =>
      if msg_sender env =? Zone.owner zone
      then Ok tt (set_log (log s ++ [AuctionUpdated z p (msg_sender env)])
                    (set_tokenIdToAuction (<[z := p]> (tokenIdToAuction s)) s))
      else Revert NotOwner s
  end.
Proof.
  unfold updateAuction, bind. rewrite setAuctionPrice_cases.
  destruct (if decide (0 <= z) then _ else _) as [zone|]; [|done].
  by destruct (_ =? _).
Qed.

Lemma priceOf_insert z p s k v :
  tokenIdToAuction v = <[z := p]> (tokenIdToAuction s) ->
  priceOf v k = if decide (k = z) then p else priceOf s k.
Proof.
  unfold priceOf. intros ->. case_decide as Hk.
  - subst. by rewrite lookup_insert_eq.
  - by rewrite lookup_insert_ne.
Qed.

(** [withdraw] by cases. *)
Lemma withdraw_cases env to s :
  withdraw env to s =
  if negb (msg_sender env =? owner s) then Revert NotAuthorized s
  else if negb (to =? owner s) then Revert NotAuthorized s
  else if can_receive env (owner s)
       then Ok tt (move (this env) (owner s) (balanceOf s (this env)) s)
       else Revert TransferFailed s.
Proof.
  unfold withdraw, transfer, bind, gets, modify.
  destruct (msg_sender env =? owner s); simpl; [|done].
  destruct (to =? owner s); simpl; [|done].
  rewrite Z.leb_refl. simpl. by destruct (can_receive env (owner s)).
Qed.

Section Further.

Variable doRectanglesOverlap : Rect -> Rect -> option bool.
Variable computeRectOverlap : Rect -> Rect -> option Rect.

#[local] Abbreviation validatePurchases_ :=
  (validatePurchases doRectanglesOverlap computeRectOverlap).
#[local] Abbreviation purchaseAreaWithData_ :=
  (purchaseAreaWithData doRectanglesOverlap computeRectOverlap).
#[local] Abbreviation execute_ :=
  (execute doRectanglesOverlap computeRectOverlap).
#[local] Abbreviation reachable_ :=
  (reachable doRectanglesOverlap computeRectOverlap).

(** A call that sends no ether leaves every balance as it was when the
    function starts. *)
Lemma balanceOf_entry_0 env s a : msg_value env = 0 -> balanceOf (entry env s) a = balanceOf s a.
Proof. intros Hv. rewrite balanceOf_entry, Hv. repeat case_decide; lia. Qed.

(** The state a successful [updateAuction] leaves. *)
Lemma update_inv env z p s s' :
  execute_ env (UpdateAuction z p) s = (s', Success) ->
  exists zone,
    0 <= z /\ getRecord s z = Some zone /\
    msg_sender env = Zone.owner zone /\ msg_value env = 0 /\
    s' = set_log (log s ++ [AuctionUpdated z p (msg_sender env)])
           (set_tokenIdToAuction (<[z := p]> (tokenIdToAuction s)) (entry env s)).
Proof.
  simpl. intros H. apply call_inv in H. destruct H as (Hv & _ & H).
  specialize (Hv eq_refl). rewrite updateAuction_cases in H.
  case_decide as Hz; [|discriminate].
  change (ownership (entry env s)) with (ownership s) in H.
  destruct (ownership s !! Z.to_nat z) as [zone|] eqn:Hzone; [|discriminate].
  destruct (Z.eqb_spec (msg_sender env) (Zone.owner zone)) as [Hs|Hs]; [|discriminate].
  injection H as <-. by exists zone.
Qed.

(** The state a successful [withdraw] leaves. *)
Lemma withdraw_inv env to s s' :
  execute_ env (Withdraw to) s = (s', Success) ->
  msg_sender env = owner s /\ to = owner s /\ msg_value env = 0 /\
  can_receive env (owner s) = true /\
  s' = move (this env) (owner s) (balanceOf (entry env s) (this env)) (entry env s).
Proof.
  simpl. intros H. apply call_inv in H. destruct H as (Hv & _ & H).
  specialize (Hv eq_refl). rewrite withdraw_cases in H.
  change (owner (entry env s)) with (owner s) in H.
  destruct (Z.eqb_spec (msg_sender env) (owner s)) as [Hs|]; [|discriminate].
  destruct (Z.eqb_spec to (owner s)) as [Ht|]; [|discriminate]. simpl in H.
  destruct (can_receive env (owner s)) eqn:Hc; [|discriminate].
  by injection H as <-.
Qed.

Lemma execute_failed env tx s s' e : execute_ env tx s = (s', Failed e) -> s' = s.
Proof. destruct tx; simpl; apply call_failed. Qed.

(** X1.  [updateAuction] succeeds only when it is sent without ether by
    the owner of an existing record.  It then sets the price of that
    record to the new value and appends one [AuctionUpdated] event;
    every other price, the records, the holes, the metadata and all
    balances stay as they were. *)
Theorem updateAuction_effect env z p s s' :
  execute_ env (UpdateAuction z p) s = (s', Success) ->
  exists zone,
    0 <= z < ownershipLength s /\ getRecord s z = Some zone /\
    msg_sender env = Zone.owner zone /\ msg_value env = 0 /\
    (forall k, priceOf s' k = if decide (k = z) then p else priceOf s k) /\
    ownership s' = ownership s /\ holes s' = holes s /\ data s' = data s /\
    owner s' = owner s /\
    (forall a, balanceOf s' a = balanceOf s a) /\
    log s' = log s ++ [AuctionUpdated z p (msg_sender env)].
Proof.
  intros H. apply update_inv in H. destruct H as (zone & Hz & Hzone & Hs & Hv & ->).
  exists zone. pose proof (lookup_lt_Some _ _ _ Hzone) as Hlt.
  split; [unfold ownershipLength; lia|]. do 3 (split; [done|]).
  split; [intros k; by apply priceOf_insert|].
  do 4 (split; [done|]). split; [|done].
  intros a. rewrite balanceOf_set_log. by apply balanceOf_entry_0.
Qed.

(** X2.  The owner of a record can always set its price: a call of
    [updateAuction] without ether by the owner of record [z] succeeds,
    whatever the new price. *)
Theorem updateAuction_by_owner env z p s zone :
  0 <= z -> getRecord s z = Some zone -> msg_sender env = Zone.owner zone ->
  msg_value env = 0 -> 0 <= balanceOf s (msg_sender env) ->
  exists s', execute_ env (UpdateAuction z p) s = (s', Success) /\ priceOf s' z = p.
Proof.
  intros Hz Hzone Hs Hv Hb. simpl. unfold call. rewrite Hv. simpl.
  destruct (Z.ltb_spec (balanceOf s (msg_sender env)) 0) as [|_]; [lia|].
  rewrite updateAuction_cases. rewrite decide_True by done.
  change (ownership (move _ _ _ s)) with (ownership s).
  unfold getRecord in Hzone. rewrite Hzone, Hs, Z.eqb_refl.
  eexists. split; [reflexivity|].
  erewrite priceOf_insert by reflexivity. by rewrite decide_True.
Qed.

(** X3.  [withdraw] succeeds only when the owner of the contract calls
    it without ether and names itself as the recipient.  It then moves
    the whole balance of the contract to the owner; the contract storage
    and the event log stay as they were. *)
Theorem withdraw_effect env to s s' :
  execute_ env (Withdraw to) s = (s', Success) ->
  msg_sender env = owner s /\ to = owner s /\ msg_value env = 0 /\
  can_receive env (owner s) = true /\
  ledger_eq s s' /\ log s' = log s /\
  (forall a, balanceOf s' a =
     balanceOf s a - (if decide (a = this env) then balanceOf s (this env) else 0)
                   + (if decide (a = owner s) then balanceOf s (this env) else 0)).
Proof.
  intros H. apply withdraw_inv in H. destruct H as (Hs & Ht & Hv & Hc & ->).
  do 4 (split; [done|]). split; [by repeat split|]. split; [done|].
  intros a. rewrite balanceOf_move, !balanceOf_entry_0 by done. done.
Qed.

(** ** What a transaction leaves of the ledger *)

Lemma holesOf_record env idx ipfs u price P x y w h s1 k :
  holesOf (record_purchase env idx ipfs u price P x y w h s1) k =
  holesOf (push_all idx (ownershipLength s1)
             (set_holes (<[ownershipLength s1 := []]> (holes s1)) s1)) k.
Proof. reflexivity. Qed.

(** The ledger after a purchase that succeeded, field by field. *)
Lemma purchase_ledger env p a idx ipfs u price s s' :
  execute_ env (Purchase p a idx ipfs u price) s = (s', Success) ->
  exists x y w h, p = [x; y; w; h] /\
    Forall (fun id => (Z.to_nat id < length (ownership s))%nat) idx /\
    ownership s' = ownership s ++ [Zone.mk x y w h (msg_sender env)] /\
    data s' = <[ownershipLength s := mkZoneData ipfs u]> (data s) /\
    tokenIdToAuction s' = <[ownershipLength s := price]> (tokenIdToAuction s) /\
    (forall k, holesOf s' k =
       if decide (k = ownershipLength s) then []
       else holesOf s k ++ replicate (count_occ Z.eq_dec idx k) (ownershipLength s)) /\
    owner s' = owner s.
Proof.
  simpl. intros H. apply call_inv in H. destruct H as (_ & _ & H).
  apply purchase_ok in H. destruct H as (P & s1 & x & y & w & h & -> & Hv & ->).
  pose proof (validate_indices _ _ _ _ _ _ _ _ _ Hv) as Hidx.
  change (ownership (entry env s)) with (ownership s) in Hidx.
  apply (keeps_ok _ _ _ _ (keeps_validatePurchases _ _ _ _ _ _)) in Hv.
  destruct Hv as (Ho & Hd & Ht & Hh & Hw). simpl in Ho, Hd, Ht, Hh, Hw.
  exists x, y, w, h. split; [done|]. split; [done|].
  assert (Hlen : ownershipLength s1 = ownershipLength s)
    by (unfold ownershipLength; by rewrite Ho).
  split; [unfold record_purchase; simpl; by rewrite Ho|].
  split; [unfold record_purchase; simpl; by rewrite Hlen, Hd|].
  split; [unfold record_purchase; simpl; by rewrite Hlen, Ht|].
  split; [|done].
  intros k. rewrite holesOf_record, holesOf_push_all, Hlen.
  case_decide as Hk.
  - subst k. unfold holesOf at 1. simpl. rewrite lookup_insert_eq. simpl.
    assert (Hc : count_occ Z.eq_dec idx (ownershipLength s) = 0%nat).
    { apply count_occ_not_In. intros Hin. apply list_elem_of_In in Hin.
      pose proof (proj1 (Forall_forall _ _) Hidx _ Hin) as Hlt.
      cbv beta in Hlt. unfold ownershipLength in Hlt. lia. }
    by rewrite Hc.
  - unfold holesOf at 1. simpl. rewrite lookup_insert_ne by done.
    by rewrite Hh.
Qed.

(** One transaction appends at most one record and rewrites none. *)
Lemma execute_records env tx s :
  exists new, ownership (execute_ env tx s).1 = ownership s ++ new /\ (length new <= 1)%nat.
Proof.
  destruct (execute_ env tx s) as [s' [|e]] eqn:He; simpl.
  - destruct tx as [p a idx ipfs u price|z price|to].
    + apply purchase_ledger in He.
      destruct He as (x & y & w & h & _ & _ & Ho & _). rewrite Ho. eexists. split; [done|]. simpl. lia.
    + apply update_inv in He. destruct He as (zone & _ & _ & _ & _ & ->).
      exists []. rewrite app_nil_r. split; [done | simpl; lia].
    + apply withdraw_inv in He. destruct He as (_ & _ & _ & _ & ->).
      exists []. rewrite app_nil_r. split; [done | simpl; lia].
  - apply execute_failed in He. subst. exists []. rewrite app_nil_r. split; [done | simpl; lia].
Qed.

(** One transaction keeps the metadata of every id but the next free
    one, and only appends to its holes. *)
Lemma execute_entries env tx s k :
  k <> ownershipLength s ->
  data (execute_ env tx s).1 !! k = data s !! k /\
  exists n, holesOf (execute_ env tx s).1 k = holesOf s k ++ replicate n (ownershipLength s).
Proof.
  intros Hk. destruct (execute_ env tx s) as [s' [|e]] eqn:He; simpl.
  - destruct tx as [p a idx ipfs u price|z price|to].
    + apply purchase_ledger in He.
      destruct He as (x & y & w & h & _ & _ & _ & Hd & _ & Hh & _).
      rewrite Hd, lookup_insert_ne by done. split; [done|].
      rewrite Hh, decide_False by done. by eexists.
    + apply update_inv in He. destruct He as (zone & _ & _ & _ & _ & ->).
      split; [done|]. exists 0%nat. simpl. by rewrite app_nil_r.
    + apply withdraw_inv in He. destruct He as (_ & _ & _ & _ & ->).
      split; [done|]. exists 0%nat. simpl. by rewrite app_nil_r.
  - apply execute_failed in He. subst. split; [done|]. exists 0%nat. simpl. by rewrite app_nil_r.
Qed.

#[local] Abbreviation later_ := (later doRectanglesOverlap computeRectOverlap).

Lemma later_records s s' :
  later_ s s' -> exists new, ownership s' = ownership s ++ new.
Proof.
  induction 1 as [|env tx s' _ [new IH]]; [exists []; by rewrite app_nil_r|].
  destruct (execute_records env tx s') as (new' & -> & _).
  exists (new ++ new'). by rewrite IH, app_assoc.
Qed.

(** X4.  The list of ownership records is append-only.  Whatever
    transactions are sent, and whether they succeed or fail, a record
    that exists keeps its id, its rectangle and its owner for ever, and
    the number of records never decreases. *)
Theorem records_append_only s s' k zone :
  later_ s s' -> getRecord s k = Some zone ->
  getRecord s' k = Some zone /\ ownershipLength s <= ownershipLength s'.
Proof.
  intros Hl Hz. destruct (later_records s s' Hl) as [new Ho].
  unfold getRecord, ownershipLength in *. rewrite Ho. split.
  - by apply lookup_app_l_Some.
  - rewrite length_app. lia.
Qed.

(** X5.  Nothing rewrites what is stored for a record that exists:
    whatever transactions are sent, its metadata stay the same, and its
    hole list only grows at the end (the holes recorded so far stay, in
    the same order). *)
Theorem existing_entries_kept s s' k :
  later_ s s' -> k < ownershipLength s ->
  data s' !! k = data s !! k /\ holesOf s k `prefix_of` holesOf s' k.
Proof.
  intros Hl Hk. induction Hl as [|env tx s' Hl [IHd IHh]]; [done|].
  destruct (later_records s s' Hl) as [new Ho].
  assert (Hne : k <> ownershipLength s').
  { unfold ownershipLength in *. rewrite Ho, length_app. lia. }
  destruct (execute_entries env tx s' k Hne) as (Hd & n & Hh).
  split; [congruence|]. rewrite Hh.
  etrans; [exact IHh|]. by apply prefix_app_r.
Qed.

(** X6.  Only its owner changes the price of a record: when the price of
    an existing record differs after a transaction, the transaction was
    an [updateAuction] for that record sent by the owner of the record. *)
Theorem price_changed_by_owner env tx s k :
  k <> ownershipLength s ->
  priceOf (execute_ env tx s).1 k <> priceOf s k ->
  exists p zone, tx = UpdateAuction k p /\ getRecord s k = Some zone /\
    msg_sender env = Zone.owner zone /\ (execute_ env tx s).2 = Success.
Proof.
  intros Hk. destruct (execute_ env tx s) as [s' [|e]] eqn:He; simpl.
  - destruct tx as [p a idx ipfs u price|z price|to].
    + apply purchase_ledger in He.
      destruct He as (x & y & w & h & _ & _ & _ & _ & Ht & _).
      rewrite (priceOf_insert _ _ _ _ _ Ht), decide_False by done. done.
    + apply update_inv in He. destruct He as (zone & _ & Hz & Hs & _ & ->).
      erewrite priceOf_insert by reflexivity. case_decide as Hkz; [|done].
      subst z. intros _. by exists price, zone.
    + apply withdraw_inv in He. destruct He as (_ & _ & _ & _ & ->). done.
  - apply execute_failed in He. by subst.
Qed.

(** ** The hole check *)

#[local] Abbreviation checkHoles_ := (checkHoles doRectanglesOverlap).
#[local] Abbreviation clear_of_holes_ := (clear_of_holes doRectanglesOverlap).
#[local] Abbreviation piece_checked_ :=
  (piece_checked doRectanglesOverlap computeRectOverlap).
#[local] Abbreviation distributeStep_ :=
  (distributeStep doRectanglesOverlap computeRectOverlap).

(** One iteration of the hole loop, by cases. *)
Lemma hole_step piece id j s :
  (hs <- gets (fun s => holesOf s id) ;;
   hole <- index hs j ;;
   holeOwnership <- ownershipAt hole ;;
   o <- geometry (doRectanglesOverlap piece (zoneRect holeOwnership)) ;;
   require (negb o) HoleConflict) s =
  match holesOf s id !! j with
  | None => Revert OutOfRange s
  | Some hole =>
      match getRecord s hole with
      | None => Revert OutOfRange s
      | Some zh =>
          match doRectanglesOverlap piece (zoneRect zh) with
          | None => Revert GeometryRevert s
          | Some true => Revert HoleConflict s
          | Some false => Ok tt s
          end
      end
  end.
Proof.
  unfold bind, gets, index, ownershipAt, bind, gets, index, getRecord.
  destruct (holesOf s id !! j) as [hole|]; [|done]. simpl.
  destruct (ownership s !! Z.to_nat hole) as [zh|]; [|done]. simpl.
  destruct (doRectanglesOverlap piece (zoneRect zh)) as [[|]|]; done.
Qed.

Lemma hole_loop_ok piece id n i s :
  (i + n = length (holesOf s id))%nat ->
  for_loop n i (fun holeIndex _ =>
    hs <- gets (fun s => holesOf s id) ;;
    hole <- index hs holeIndex ;;
    holeOwnership <- ownershipAt hole ;;
    o <- geometry (doRectanglesOverlap piece (zoneRect holeOwnership)) ;;
    require (negb o) HoleConflict) tt s = Ok tt s <->
  Forall (fun hole => exists zh, getRecord s hole = Some zh /\
            doRectanglesOverlap piece (zoneRect zh) = Some false)
         (drop i (holesOf s id)).
Proof.
  revert i. induction n as [|n IH]; intros i Hn; simpl.
  - rewrite drop_ge by lia. split; [constructor | done].
  - destruct (lookup_lt_is_Some_2 (holesOf s id) i) as [hole Hh]; [lia|].
    rewrite (drop_S _ _ _ Hh), Forall_cons.
    unfold bind at 1. rewrite hole_step, Hh.
    destruct (getRecord s hole) as [zh|] eqn:Hz.
    + destruct (doRectanglesOverlap piece (zoneRect zh)) as [[|]|] eqn:Ho.
      * split; [done|]. intros [(zh' & [= <-] & Ho') _]. congruence.
      * rewrite IH by lia. split; [|tauto]. intros H. split; [by exists zh | done].
      * split; [done|]. intros [(zh' & [= <-] & Ho') _]. congruence.
    + split; [done|]. by intros [(zh' & ? & _) _].
Qed.

Lemma checkHoles_ok piece id s :
  checkHoles_ piece id s = Ok tt s <-> clear_of_holes_ piece id s.
Proof.
  unfold checkHoles, clear_of_holes. unfold bind at 1. unfold gets at 1.
  rewrite hole_loop_ok by (simpl; lia). by rewrite drop_0.
Qed.

Lemma clear_of_holes_ledger piece id s1 s2 :
  ledger_eq s1 s2 -> clear_of_holes_ piece id s1 -> clear_of_holes_ piece id s2.
Proof.
  intros Hl. unfold clear_of_holes, getRecord.
  rewrite (holesOf_ledger s1 s2 id Hl). destruct Hl as (-> & _). done.
Qed.

Lemma piece_checked_ledger t rects s1 s2 i id :
  ledger_eq s1 s2 -> piece_checked_ t rects s1 i id -> piece_checked_ t rects s2 i id.
Proof.
  intros Hl (zone & overlap & piece & Hz & Ho & Hc & Hp & Hw & Hh & Hpr).
  exists zone, overlap, piece.
  rewrite <- (priceOf_ledger s1 s2 id Hl).
  apply (clear_of_holes_ledger _ _ _ _ Hl) in Hh.
  unfold getRecord in *. destruct Hl as (-> & _). done.
Qed.

(** ** What the payout loop has checked *)

Lemma step_checked env t rects idx i acc s acc' s' :
  distributeStep_ env t rects idx i acc s = Ok acc' s' ->
  exists id, idx !! i = Some id /\ piece_checked_ t rects s i id.
Proof.
  intros H. apply distributeStep_ok in H.
  destruct H as (id & zone & overlap & piece & price & Hid & Hz & Ho & Hc & Hp & Hw & Hh & Hpr & _).
  exists id. split; [done|]. exists zone, overlap, piece.
  do 5 (split; [done|]). split; [by apply checkHoles_ok|].
  unfold getPriceOfAuctionedZone in Hpr.
  apply bind_ok in Hpr. destruct Hpr as (? & ? & [-> ->]%gets_ok & Hpr).
  apply bind_ok in Hpr. destruct Hpr as (? & ? & [Hlt ->]%require_ok & _).
  by apply Z.ltb_lt in Hlt.
Qed.

Lemma distribute_loop_checked env t rects idx n i acc s acc' s' :
  for_loop n i (distributeStep_ env t rects idx) acc s = Ok acc' s' ->
  forall j id, (i <= j < i + n)%nat -> idx !! j = Some id -> piece_checked_ t rects s j id.
Proof.
  revert i acc s. induction n as [|n IH]; intros i acc s H j id Hj Hid; [lia|].
  simpl in H. apply bind_ok in H. destruct H as (acc1 & s1 & Hstep & H).
  destruct (decide (j = i)) as [->|Hne].
  - apply step_checked in Hstep. destruct Hstep as (id' & Hid' & Hc). congruence.
  - pose proof (keeps_ok _ _ _ _ (keeps_distributeStep _ _ _ _ _ _ _ _) Hstep) as Hl.
    apply (piece_checked_ledger _ _ s1 s _ _ (ledger_eq_sym _ _ Hl)).
    apply (IH (S i) acc1 s1 H); [lia | done].
Qed.

(** Every piece of a purchase that succeeded has passed the checks of
    the payout loop, on the ledger of before the call. *)
Lemma purchase_checked env p a idx ipfs u price s s' :
  execute_ env (Purchase p a idx ipfs u price) s = (s', Success) ->
  exists t, prelude_ok doRectanglesOverlap p a idx t (entry env s) /\
    forall i id, idx !! i = Some id -> piece_checked_ t (pieces a) s i id.
Proof.
  simpl. intros H. apply call_inv in H. destruct H as (_ & _ & H).
  apply purchase_ok in H. destruct H as (P & s1 & x & y & w & h & -> & Hv & ->).
  destruct (validate_inv _ _ _ _ _ _ _ _ _ Hv) as (t & Hpre).
  rewrite (validate_run _ _ _ _ _ _ _ _ Hpre) in Hv.
  exists t. split; [done|]. intros i id Hid.
  unfold settlement, distributePurchaseFunds in Hv.
  apply bind_ok in Hv. destruct Hv as (rem & s2 & Hd & _).
  apply bind_ok in Hd. destruct Hd as (acc & s3 & Hloop & _).
  apply (piece_checked_ledger _ _ (entry env s) s _ _ (ledger_eq_sym _ _ (ledger_eq_entry env s))).
  apply (distribute_loop_checked _ _ _ _ _ _ _ _ _ _ Hloop); [|done].
  apply lookup_lt_Some in Hid. lia.
Qed.

(** ** The holes of the reachable states *)

Lemma holesOf_constructor env bal k : holesOf (constructor env bal) k = [].
Proof.
  unfold holesOf, constructor. simpl.
  destruct (decide (k = 0)) as [->|Hk].
  - by rewrite lookup_singleton_eq.
  - by rewrite lookup_singleton_ne.
Qed.

Lemma holes_inv s :
  reachable_ s ->
  forall k hole, hole ∈ holesOf s k ->
    k < hole < ownershipLength s /\ 0 < hole /\
    forall zk zh, getRecord s k = Some zk -> getRecord s hole = Some zh ->
      doRectanglesOverlap (zoneRect zh) (zoneRect zk) = Some true.
Proof.
  induction 1 as [env bal|env tx s Hr IH _]; intros k hole Hin.
  - rewrite holesOf_constructor in Hin. by apply elem_of_nil in Hin.
  - destruct (execute_ env tx s) as [s' [|e]] eqn:He; simpl in *.
    + destruct tx as [p a idx ipfs u price|z price|to].
      * destruct (purchase_checked _ _ _ _ _ _ _ _ _ He) as (t & Hpre & Hchk).
        apply purchase_ledger in He.
        destruct He as (x & y & w & h & -> & Hidx & Ho & _ & _ & Hh & _).
        destruct t as [tx ty tw th]. destruct Hpre as ([= -> -> -> ->] & _).
        assert (Hlen : ownershipLength s' = ownershipLength s + 1).
        { unfold ownershipLength. rewrite Ho, length_app. simpl. lia. }
        rewrite Hh in Hin. case_decide as Hk; [by apply elem_of_nil in Hin|].
        apply elem_of_app in Hin. destruct Hin as [Hin|Hin].
        -- destruct (IH k hole Hin) as (Hlt & Hpos & Hov).
           split; [lia|]. split; [done|]. intros zk zh Hzk Hzh.
           unfold getRecord in *. rewrite Ho in Hzk, Hzh. unfold ownershipLength in Hlt.
           rewrite lookup_app_l in Hzk by lia. rewrite lookup_app_l in Hzh by lia.
           by apply Hov.
        -- apply elem_of_replicate in Hin. destruct Hin as [-> Hn].
           assert (Hk' : k ∈ idx).
           { apply list_elem_of_In. apply (count_occ_In Z.eq_dec). lia. }
           pose proof (proj1 (Forall_forall _ _) Hidx _ Hk') as Hlt. cbv beta in Hlt.
           unfold ownershipLength in *.
           split; [lia|]. split; [lia|]. intros zk zh Hzk Hzh.
           unfold getRecord in *. rewrite Ho in Hzk, Hzh.
           rewrite lookup_app_l in Hzk by lia.
           rewrite lookup_app_r in Hzh by lia.
           rewrite Nat2Z.id, Nat.sub_diag in Hzh. injection Hzh as <-.
           apply list_elem_of_lookup in Hk'. destruct Hk' as [i Hi].
           destruct (Hchk i k Hi) as (zone & overlap & piece & Hz & Hov & _).
           unfold getRecord in Hz. rewrite Hz in Hzk. injection Hzk as <-.
           exact Hov.
      * apply update_inv in He. destruct He as (zone & _ & _ & _ & _ & ->).
        exact (IH k hole Hin).
      * apply withdraw_inv in He. destruct He as (_ & _ & _ & _ & ->).
        exact (IH k hole Hin).
    + apply execute_failed in He. subst. exact (IH k hole Hin).
Qed.

(** X7.  In every reachable state the holes of a record are records
    that exist and that were created after it: every id in [holes[k]]
    is greater than [k] and smaller than the number of records. *)
Theorem holes_are_later_records s k hole :
  reachable_ s -> hole ∈ holesOf s k -> k < hole < ownershipLength s.
Proof. intros Hr Hin. by destruct (holes_inv s Hr k hole Hin) as (? & _). Qed.

(** X8.  In every reachable state a hole of a record is a rectangle
    that, by the overlap test of the library, overlaps the rectangle of
    the record: holes are only recorded for purchases that the payout
    loop found to overlap the record they were bought from. *)
Theorem holes_overlap_their_record s k hole zk zh :
  reachable_ s -> hole ∈ holesOf s k ->
  getRecord s k = Some zk -> getRecord s hole = Some zh ->
  doRectanglesOverlap (zoneRect zh) (zoneRect zk) = Some true.
Proof.
  intros Hr Hin. destruct (holes_inv s Hr k hole Hin) as (_ & _ & H). apply H.
Qed.

(** ** The balances after a purchase *)

Lemma settle_balance env ps s acct :
  balanceOf (settle env ps s) acct =
  balanceOf s acct - (if decide (acct = this env) then paid ps else 0)
                   + income (ownership s) acct ps.
Proof.
  revert s. induction ps as [|p ps IH]; intros s; simpl.
  - case_decide; lia.
  - change (foldl (pay env) (pay env s p) ps) with (settle env ps (pay env s p)).
    rewrite IH. change (ownership (pay env s p)) with (ownership s).
    unfold pay. rewrite balanceOf_set_log, balanceOf_move.
    destruct (decide (acct = this env)), (decide (acct = sellerOf (ownership s) p.1)),
      (decide (sellerOf (ownership s) p.1 = acct)); try congruence; lia.
Qed.

Lemma payouts_unfold s owed p q t :
  payouts s owed (p :: q :: t) =
  if p.2 =? q.2 then payouts s (owed + sectionPrice s p) (q :: t)
  else (p.2, owed + sectionPrice s p) :: payouts s 0 (q :: t).
Proof. reflexivity. Qed.

Lemma earned_cons s acct p t :
  earned s acct (p :: t) =
  (if decide (sellerOf (ownership s) p.2 = acct) then sectionPrice s p else 0)
  + earned s acct t.
Proof. reflexivity. Qed.

Lemma income_cons own acct p ps :
  income own acct (p :: ps) =
  (if decide (sellerOf own p.1 = acct) then p.2 else 0) + income own acct ps.
Proof. reflexivity. Qed.

Lemma income_payouts s acct owed t :
  income (ownership s) acct (payouts s owed t) =
  match t with
  | [] => 0
  | p :: _ => if decide (sellerOf (ownership s) p.2 = acct) then owed else 0
  end + earned s acct t.
Proof.
  revert owed. induction t as [|p t IH]; intros owed; [done|].
  destruct t as [|q t].
  - simpl. case_decide; lia.
  - rewrite payouts_unfold, (earned_cons s acct p).
    destruct (Z.eqb_spec p.2 q.2) as [Heq|Hne].
    + rewrite IH, <- Heq.
      destruct (decide (sellerOf (ownership s) p.2 = acct)); lia.
    + rewrite income_cons, IH. cbn [fst snd].
      destruct (decide (sellerOf (ownership s) p.2 = acct)),
        (decide (sellerOf (ownership s) q.2 = acct)); lia.
Qed.

Lemma paid_payouts s owed t :
  paid (payouts s owed t) = match t with [] => 0 | _ => owed end + totalPrice s t.
Proof.
  revert owed. induction t as [|p t IH]; intros owed; [done|].
  destruct t as [|q t].
  - simpl. lia.
  - rewrite payouts_unfold.
    change (totalPrice s (p :: q :: t)) with (sectionPrice s p + totalPrice s (q :: t)).
    destruct (p.2 =? q.2).
    + rewrite IH. lia.
    + change (paid ((p.2, owed + sectionPrice s p) :: payouts s 0 (q :: t)))
        with (owed + sectionPrice s p + paid (payouts s 0 (q :: t))).
      rewrite IH. lia.
Qed.

Lemma tiling_nonempty a idx :
  (length a / 4 = length idx)%nat -> (0 < length idx)%nat -> tiling a idx <> [].
Proof.
  intros Hlen Hpos Ht. apply (f_equal length) in Ht.
  unfold tiling in Ht. rewrite length_zip, length_pieces in Ht.
  change (length (@nil (Rect * Z))) with 0%nat in Ht. lia.
Qed.

(** X11.  The money of a purchase that succeeds.  The buyer pays
    [msg.value]; every account receives the section prices of the
    pieces bought from its records; the contract keeps the rest, which
    is [msg.value] minus the total price and covers the fee.  Nothing
    is returned to a buyer who sends more than price and fee. *)
Theorem purchase_balances env p a idx ipfs u price s s' acct :
  Forall is_uint256 a ->
  execute_ env (Purchase p a idx ipfs u price) s = (s', Success) ->
  let P := totalPrice s (tiling a idx) in
  balanceOf s' acct =
    balanceOf s acct
    - (if decide (acct = msg_sender env) then msg_value env else 0)
    + (if decide (acct = this env) then msg_value env - P else 0)
    + earned s acct (tiling a idx)
  /\ 0 <= P <= msg_value env /\ P / 100 <= msg_value env - P.
Proof.
  intros Ha H P.
  destruct (purchase_success _ _ _ _ _ _ _ _ _ _ _ Ha H)
    as (t & Hpre & _ & -> & _ & HP & Hfee & _).
  fold P in HP, Hfee. rewrite requiredFee_hundredth in Hfee.
  split; [|done].
  change (balanceOf (record_purchase _ _ _ _ _ _ _ _ _ _ ?s1) acct) with (balanceOf s1 acct).
  rewrite settle_balance, balanceOf_entry.
  change (ownership (entry env s)) with (ownership s).
  rewrite income_payouts, paid_payouts.
  destruct Hpre as (_ & _ & _ & Hpos & _ & Hlen & _).
  pose proof (tiling_nonempty a idx Hlen Hpos) as Hne.
  fold P. destruct (tiling a idx) as [|q r] eqn:Ht; [done|].
  rewrite <- Ht. repeat case_decide; lia.
Qed.

(** ** Holes and later purchases *)

(** X9.  What a purchase that succeeds has checked of every piece, on
    the ledger of before the call: the record the piece is bought from
    exists and is for sale (its price is positive), the library finds
    that its rectangle overlaps the rectangle to purchase, the piece
    passes the containment test against the intersection of the two,
    and no hole of the record overlaps the piece. *)
Theorem purchase_checks_every_piece env p a idx ipfs u price s s' i id :
  execute_ env (Purchase p a idx ipfs u price) s = (s', Success) ->
  idx !! i = Some id ->
  exists x y w h, p = [x; y; w; h] /\
    piece_checked_ (Geometry.mkRect x y w h) (pieces a) s i id.
Proof.
  intros H Hid. destruct (purchase_checked _ _ _ _ _ _ _ _ _ H) as ([x y w h] & Hpre & Hchk).
  destruct Hpre as (-> & _). exists x, y, w, h. split; [done|]. by apply Hchk.
Qed.

Lemma later_holes s s' k hole :
  later_ s s' -> k < ownershipLength s -> hole ∈ holesOf s k -> hole ∈ holesOf s' k.
Proof.
  intros Hl Hk Hin. induction Hl as [|env tx s' Hl IH]; [done|].
  destruct (later_records s s' Hl) as [new Ho].
  assert (Hne : k <> ownershipLength s').
  { unfold ownershipLength in *. rewrite Ho, length_app. lia. }
  destruct (execute_entries env tx s' k Hne) as (_ & n & ->).
  apply elem_of_app. by left.
Qed.

(** X10.  No pixel of a record is sold twice.  After a purchase of the
    rectangle [(x, y, w, h)] that took a piece from record [k], and
    whatever transactions follow, every purchase fails that has a piece
    bought from record [k] which the library finds to overlap
    [(x, y, w, h)]. *)
Theorem no_double_sale env1 x y w h a1 idx1 ipfs1 u1 price1 s s1 s2
    env2 p2 a2 idx2 ipfs2 u2 price2 k i piece :
  execute_ env1 (Purchase [x; y; w; h] a1 idx1 ipfs1 u1 price1) s = (s1, Success) ->
  k ∈ idx1 ->
  later_ s1 s2 ->
  idx2 !! i = Some k -> pieces a2 !! i = Some piece ->
  doRectanglesOverlap piece (Geometry.mkRect x y w h) = Some true ->
  (execute_ env2 (Purchase p2 a2 idx2 ipfs2 u2 price2) s2).2 <> Success.
Proof.
  intros H1 Hk Hl Hi Hp Hov.
  apply purchase_ledger in H1.
  destruct H1 as (x' & y' & w' & h' & [= <- <- <- <-] & Hidx & Ho & _ & _ & Hh & _).
  pose proof (proj1 (Forall_forall _ _) Hidx _ Hk) as Hlt. cbv beta in Hlt.
  set (len := ownershipLength s) in *.
  assert (Hlen1 : ownershipLength s1 = len + 1).
  { unfold ownershipLength, len. rewrite Ho, length_app. simpl. unfold ownershipLength. lia. }
  assert (Hklen : k < len) by (unfold len, ownershipLength; lia).
  assert (Hhole1 : len ∈ holesOf s1 k).
  { rewrite Hh, decide_False by lia. apply elem_of_app. right.
    apply elem_of_replicate. split; [done|].
    apply list_elem_of_In, (count_occ_In Z.eq_dec) in Hk. lia. }
  assert (Hrec1 : getRecord s1 len = Some (Zone.mk x y w h (msg_sender env1))).
  { unfold getRecord. rewrite Ho. unfold len, ownershipLength. rewrite Nat2Z.id.
    rewrite lookup_app_r by lia. by rewrite Nat.sub_diag. }
  pose proof (later_holes s1 s2 k len Hl ltac:(lia) Hhole1) as Hhole2.
  destruct (later_records s1 s2 Hl) as [new Ho2].
  assert (Hrec2 : getRecord s2 len = Some (Zone.mk x y w h (msg_sender env1))).
  { unfold getRecord in *. rewrite Ho2. by apply lookup_app_l_Some. }
  destruct (execute_ env2 (Purchase p2 a2 idx2 ipfs2 u2 price2) s2) as [s3 [|e]] eqn:H2;
    [|done].
  exfalso. destruct (purchase_checked _ _ _ _ _ _ _ _ _ H2) as (t & _ & Hchk).
  destruct (Hchk i k Hi) as (zone & overlap & piece' & _ & _ & _ & Hp' & _ & Hclear & _).
  rewrite Hp in Hp'. injection Hp' as <-.
  unfold clear_of_holes in Hclear.
  destruct (proj1 (Forall_forall _ _) Hclear _ Hhole2) as (zh & Hzh & Hno).
  rewrite Hrec2 in Hzh. injection Hzh as <-. simpl in Hno.
  unfold zoneRect in Hno. simpl in Hno. congruence.
Qed.

(** ** The payment a purchase needs *)

(** X12.  The payment decides alone: take a purchase that succeeds with
    some payment and send it again with the payment [V], which the
    sender can afford.  It succeeds exactly when [V] is at least the
    total price plus its hundredth rounded down; above that, any
    payment is accepted. *)
Theorem payment_threshold env p a idx ipfs u price s s1 V :
  Forall is_uint256 a -> 0 <= balanceOf s (this env) ->
  execute_ env (Purchase p a idx ipfs u price) s = (s1, Success) ->
  V <= balanceOf s (msg_sender env) ->
  let P := totalPrice s (tiling a idx) in
  (execute_ (with_value env V) (Purchase p a idx ipfs u price) s).2 = Success
  <-> P + P / 100 <= V.
Proof.
  intros Ha Hbal H HV P. set (env' := with_value env V). split.
  - intros H'.
    destruct (execute_ env' (Purchase p a idx ipfs u price) s) as [s2 r] eqn:He.
    simpl in H'. subst r.
    destruct (purchase_success _ _ _ _ _ _ _ _ _ _ _ Ha He) as (t & _ & _ & _ & _ & HP & Hfee & _).
    fold P in HP, Hfee. rewrite requiredFee_hundredth in Hfee. simpl in HP, Hfee. lia.
  - intros HPV.
    destruct (purchase_success _ _ _ _ _ _ _ _ _ _ _ Ha H)
      as (t & Hpre & Hs & _ & Hfunds & HP & _ & _). fold P in Hs, HP.
    assert (0 <= P / 100) by (apply Z.div_pos; lia).
    assert (Hl : ledger_eq (entry env s) (entry env' s)) by by repeat split.
    assert (Hfunds' : msg_value env' <= balanceOf s (msg_sender env')) by (simpl; lia).
    assert (Hthis : P <= balanceOf (entry env' s) (this env')).
    { unfold entry. rewrite balanceOf_move. simpl.
      rewrite (decide_True (P := this env = this env)) by done. case_decide as Hd; [|lia].
      rewrite Hd. lia. }
    destruct (settlement_rel doRectanglesOverlap computeRectOverlap env env' t a idx
                (entry env s) (entry env' s) P _ eq_refl eq_refl Hl Hs
                ltac:(simpl; lia) Hthis) as (s2' & Hrun).
    pose proof (prelude_ledger _ _ _ _ _ _ _ Hpre Hl) as Hpre'.
    rewrite (purchase_run _ _ env' p a idx ipfs u price s t Hpre' Hfunds'), Hrun.
    simpl msg_value. rewrite requiredFee_hundredth.
    destruct (Z.leb_spec (P / 100) (V - P)) as [_|Hlt]; [done | lia].
Qed.

(** ** The shape of a tiling that was accepted *)

(** What every iteration of a loop that returned has in common. *)
Lemma for_loop_all {A} (Q : nat -> Prop) n i (body : nat -> A -> M A) acc s acc' s' :
  (forall j a t a' t', (i <= j < i + n)%nat -> body j a t = Ok a' t' -> Q j) ->
  for_loop n i body acc s = Ok acc' s' ->
  forall j, (i <= j < i + n)%nat -> Q j.
Proof.
  intros Hb H.
  refine (for_loop_inv (fun j' _ _ => forall j, (i <= j < j')%nat -> Q j)
            n i body acc s acc' s' _ _ H).
  - intros j Hj. lia.
  - intros j a t a' t' Hj Hinv Hstep k Hk.
    destruct (decide (k = j)) as [->|Hne].
    + by apply (Hb j a t a' t').
    + apply Hinv. lia.
Qed.

Lemma checkDisjoint_ok rects s s' i j ri rj :
  checkDisjoint doRectanglesOverlap rects s = Ok tt s' ->
  (i < j)%nat -> rects !! i = Some ri -> rects !! j = Some rj ->
  doRectanglesOverlap ri rj = Some false.
Proof.
  unfold checkDisjoint. intros H Hij Hi Hj.
  pose proof (lookup_lt_Some _ _ _ Hi) as Hli.
  refine (for_loop_all
    (fun i => forall j ri rj, (i < j)%nat -> rects !! i = Some ri -> rects !! j = Some rj ->
       doRectanglesOverlap ri rj = Some false) _ _ _ _ _ _ _ _ H i _ j ri rj Hij Hi Hj);
    [|lia].
  clear. intros i [] t [] t' Hi Hin j ri rj Hij Hri Hrj.
  pose proof (lookup_lt_Some _ _ _ Hrj) as Hlj.
  refine (for_loop_all
    (fun j => forall ri rj, rects !! i = Some ri -> rects !! j = Some rj ->
       doRectanglesOverlap ri rj = Some false) _ _ _ _ _ _ _ _ Hin j _ ri rj Hri Hrj);
    [|lia].
  clear. intros j [] t [] t' _ Hb ri rj Hri Hrj.
  apply bind_ok in Hb. destruct Hb as (ri' & ? & [Hri' ->]%index_ok & Hb).
  apply bind_ok in Hb. destruct Hb as (rj' & ? & [Hrj' ->]%index_ok & Hb).
  apply bind_ok in Hb. destruct Hb as (o & ? & Ho & Hb).
  apply require_ok in Hb. destruct Hb as [Hn _].
  rewrite Hri in Hri'. rewrite Hrj in Hrj'. simplify_eq.
  destruct (doRectanglesOverlap ri' rj') as [[|]|]; simpl in *; try done.
  all: apply ret_ok in Ho; destruct Ho as [-> _]; done.
Qed.

Lemma areas_snoc rects r : areas (rects ++ [r]) = areas rects + area r.
Proof. induction rects as [|q rects IH]; simpl; [lia|]. rewrite IH. lia. Qed.

(** The first loop of [validatePurchases]: the total it returns is the
    sum of the areas, and every piece has passed the containment
    test. *)
Lemma collect_loop_total t (a : list Z) n s total rects s' :
  Forall is_uint256 a ->
  for_loop n 0 (collectStep t a) (0, replicate n (Geometry.mkRect 0 0 0 0)) s
    = Ok (total, rects) s' ->
  total = areas (map (pieceAt a) (seq 0 n)) /\
  Forall (fun piece => within piece t = true) (map (pieceAt a) (seq 0 n)).
Proof.
  intros Ha H.
  apply (for_loop_inv
    (fun j acc _ =>
       is_uint256 acc.1 /\ acc.1 = areas (map (pieceAt a) (seq 0 j)) /\
       Forall (fun piece => within piece t = true) (map (pieceAt a) (seq 0 j)))) in H.
  - simpl in H. tauto.
  - simpl. split; [unfold is_uint256, UINT256; lia|]. split; [done | constructor].
  - intros j [tot rs] st [tot' rs'] st' Hj (Htot & Hsum & Hall) Hstep. cbn [fst snd] in *.
    unfold collectStep in Hstep. cbv zeta in Hstep. simpl fst in Hstep. simpl snd in Hstep.
    apply bind_ok in Hstep. destruct Hstep as (x & ? & [Hx ->]%index_ok & Hstep).
    apply bind_ok in Hstep. destruct Hstep as (y & ? & [Hy ->]%index_ok & Hstep).
    apply bind_ok in Hstep. destruct Hstep as (w & ? & [Hw ->]%index_ok & Hstep).
    apply bind_ok in Hstep. destruct Hstep as (h & ? & [Hh ->]%index_ok & Hstep).
    cbn [Geometry.x Geometry.y Geometry.w Geometry.h] in Hstep.
    apply bind_ok in Hstep. destruct Hstep as (ar & ? & Hmul & Hstep).
    pose proof (Forall_lookup_1 _ _ _ _ Ha Hw) as Hwr.
    apply mul_ok in Hmul; [|apply Hwr]. destruct Hmul as (-> & Har & ->).
    apply bind_ok in Hstep. destruct Hstep as (tot1 & ? & Hadd & Hstep).
    unfold SafeMath.add in Hadd. cbv zeta in Hadd.
    apply bind_ok in Hadd. destruct Hadd as (? & ? & [Hle ->]%require_ok & [-> ->]%ret_ok).
    apply Z.leb_le in Hle. pose proof (add256_checked _ _ Htot Har Hle) as Hexact.
    rewrite Hexact in Hstep.
    apply bind_ok in Hstep. destruct Hstep as (? & ? & [H1 ->]%require_ok & Hstep).
    apply bind_ok in Hstep. destruct Hstep as (? & ? & [H2 ->]%require_ok & Hstep).
    apply bind_ok in Hstep. destruct Hstep as (? & ? & [H3 ->]%require_ok & Hstep).
    apply bind_ok in Hstep. destruct Hstep as (? & ? & [H4 ->]%require_ok & Hstep).
    apply ret_ok in Hstep. destruct Hstep as [[= -> ->] _].
    rewrite seq_S, map_app. simpl map. rewrite (pieceAt_lookup a j x y w h) by done.
    split; [|split].
    + pose proof (add256_range tot (w * h)) as Hr. by rewrite Hexact in Hr.
    + rewrite areas_snoc, <- Hsum. reflexivity.
    + apply Forall_app. split; [done|]. constructor; [|constructor].
      unfold within. cbn [Geometry.x Geometry.y Geometry.w Geometry.h].
      by rewrite H1, H2, H3, H4.
Qed.

(** X13.  The tiling of a purchase that succeeds.  The array of the
    pieces has four entries for every entry of the array of record ids,
    and there is at least one piece; the areas of the pieces add up,
    over the integers, to the area of the rectangle to purchase; every
    piece has passed the containment test against that rectangle; and
    the library finds no two pieces that overlap. *)
Theorem accepted_tiling env p a idx ipfs u price s s' :
  Forall is_uint24 p -> Forall is_uint256 a ->
  execute_ env (Purchase p a idx ipfs u price) s = (s', Success) ->
  exists t, p = [Geometry.x t; Geometry.y t; Geometry.w t; Geometry.h t] /\
    length a = (4 * length idx)%nat /\ (0 < length idx)%nat /\
    areas (pieces a) = area t /\
    Forall (fun piece => within piece t = true) (pieces a) /\
    forall i j ri rj, (i < j)%nat ->
      pieces a !! i = Some ri -> pieces a !! j = Some rj ->
      doRectanglesOverlap ri rj = Some false.
Proof.
  intros Hp Ha H. destruct (purchase_checked _ _ _ _ _ _ _ _ _ H) as (t & Hpre & _).
  destruct Hpre as (-> & Ht & _ & Hpos & Hmod & Hlen & Hloop & Hdis).
  exists t. split; [done|].
  split; [pose proof (Nat.div_mod_eq (length a) 4); lia|]. split; [done|].
  assert (Hty : uint24_rect t).
  { apply Forall_cons in Hp. destruct Hp as [Hx Hp].
    apply Forall_cons in Hp. destruct Hp as [Hy Hp].
    apply Forall_cons in Hp. destruct Hp as [Hw Hp].
    apply Forall_cons in Hp. destruct Hp as [Hh _]. unfold uint24_rect. auto. }
  rewrite checkTarget_spec in Ht by done. case_decide as Hadm; [|discriminate].
  destruct (collect_loop_total _ _ _ _ _ _ _ Ha Hloop) as [Hsum Hin].
  rewrite <- Hlen in Hsum, Hin. fold (pieces a) in Hsum, Hin.
  split; [|split; [done|]].
  - rewrite <- Hsum. apply mul256_exact.
    destruct Hadm as [(Hw & Hh & _) Har]. unfold area, MAXIMUM_PURCHASE_AREA in Har.
    unfold UINT256. nia.
  - intros i j ri rj. by apply checkDisjoint_ok with (s := entry env s) (s' := entry env s).
Qed.

(** ** Cancelling a sale *)

(** X16.  A price of zero takes a record off the market: once its owner
    has set the price of record [z] to zero with [updateAuction], every
    purchase that names record [z] for one of its pieces fails. *)
Theorem zero_price_cancels_sale env z s s1 env2 p a idx ipfs u price :
  execute_ env (UpdateAuction z 0) s = (s1, Success) ->
  z ∈ idx ->
  (execute_ env2 (Purchase p a idx ipfs u price) s1).2 <> Success.
Proof.
  intros H Hz. apply update_inv in H. destruct H as (zone & _ & _ & _ & _ & Hs1).
  assert (Hprice : priceOf s1 z = 0).
  { subst s1. erewrite priceOf_insert by reflexivity. by rewrite decide_True. }
  destruct (execute_ env2 (Purchase p a idx ipfs u price) s1) as [s2 [|e]] eqn:H2; [|done].
  exfalso. destruct (purchase_checked _ _ _ _ _ _ _ _ _ H2) as (t & _ & Hchk).
  apply list_elem_of_lookup in Hz. destruct Hz as [i Hi].
  destruct (Hchk i z Hi) as (? & ? & ? & _ & _ & _ & _ & _ & _ & Hpos). lia.
Qed.

(** ** The records of the reachable states *)

(** X17.  In every reachable state the first record is the whole grid,
    as the constructor made it, and every other record has an area
    below [MAXIMUM_PURCHASE_AREA]. *)
Theorem records_of_reachable s :
  reachable_ s ->
  (exists admin, getRecord s 0 = Some (Zone.mk 0 0 GRID_WIDTH GRID_HEIGHT admin)) /\
  (forall k zone, 0 < k -> getRecord s k = Some zone ->
     Zone.w zone * Zone.h zone < MAXIMUM_PURCHASE_AREA).
Proof.
  induction 1 as [env bal|env tx s Hr [[admin IH0] IH] Hwt].
  - split; [by eexists|]. intros k zone Hk Hz. unfold getRecord in Hz. simpl in Hz.
    destruct (Z.to_nat k) as [|n] eqn:Hn; [lia | done].
  - destruct (execute_ env tx s) as [s' [|e]] eqn:He; simpl.
    + destruct tx as [p a idx ipfs u price|z price|to].
      * destruct (purchase_checked _ _ _ _ _ _ _ _ _ He) as (t & Hpre & _).
        apply purchase_ledger in He.
        destruct He as (x & y & w & h & -> & _ & Ho & _).
        destruct t as [tx ty tw th]. destruct Hpre as ([= -> -> -> ->] & Ht & _).
        simpl in Hwt.
        apply Forall_cons in Hwt. destruct Hwt as [Hx Hwt].
        apply Forall_cons in Hwt. destruct Hwt as [Hy Hwt].
        apply Forall_cons in Hwt. destruct Hwt as [Hw Hwt].
        apply Forall_cons in Hwt. destruct Hwt as [Hh _].
        rewrite checkTarget_spec in Ht by (unfold uint24_rect; auto).
        case_decide as Hadm; [|discriminate]. destruct Hadm as [_ Har].
        unfold getRecord in *. rewrite Ho. split.
        -- exists admin. by apply lookup_app_l_Some.
        -- intros k zone Hk Hz. apply lookup_app_Some in Hz.
           destruct Hz as [Hz|[_ Hz]]; [by apply (IH k)|].
           apply list_lookup_singleton_Some in Hz. destruct Hz as [_ <-]. exact Har.
      * apply update_inv in He. destruct He as (zone & _ & _ & _ & _ & ->).
        split; [by exists admin | exact IH].
      * apply withdraw_inv in He. destruct He as (_ & _ & _ & _ & ->).
        split; [by exists admin | exact IH].
    + apply execute_failed in He. subst. split; [by exists admin | exact IH].
Qed.

(** ** Sellers that refuse ether *)

Lemma distribute_loop_receivers env t rects idx n i acc s acc' s' :
  (i + n = length idx)%nat ->
  for_loop n i (distributeStep_ env t rects idx) acc s = Ok acc' s' ->
  forall j id, (i <= j < i + n)%nat -> idx !! j = Some id ->
    can_receive env (sellerOf (ownership s) id) = true.
Proof.
  revert i acc s. induction n as [|n IH]; intros i acc s Hn H j id Hj Hid; [lia|].
  simpl in H. apply bind_ok in H. destruct H as (acc1 & s1 & Hstep & H).
  pose proof (keeps_ok _ _ _ _ (keeps_distributeStep _ _ _ _ _ _ _ _) Hstep) as (Ho & _).
  assert (Hrest : forall j' id', (S i <= j' < S i + n)%nat -> idx !! j' = Some id' ->
            can_receive env (sellerOf (ownership s) id') = true).
  { intros j' id' Hj' Hid'. rewrite <- Ho. apply (IH (S i) acc1 s1 ltac:(lia) H j' id' Hj' Hid'). }
  destruct (decide (j = i)) as [->|Hne]; [|apply (Hrest j id); [lia | done]].
  apply distributeStep_ok in Hstep.
  destruct Hstep as (id0 & zone & overlap & piece & price & Hid0 & Hz & _ & _ & _ & _ & _ & _
                     & _ & _ & _ & Hpay).
  rewrite Hid in Hid0. injection Hid0 as <-.
  destruct (pays_out idx i id) eqn:Hp.
  - destruct Hpay as (_ & _ & Hcan & _). unfold sellerOf. by rewrite Hz.
  - unfold pays_out in Hp. apply orb_false_iff in Hp. destruct Hp as [Hlast Hnext].
    apply Nat.eqb_neq in Hlast. apply negb_false_iff, bool_decide_eq_true in Hnext.
    apply (Hrest (i + 1)%nat id); [lia | done].
Qed.

(** X18.  Every seller must accept its payment: in a purchase that
    succeeds, the owner of every record named for a piece can receive
    ether.  A single record whose owner refuses ether makes every
    purchase fail that takes a piece from it. *)
Theorem sellers_accept_payment env p a idx ipfs u price s s' id zone :
  execute_ env (Purchase p a idx ipfs u price) s = (s', Success) ->
  id ∈ idx -> getRecord s id = Some zone ->
  can_receive env (Zone.owner zone) = true.
Proof.
  simpl. intros H Hin Hz. apply call_inv in H. destruct H as (_ & _ & H).
  apply purchase_ok in H. destruct H as (P & s1 & x & y & w & h & -> & Hv & ->).
  destruct (validate_inv _ _ _ _ _ _ _ _ _ Hv) as (t & Hpre).
  rewrite (validate_run _ _ _ _ _ _ _ _ Hpre) in Hv.
  unfold settlement, distributePurchaseFunds in Hv.
  apply bind_ok in Hv. destruct Hv as (rem & s2 & Hd & _).
  apply bind_ok in Hd. destruct Hd as (acc & s3 & Hloop & _).
  apply list_elem_of_lookup in Hin. destruct Hin as [i Hi].
  pose proof (lookup_lt_Some _ _ _ Hi) as Hlt.
  pose proof (distribute_loop_receivers env t (pieces a) idx (length idx) 0 _ _ _ _
                (Nat.add_0_l _) Hloop i id ltac:(lia) Hi) as Hcan.
  change (ownership (entry env s)) with (ownership s) in Hcan.
  unfold sellerOf, getRecord in *. by rewrite Hz in Hcan.
Qed.

End Further.

(** * A purchase that passes the checks succeeds *)

(** ** Running a loop under an invariant *)

Lemma for_loop_run {A} (I : nat -> A -> State -> Prop) n i
    (body : nat -> A -> M A) acc s :
  I i acc s ->
  (forall j a t, (i <= j < i + n)%nat -> I j a t ->
     exists a' t', body j a t = Ok a' t' /\ I (S j) a' t') ->
  exists acc' s', for_loop n i body acc s = Ok acc' s' /\ I (i + n)%nat acc' s'.
Proof.
  revert i acc s. induction n as [|n IH]; intros i acc s HI Hstep; simpl.
  - exists acc, s. by rewrite Nat.add_0_r.
  - destruct (Hstep i acc s ltac:(lia) HI) as (a' & t' & Hb & HI').
    destruct (IH (S i) a' t' HI') as (acc' & s' & Hrun & Hend).
    { intros j a t Hj. apply Hstep. lia. }
    exists acc', s'. unfold bind. rewrite Hb.
    split; [done|]. by replace (i + S n)%nat with (S i + n)%nat by lia.
Qed.

Lemma mul_run a b s :
  0 <= a -> 0 <= b -> a * b < UINT256 -> SafeMath.mul a b s = Ok (a * b) s.
Proof.
  intros Ha Hb Hlt. unfold SafeMath.mul.
  destruct (Z.eqb_spec a 0) as [->|Hne]; [done|].
  rewrite mul256_exact by lia.
  unfold bind. rewrite (Z.mul_comm a b), Z.div_mul by done.
  by rewrite Z.eqb_refl.
Qed.

Lemma add_run a b s :
  0 <= a -> 0 <= b -> a + b < UINT256 -> SafeMath.add a b s = Ok (a + b) s.
Proof.
  intros Ha Hb Hlt. unfold SafeMath.add. cbv zeta.
  rewrite add256_exact by lia. unfold bind.
  destruct (Z.leb_spec a (a + b)); [done | lia].
Qed.

Lemma getPrice_run piece id s :
  0 < priceOf s id -> 0 <= Geometry.w piece -> 0 <= Geometry.h piece ->
  sectionPrice s (piece, id) < UINT256 ->
  getPriceOfAuctionedZone piece id s = Ok (sectionPrice s (piece, id)) s.
Proof.
  unfold sectionPrice. simpl. intros Hp Hw Hh Hlt.
  unfold getPriceOfAuctionedZone. unfold bind at 1. unfold gets at 1.
  destruct (Z.ltb_spec 0 (priceOf s id)) as [_|]; [|lia].
  unfold bind at 1. rewrite require_true.
  unfold bind at 1. rewrite mul_run by nia.
  rewrite mul_run by nia. done.
Qed.

(** ** The first loop of the validation *)

Lemma areas_app l1 l2 : areas (l1 ++ l2) = areas l1 + areas l2.
Proof. induction l1 as [|r l1 IH]; simpl; [lia|]. rewrite IH. lia. Qed.

Lemma areas_nonneg l :
  Forall (fun r => 0 <= Geometry.w r /\ 0 <= Geometry.h r) l -> 0 <= areas l.
Proof.
  induction 1 as [|r l [Hw Hh] _ IH]; simpl; [lia|]. unfold area. nia.
Qed.

Lemma pieceAt_typed a i :
  Forall is_uint256 a -> (i * 4 + 3 < length a)%nat ->
  exists x y w h,
    a !! (i * 4)%nat = Some x /\ a !! (i * 4 + 1)%nat = Some y /\
    a !! (i * 4 + 2)%nat = Some w /\ a !! (i * 4 + 3)%nat = Some h /\
    pieceAt a i = Geometry.mkRect x y w h /\
    is_uint256 x /\ is_uint256 y /\ is_uint256 w /\ is_uint256 h.
Proof.
  intros Ha Hi.
  destruct (lookup_lt_is_Some_2 a (i * 4)) as [x Hx]; [lia|].
  destruct (lookup_lt_is_Some_2 a (i * 4 + 1)) as [y Hy]; [lia|].
  destruct (lookup_lt_is_Some_2 a (i * 4 + 2)) as [w Hw]; [lia|].
  destruct (lookup_lt_is_Some_2 a (i * 4 + 3)) as [h Hh]; [lia|].
  exists x, y, w, h. do 4 (split; [done|]).
  split; [by apply pieceAt_lookup|].
  pose proof (Forall_lookup_1 _ _ _ _ Ha Hx). pose proof (Forall_lookup_1 _ _ _ _ Ha Hy).
  pose proof (Forall_lookup_1 _ _ _ _ Ha Hw). pose proof (Forall_lookup_1 _ _ _ _ Ha Hh).
  done.
Qed.

Lemma pieces_typed a :
  Forall is_uint256 a ->
  Forall (fun r => 0 <= Geometry.w r /\ 0 <= Geometry.h r) (pieces a).
Proof.
  intros Ha. unfold pieces. apply Forall_map, Forall_forall. intros i Hi.
  apply elem_of_seq in Hi.
  destruct (pieceAt_typed a i Ha) as (x & y & w & h & _ & _ & _ & _ & -> & _ & _ & Hw & Hh).
  { pose proof (Nat.div_mod_eq (length a) 4). lia. }
  simpl. unfold is_uint256 in *. lia.
Qed.

Lemma collect_loop_run t a n s :
  Forall is_uint256 a -> length a = (4 * n)%nat ->
  Forall (fun piece => within piece t = true) (pieces a) ->
  areas (pieces a) < UINT256 ->
  for_loop n 0 (collectStep t a) (0, replicate n (Geometry.mkRect 0 0 0 0)) s
  = Ok (areas (pieces a), pieces a) s.
Proof.
  intros Ha Hlen Hin Hlt.
  assert (Hn : (length a / 4 = n)%nat).
  { rewrite Hlen, Nat.mul_comm. by apply Nat.div_mul. }
  assert (Hpieces : pieces a = map (pieceAt a) (seq 0 n)) by (unfold pieces; by rewrite Hn).
  pose proof (pieces_typed a Ha) as Hty. rewrite Hpieces in *.
  destruct (for_loop_run
    (fun j acc st => st = s /\ acc.1 = areas (map (pieceAt a) (seq 0 j)))
    n 0 (collectStep t a) (0, replicate n (Geometry.mkRect 0 0 0 0)) s)
    as ([total rects] & s' & Hrun & -> & Htot).
  - done.
  - intros j [tot rs] st Hj [-> Hsum]. cbn [fst snd] in *.
    destruct (pieceAt_typed a j Ha ltac:(lia))
      as (x & y & w & h & Hx & Hy & Hw & Hh & Hp & _ & _ & Hwr & Hhr).
    assert (Hsplit : seq 0 n = seq 0 j ++ j :: seq (S j) (n - S j)).
    { replace n with (j + S (n - S j))%nat at 1 by lia. by rewrite seq_app. }
    rewrite Hsplit, map_app in Hlt, Hin, Hty. simpl map in Hlt, Hin, Hty.
    rewrite Hp in Hlt, Hin, Hty.
    apply Forall_app in Hin. destruct Hin as [_ Hin].
    apply Forall_cons in Hin. destruct Hin as [Hwithin _].
    apply Forall_app in Hty. destruct Hty as [Hty1 Hty].
    apply Forall_cons in Hty. destruct Hty as [_ Hty2].
    pose proof (areas_nonneg _ Hty1) as H1. pose proof (areas_nonneg _ Hty2) as H2.
    rewrite areas_app in Hlt. simpl in Hlt. unfold area in Hlt. simpl in Hlt.
    unfold is_uint256 in Hwr, Hhr.
    assert (0 <= w * h) by nia.
    unfold within in Hwithin. cbn [Geometry.x Geometry.y Geometry.w Geometry.h] in Hwithin.
    apply andb_true_iff in Hwithin. destruct Hwithin as [Hwithin H4].
    apply andb_true_iff in Hwithin. destruct Hwithin as [Hwithin H3].
    apply andb_true_iff in Hwithin. destruct Hwithin as [H1' H2'].
    exists (tot + w * h, <[j := Geometry.mkRect x y w h]> rs), s.
    split.
    + unfold collectStep. cbv zeta. cbn [fst snd].
      unfold bind at 1. rewrite (index_lookup _ _ _ _ Hx).
      unfold bind at 1. rewrite (index_lookup _ _ _ _ Hy).
      unfold bind at 1. rewrite (index_lookup _ _ _ _ Hw).
      unfold bind at 1. rewrite (index_lookup _ _ _ _ Hh).
      cbn [Geometry.x Geometry.y Geometry.w Geometry.h].
      unfold bind at 1. rewrite mul_run by lia.
      unfold bind at 1. rewrite add_run by lia.
      unfold bind at 1. rewrite H1', require_true.
      unfold bind at 1. rewrite H2', require_true.
      unfold bind at 1. rewrite H3, require_true.
      unfold bind at 1. rewrite H4, require_true.
      reflexivity.
    + split; [done|]. cbn [fst]. rewrite seq_S, map_app, areas_app. simpl.
      rewrite Hp. unfold area. simpl. lia.
  - destruct (collect_loop _ _ _ _ _ _ _ Hrun) as [-> _].
    simpl in Htot. by rewrite Hrun, Htot.
Qed.

(** ** The second loop of the validation *)

Section Accepting.

Variable doRectanglesOverlap : Rect -> Rect -> option bool.
Variable computeRectOverlap : Rect -> Rect -> option Rect.

#[local] Abbreviation distributeStep_ :=
  (distributeStep doRectanglesOverlap computeRectOverlap).
#[local] Abbreviation settlement_ :=
  (settlement doRectanglesOverlap computeRectOverlap).
#[local] Abbreviation execute_ :=
  (execute doRectanglesOverlap computeRectOverlap).
#[local] Abbreviation piece_checked_ :=
  (piece_checked doRectanglesOverlap computeRectOverlap).

Lemma checkDisjoint_run rects s :
  (forall i j ri rj, (i < j)%nat -> rects !! i = Some ri -> rects !! j = Some rj ->
     doRectanglesOverlap ri rj = Some false) ->
  checkDisjoint doRectanglesOverlap rects s = Ok tt s.
Proof.
  intros Hdis. unfold checkDisjoint.
  destruct (for_loop_run (fun _ (_ : unit) st => st = s) (length rects) 0
    (fun i _ =>
       for_loop (length rects - (i + 1)) (i + 1) (fun j _ =>
         ri <- index rects i ;;
         rj <- index rects j ;;
         o <- geometry (doRectanglesOverlap ri rj) ;;
         require (negb o) OverlappingPieces) tt) tt s)
    as ([] & s' & Hrun & ->); [done| |exact Hrun].
  intros i [] st Hi ->.
  destruct (for_loop_run (fun _ (_ : unit) st => st = s) (length rects - (i + 1)) (i + 1)
    (fun j _ =>
       ri <- index rects i ;;
       rj <- index rects j ;;
       o <- geometry (doRectanglesOverlap ri rj) ;;
       require (negb o) OverlappingPieces) tt s)
    as ([] & s' & Hrun & ->); [done| |by exists tt, s].
  intros j [] st Hj ->.
  destruct (lookup_lt_is_Some_2 rects i) as [ri Hri]; [lia|].
  destruct (lookup_lt_is_Some_2 rects j) as [rj Hrj]; [lia|].
  exists tt, s. split; [|done].
  unfold bind at 1. rewrite (index_lookup _ _ _ _ Hri).
  unfold bind at 1. rewrite (index_lookup _ _ _ _ Hrj).
  unfold bind at 1. rewrite (Hdis i j ri rj ltac:(lia) Hri Hrj). reflexivity.
Qed.

(** ** The payout loop *)

Lemma totalPrice_app s l1 l2 :
  totalPrice s (l1 ++ l2) = totalPrice s l1 + totalPrice s l2.
Proof. induction l1 as [|q l1 IH]; simpl; [lia|]. rewrite IH. lia. Qed.

Lemma totalPrice_nonneg s l :
  Forall (fun q => 0 <= sectionPrice s q) l -> 0 <= totalPrice s l.
Proof. induction 1 as [|q l Hq _ IH]; simpl; lia. Qed.

Lemma distribute_loop_run env t rects idx s :
  length rects = length idx ->
  Forall (fun r => 0 <= Geometry.w r /\ 0 <= Geometry.h r) rects ->
  (forall i id, idx !! i = Some id -> piece_checked_ t rects s i id) ->
  (forall id zone, id ∈ idx -> getRecord s id = Some zone ->
     can_receive env (Zone.owner zone) = true) ->
  totalPrice s (zip rects idx) <= msg_value env -> msg_value env < UINT256 ->
  msg_value env <= balanceOf s (this env) ->
  exists owed s',
    for_loop (length idx) 0 (distributeStep_ env t rects idx) (msg_value env, 0) s
    = Ok (msg_value env - totalPrice s (zip rects idx), owed) s'.
Proof.
  intros Hlen Hty Hchk Hcan HP HV Hbal.
  set (V := msg_value env) in *. set (tl := zip rects idx) in *.
  assert (Hpos : Forall (fun q => 0 <= sectionPrice s q) tl).
  { apply Forall_lookup. intros i [piece id] Hq. unfold tl, zip in Hq.
    apply lookup_zip_with_Some in Hq. destruct Hq as (r & id' & [= <- <-] & Hr & Hid).
    destruct (Hchk i id Hid) as (_ & _ & _ & _ & _ & _ & _ & _ & _ & Hprice).
    destruct (Forall_lookup_1 _ _ _ _ Hty Hr) as [Hw Hh].
    unfold sectionPrice. simpl. nia. }
  destruct (for_loop_run
    (fun j (acc : Z * Z) st =>
       ledger_eq s st /\ acc.1 = V - totalPrice s (take j tl) /\
       0 <= acc.2 <= totalPrice s (take j tl) /\
       V - totalPrice s (take j tl) + acc.2 <= balanceOf st (this env))
    (length idx) 0 (distributeStep_ env t rects idx) (V, 0) s)
    as ([rem owed] & s' & Hrun & _ & Hrem & _).
  - simpl. split; [apply ledger_eq_refl|]. lia.
  - intros j [rem owed] st Hj (Hl & Hrem & Howed & Hb). cbn [fst snd] in *.
    destruct (lookup_lt_is_Some_2 idx j) as [id Hid]; [lia|].
    destruct (Hchk j id Hid) as (zone & overlap & piece & Hz & Ho & Hc & Hp & Hw & Hh & Hprice).
    assert (Hq : tl !! j = Some (piece, id)).
    { unfold tl, zip. apply lookup_zip_with_Some. by exists piece, id. }
    assert (Hsplit : tl = take j tl ++ (piece, id) :: drop (S j) tl).
    { symmetry. by apply take_drop_middle. }
    pose proof Hpos as Hpos'. rewrite Hsplit in Hpos'.
    apply Forall_app in Hpos'. destruct Hpos' as [Hpos1 Hpos2].
    apply Forall_cons in Hpos2. destruct Hpos2 as [Hq0 Hpos2].
    pose proof (totalPrice_nonneg _ _ Hpos1) as Hn1.
    pose proof (totalPrice_nonneg _ _ Hpos2) as Hn2.
    assert (HP' : totalPrice s tl
                  = totalPrice s (take j tl) + sectionPrice s (piece, id)
                    + totalPrice s (drop (S j) tl)).
    { rewrite Hsplit at 1. rewrite totalPrice_app. simpl. lia. }
    assert (Htake : totalPrice s (take (S j) tl)
                    = totalPrice s (take j tl) + sectionPrice s (piece, id)).
    { rewrite (take_S_r _ _ _ Hq), totalPrice_app. simpl. lia. }
    set (price := sectionPrice s (piece, id)) in *.
    destruct (Forall_lookup_1 _ _ _ _ Hty Hp) as [Hwp Hhp].
    assert (Hexact : add256 owed price = owed + price) by (apply add256_exact; lia).
    destruct Hl as (Hlo & Hld & Hlt & Hlh & Hlw).
    assert (Hl : ledger_eq s st) by by repeat split.
    set (acc' := if pays_out idx j id then (rem - price, 0) else (rem - price, owed + price)).
    set (st' := if pays_out idx j id
                then set_log (log st ++ [PlotSectionSold id (owed + price)
                                          (msg_sender env) (Zone.owner zone)])
                       (move (this env) (Zone.owner zone) (owed + price) st)
                else st).
    exists acc', st'. split.
    + apply distributeStep_ok. exists id, zone, overlap, piece, price. cbn [fst snd].
      split; [done|]. split; [unfold getRecord in Hz; by rewrite Hlo|].
      do 4 (split; [done|]).
      split; [apply (checkHoles_ok _ computeRectOverlap);
              by apply (clear_of_holes_ledger _ piece id s st)|].
      split.
      { unfold price. replace (sectionPrice s (piece, id)) with (sectionPrice st (piece, id))
          by (unfold sectionPrice; by rewrite (priceOf_ledger s st)).
        apply getPrice_run; try done.
        - by rewrite <- (priceOf_ledger s st).
        - unfold sectionPrice. rewrite <- (priceOf_ledger s st) by done.
          fold (sectionPrice s (piece, id)). fold price. lia. }
      split; [lia|]. split; [lia|]. rewrite Hexact.
      unfold acc', st'. destruct (pays_out idx j id).
      * cbn [fst snd]. split; [lia|]. split; [done|]. split; [lia|].
        split; [|done]. apply (Hcan id zone); [|done]. by apply list_elem_of_lookup_2 with j.
      * cbn [fst snd]. split; [lia|]. done.
    + rewrite Htake. unfold acc', st'. destruct (pays_out idx j id); cbn [fst snd].
      * split; [by repeat split|]. split; [lia|]. split; [lia|].
        rewrite balanceOf_set_log, balanceOf_move.
        rewrite (decide_True (P := this env = this env)) by done. case_decide; lia.
      * split; [done|]. split; [lia|]. split; [lia|]. lia.
  - exists owed, s'. rewrite Hrun. simpl in Hrem. rewrite Hrem.
    rewrite take_ge; [done|]. unfold tl. rewrite length_zip. lia.
Qed.

(** ** The whole purchase *)

(** X19.  The checks are all there is: a purchase succeeds whenever
    - the rectangle to purchase is within the grid, not empty and of an
      area below [MAXIMUM_PURCHASE_AREA];
    - there are four entries of [purchasedAreas] for every entry of
      [areaIndices], and at least one;
    - the areas of the pieces add up to the area of the rectangle, every
      piece passes the containment test against it, and the library
      finds no two pieces that overlap;
    - every piece passes the checks of the payout loop against the
      record it is bought from, and the owner of that record accepts
      ether;
    - the sender can afford the payment, which is at least the total
      price plus its hundredth rounded down (and small enough for the
      fee to be computed without overflow). *)
Theorem purchase_accepted env x y w h a idx ipfs u price s :
  let t := Geometry.mkRect x y w h in
  let P := totalPrice s (tiling a idx) in
  uint24_rect t -> admissible t ->
  Forall is_uint256 a ->
  length a = (4 * length idx)%nat -> (0 < length idx)%nat ->
  areas (pieces a) = area t ->
  Forall (fun piece => within piece t = true) (pieces a) ->
  (forall i j ri rj, (i < j)%nat ->
     pieces a !! i = Some ri -> pieces a !! j = Some rj ->
     doRectanglesOverlap ri rj = Some false) ->
  (forall i id, idx !! i = Some id -> piece_checked_ t (pieces a) s i id) ->
  (forall id zone, id ∈ idx -> getRecord s id = Some zone ->
     can_receive env (Zone.owner zone) = true) ->
  0 <= balanceOf s (this env) ->
  msg_value env <= balanceOf s (msg_sender env) ->
  P + P / 100 <= msg_value env ->
  msg_value env * FEE_IN_THOUSANDS_OF_PERCENT < UINT256 ->
  (execute_ env (Purchase [x; y; w; h] a idx ipfs u price) s).2 = Success.
Proof.
  intros t P Hty Hadm Ha Hlen Hpos Hsum Hin Hdis Hchk Hcan Hbal Hfunds Hpay Hfee.
  assert (Hn : (length a / 4 = length idx)%nat).
  { rewrite Hlen, Nat.mul_comm. by apply Nat.div_mul. }
  assert (Harea : 0 <= area t < MAXIMUM_PURCHASE_AREA).
  { destruct Hadm as [(Hw & Hh & _) Har]. unfold area in *. simpl in *. nia. }
  assert (Hpre : prelude_ok doRectanglesOverlap [x; y; w; h] a idx t (entry env s)).
  { split; [done|].
    split; [rewrite checkTarget_spec by done; by rewrite decide_True|].
    split; [lia|]. split; [done|].
    split; [rewrite Hlen, Nat.mul_comm; by apply Nat.Div0.mod_mul|]. split; [done|].
    split.
    - rewrite (collect_loop_run t a (length idx) _ Ha Hlen Hin).
      + rewrite Hsum. f_equal. f_equal. symmetry. apply mul256_exact.
        unfold area, MAXIMUM_PURCHASE_AREA, UINT256 in *. simpl in *. lia.
      + rewrite Hsum. unfold MAXIMUM_PURCHASE_AREA, UINT256 in *. lia.
    - by apply checkDisjoint_run. }
  rewrite (purchase_run _ _ env [x; y; w; h] a idx ipfs u price s t Hpre Hfunds).
  pose proof (ledger_eq_entry env s) as Hl.
  assert (HPe : totalPrice (entry env s) (tiling a idx) = P)
    by (symmetry; by apply totalPrice_ledger).
  assert (HP0 : 0 <= P).
  { unfold P. apply totalPrice_nonneg, Forall_lookup. intros i [piece id] Hq.
    unfold tiling, zip in Hq. apply lookup_zip_with_Some in Hq.
    destruct Hq as (r & id' & [= <- <-] & Hr & Hid).
    destruct (Hchk i id Hid) as (_ & _ & _ & _ & _ & _ & _ & _ & _ & Hprice).
    destruct (Forall_lookup_1 _ _ _ _ (pieces_typed a Ha) Hr) as [Hw Hh].
    unfold sectionPrice. simpl. nia. }
  assert (HP100 : 0 <= P / 100) by (apply Z.div_pos; lia).
  assert (HV : msg_value env < UINT256)
    by (unfold FEE_IN_THOUSANDS_OF_PERCENT in Hfee; lia).
  destruct (distribute_loop_run env t (pieces a) idx (entry env s)) as (owed & s' & Hrun).
  - rewrite length_pieces. exact Hn.
  - by apply pieces_typed.
  - intros i id Hid. apply (piece_checked_ledger _ _ _ _ s (entry env s) _ _ Hl). by apply Hchk.
  - intros id zone. apply Hcan.
  - fold (tiling a idx). rewrite HPe. lia.
  - exact HV.
  - rewrite balanceOf_entry. rewrite (decide_True (P := this env = this env)) by done.
    case_decide as Hd; [rewrite Hd|]; lia.
  - fold (tiling a idx) in Hrun. rewrite HPe in Hrun.
    unfold settlement, distributePurchaseFunds.
    unfold bind at 1. unfold bind at 1. rewrite Hrun. unfold ret at 1. cbn [fst].
    unfold bind at 1. rewrite sub_run by lia.
    replace (msg_value env - (msg_value env - P)) with P by lia.
    unfold bind at 1. rewrite mul_run; [| lia | unfold FEE_IN_THOUSANDS_OF_PERCENT; lia |].
    + unfold bind at 1. unfold SafeMath.div, bind. simpl (require _ _ _). unfold ret.
      fold (requiredFee P). rewrite requiredFee_hundredth.
      destruct (Z.leb_spec (P / 100) (msg_value env - P)) as [_|]; [done | lia].
    + unfold FEE_IN_THOUSANDS_OF_PERCENT in *. nia.
Qed.

End Accepting.

(** * The price of a purchase *)

Lemma for_loop_app {A} n m i (body : nat -> A -> M A) acc s :
  for_loop (n + m) i body acc s =
  match for_loop n i body acc s with
  | Ok acc' s' => for_loop m (i + n) body acc' s'
  | Revert e s' => Revert e s'
  end.
Proof.
  revert i acc s. induction n as [|n IH]; intros i acc s; simpl.
  - by rewrite Nat.add_0_r.
  - unfold bind. destruct (body i acc s) as [acc1 s1|e s1]; [|done].
    rewrite IH. by replace (S i + n)%nat with (i + S n)%nat by lia.
Qed.

Section Pricing.

Variable doRectanglesOverlap : Rect -> Rect -> option bool.
Variable computeRectOverlap : Rect -> Rect -> option Rect.

#[local] Abbreviation distributeStep_ :=
  (distributeStep doRectanglesOverlap computeRectOverlap).
#[local] Abbreviation settlement_ :=
  (settlement doRectanglesOverlap computeRectOverlap).
#[local] Abbreviation validatePurchases_ :=
  (validatePurchases doRectanglesOverlap computeRectOverlap).
#[local] Abbreviation execute_ :=
  (execute doRectanglesOverlap computeRectOverlap).
#[local] Abbreviation piece_checked_ :=
  (piece_checked doRectanglesOverlap computeRectOverlap).
#[local] Abbreviation clear_of_holes_ := (clear_of_holes doRectanglesOverlap).

(** The validation gets to the payout loop when the rectangle to
    purchase and the shape of the tiling are right. *)
Lemma prelude_run x y w h a idx s :
  let t := Geometry.mkRect x y w h in
  uint24_rect t -> admissible t ->
  Forall is_uint256 a ->
  length a = (4 * length idx)%nat -> (0 < length idx)%nat ->
  areas (pieces a) = area t ->
  Forall (fun piece => within piece t = true) (pieces a) ->
  (forall i j ri rj, (i < j)%nat ->
     pieces a !! i = Some ri -> pieces a !! j = Some rj ->
     doRectanglesOverlap ri rj = Some false) ->
  prelude_ok doRectanglesOverlap [x; y; w; h] a idx t s.
Proof.
  intros t Hty Hadm Ha Hlen Hpos Hsum Hin Hdis.
  assert (Hn : (length a / 4 = length idx)%nat).
  { rewrite Hlen, Nat.mul_comm. by apply Nat.div_mul. }
  assert (Harea : 0 <= area t < MAXIMUM_PURCHASE_AREA).
  { destruct Hadm as [(Hw & Hh & _) Har]. unfold area in *. simpl in *. nia. }
  split; [done|].
  split; [rewrite checkTarget_spec by done; by rewrite decide_True|].
  split; [lia|]. split; [done|].
  split; [rewrite Hlen, Nat.mul_comm; by apply Nat.Div0.mod_mul|]. split; [done|].
  split.
  - rewrite (collect_loop_run t a (length idx) _ Ha Hlen Hin).
    + rewrite Hsum. f_equal. f_equal. symmetry. apply mul256_exact.
      unfold area, MAXIMUM_PURCHASE_AREA, UINT256 in *. simpl in *. lia.
    + rewrite Hsum. unfold MAXIMUM_PURCHASE_AREA, UINT256 in *. lia.
  - by apply checkDisjoint_run.
Qed.

(** The payout loop gets through the first [n] pieces when each of them
    passes its checks, its seller accepts ether, and the payment covers
    their prices. *)
Lemma distribute_prefix_run env t rects idx s n :
  (n <= length idx)%nat -> length rects = length idx ->
  Forall (fun r => 0 <= Geometry.w r /\ 0 <= Geometry.h r) rects ->
  (forall j id, (j < n)%nat -> idx !! j = Some id ->
     piece_checked_ t rects s j id /\
     forall zone, getRecord s id = Some zone -> can_receive env (Zone.owner zone) = true) ->
  totalPrice s (take n (zip rects idx)) <= msg_value env -> msg_value env < UINT256 ->
  msg_value env <= balanceOf s (this env) ->
  exists acc s',
    for_loop n 0 (distributeStep_ env t rects idx) (msg_value env, 0) s = Ok acc s' /\
    ledger_eq s s'.
Proof.
  intros Hn Hlen Hty Hchk HP HV Hbal.
  set (V := msg_value env) in *. set (tl := take n (zip rects idx)) in *.
  assert (Htl : forall j q, (j < n)%nat -> tl !! j = Some q <-> zip rects idx !! j = Some q).
  { intros j q Hj. unfold tl. by rewrite lookup_take_lt. }
  assert (Hpos : Forall (fun q => 0 <= sectionPrice s q) tl).
  { apply Forall_lookup. intros i [piece id] Hq.
    assert (Hi : (i < n)%nat).
    { apply lookup_lt_Some in Hq. unfold tl in Hq. rewrite length_take in Hq. lia. }
    apply Htl in Hq; [|done]. unfold zip in Hq.
    apply lookup_zip_with_Some in Hq. destruct Hq as (r & id' & [= <- <-] & Hr & Hid).
    destruct (Hchk i id Hi Hid) as [(_ & _ & _ & _ & _ & _ & _ & _ & _ & Hprice) _].
    destruct (Forall_lookup_1 _ _ _ _ Hty Hr) as [Hw Hh].
    unfold sectionPrice. simpl. nia. }
  destruct (for_loop_run
    (fun j (acc : Z * Z) st =>
       ledger_eq s st /\ acc.1 = V - totalPrice s (take j tl) /\
       0 <= acc.2 <= totalPrice s (take j tl) /\
       V - totalPrice s (take j tl) + acc.2 <= balanceOf st (this env))
    n 0 (distributeStep_ env t rects idx) (V, 0) s)
    as (acc & s' & Hrun & Hl & _).
  - simpl. split; [apply ledger_eq_refl|]. lia.
  - intros j [rem owed] st Hj (Hl & Hrem & Howed & Hb). cbn [fst snd] in *.
    destruct (lookup_lt_is_Some_2 idx j) as [id Hid]; [lia|].
    destruct (Hchk j id ltac:(lia) Hid)
      as [(zone & overlap & piece & Hz & Ho & Hc & Hp & Hw & Hh & Hprice) Hcan].
    assert (Hq : tl !! j = Some (piece, id)).
    { apply Htl; [lia|]. unfold zip. apply lookup_zip_with_Some. by exists piece, id. }
    assert (Hsplit : tl = take j tl ++ (piece, id) :: drop (S j) tl).
    { symmetry. by apply take_drop_middle. }
    pose proof Hpos as Hpos'. rewrite Hsplit in Hpos'.
    apply Forall_app in Hpos'. destruct Hpos' as [Hpos1 Hpos2].
    apply Forall_cons in Hpos2. destruct Hpos2 as [Hq0 Hpos2].
    pose proof (totalPrice_nonneg _ _ Hpos1) as Hn1.
    pose proof (totalPrice_nonneg _ _ Hpos2) as Hn2.
    assert (HP' : totalPrice s tl
                  = totalPrice s (take j tl) + sectionPrice s (piece, id)
                    + totalPrice s (drop (S j) tl)).
    { rewrite Hsplit at 1. rewrite totalPrice_app. simpl. lia. }
    assert (Htake : totalPrice s (take (S j) tl)
                    = totalPrice s (take j tl) + sectionPrice s (piece, id)).
    { rewrite (take_S_r _ _ _ Hq), totalPrice_app. simpl. lia. }
    set (price := sectionPrice s (piece, id)) in *.
    destruct (Forall_lookup_1 _ _ _ _ Hty Hp) as [Hwp Hhp].
    assert (Hexact : add256 owed price = owed + price) by (apply add256_exact; lia).
    destruct Hl as (Hlo & Hld & Hlt & Hlh & Hlw).
    assert (Hl : ledger_eq s st) by by repeat split.
    set (acc' := if pays_out idx j id then (rem - price, 0) else (rem - price, owed + price)).
    set (st' := if pays_out idx j id
                then set_log (log st ++ [PlotSectionSold id (owed + price)
                                          (msg_sender env) (Zone.owner zone)])
                       (move (this env) (Zone.owner zone) (owed + price) st)
                else st).
    exists acc', st'. split.
    + apply distributeStep_ok. exists id, zone, overlap, piece, price. cbn [fst snd].
      split; [done|]. split; [unfold getRecord in Hz; by rewrite Hlo|].
      do 4 (split; [done|]).
      split; [apply (checkHoles_ok _ computeRectOverlap);
              by apply (clear_of_holes_ledger _ piece id s st)|].
      split.
      { unfold price. replace (sectionPrice s (piece, id)) with (sectionPrice st (piece, id))
          by (unfold sectionPrice; by rewrite (priceOf_ledger s st)).
        apply getPrice_run; try done.
        - by rewrite <- (priceOf_ledger s st).
        - unfold sectionPrice. rewrite <- (priceOf_ledger s st) by done.
          fold (sectionPrice s (piece, id)). fold price. lia. }
      split; [lia|]. split; [lia|]. rewrite Hexact.
      unfold acc', st'. destruct (pays_out idx j id).
      * cbn [fst snd]. split; [lia|]. split; [done|]. split; [lia|].
        split; [|done]. by apply Hcan.
      * cbn [fst snd]. split; [lia|]. done.
    + rewrite Htake. unfold acc', st'. destruct (pays_out idx j id); cbn [fst snd].
      * split; [by repeat split|]. split; [lia|]. split; [lia|].
        rewrite balanceOf_set_log, balanceOf_move.
        rewrite (decide_True (P := this env = this env)) by done. case_decide; lia.
      * split; [done|]. split; [lia|]. split; [lia|]. lia.
  - by exists acc, s'.
Qed.

(** The purchase stops with [NotForSale] at the first piece whose
    record has price zero, when everything the validation checks before
    it prices that piece is right. *)
Lemma purchase_not_for_sale env x y w h a idx ipfs u price s i id zone overlap piece :
  let t := Geometry.mkRect x y w h in
  uint24_rect t -> admissible t ->
  Forall is_uint256 a ->
  length a = (4 * length idx)%nat ->
  areas (pieces a) = area t ->
  Forall (fun piece => within piece t = true) (pieces a) ->
  (forall i j ri rj, (i < j)%nat ->
     pieces a !! i = Some ri -> pieces a !! j = Some rj ->
     doRectanglesOverlap ri rj = Some false) ->
  (forall j idj, (j < i)%nat -> idx !! j = Some idj ->
     piece_checked_ t (pieces a) s j idj /\
     forall zj, getRecord s idj = Some zj -> can_receive env (Zone.owner zj) = true) ->
  idx !! i = Some id -> pieces a !! i = Some piece ->
  getRecord s id = Some zone ->
  doRectanglesOverlap t (zoneRect zone) = Some true ->
  computeRectOverlap t (zoneRect zone) = Some overlap ->
  within piece overlap = true ->
  clear_of_holes_ piece id s ->
  priceOf s id = 0 ->
  0 <= balanceOf s (this env) ->
  msg_value env <= balanceOf s (msg_sender env) ->
  totalPrice s (take i (tiling a idx)) <= msg_value env ->
  msg_value env < UINT256 ->
  execute_ env (Purchase [x; y; w; h] a idx ipfs u price) s = (s, Failed NotForSale).
Proof.
  intros t Hty Hadm Ha Hlen Hsum Hin Hdis Hchk Hid Hp Hz Ho Hc Hw Hh Hzero
    Hbal Hfunds HP HV.
  pose proof (lookup_lt_Some _ _ _ Hid) as Hi.
  pose proof (prelude_run x y w h a idx (entry env s) Hty Hadm Ha Hlen ltac:(lia)
                Hsum Hin Hdis) as Hpre.
  rewrite (purchase_run _ _ env [x; y; w; h] a idx ipfs u price s t Hpre Hfunds).
  pose proof (ledger_eq_entry env s) as Hl.
  assert (Hn : (length a / 4 = length idx)%nat).
  { rewrite Hlen, Nat.mul_comm. by apply Nat.div_mul. }
  destruct (distribute_prefix_run env t (pieces a) idx (entry env s) i)
    as (acc & st & Hrun & Hlst).
  - lia.
  - rewrite length_pieces. exact Hn.
  - by apply pieces_typed.
  - intros j idj Hj Hidj. destruct (Hchk j idj Hj Hidj) as [Hc1 Hc2]. split; [|exact Hc2].
    by apply (piece_checked_ledger _ _ _ _ s (entry env s) _ _ Hl).
  - fold (tiling a idx). by rewrite <- (totalPrice_ledger s (entry env s) _ Hl).
  - exact HV.
  - rewrite balanceOf_entry. rewrite (decide_True (P := this env = this env)) by done.
    case_decide as Hd; [rewrite Hd|]; lia.
  - assert (Hlall : ledger_eq s st) by exact (ledger_eq_trans _ _ _ Hl Hlst).
    assert (Hstep : distributeStep_ env t (pieces a) idx i acc st = Revert NotForSale st).
    { apply (distributeStep_not_for_sale doRectanglesOverlap computeRectOverlap
               env t (pieces a) idx i acc st id zone overlap piece); try done.
      - destruct Hlall as (-> & _). exact Hz.
      - apply (checkHoles_ok _ computeRectOverlap).
        by apply (clear_of_holes_ledger _ piece id s st).
      - by rewrite <- (priceOf_ledger s st). }
    unfold settlement, distributePurchaseFunds.
    replace (length idx) with (i + S (length idx - S i))%nat by lia.
    unfold bind at 1. unfold bind at 1. rewrite for_loop_app, Hrun.
    change (0 + i)%nat with i. simpl for_loop. unfold bind at 1. rewrite Hstep. reflexivity.
Qed.

(** C5.  The price of a purchase is the exact integer sum, over the
    pieces of the tiling, of width * height * price per pixel of the
    piece's record: this is what a validation returns in whatever state
    it runs, and what a purchase that succeeds has charged and reports
    in its [PlotPurchased] event.  A tiling with a piece whose record
    has price zero never validates and is never bought: pricing that
    piece stops with [NotForSale], so does the payout loop when it
    comes to a piece that passes the checks on its owner and on the
    holes, and so does the whole purchase, which fails with
    [NotForSale] and changes nothing, when everything the validation
    checks before it prices that piece is right (the rectangle, the
    shape of the tiling, the pieces before it and their payment, and
    the owner and the holes of the piece itself). *)
Theorem total_price_exact env p a idx ipfs u price s :
  Forall is_uint256 a ->
  (forall P s', validatePurchases_ env p a idx s = Ok P s' ->
     P = totalPrice s (tiling a idx)) /\
  (forall s', execute_ env (Purchase p a idx ipfs u price) s = (s', Success) ->
     (exists s1, validatePurchases_ env p a idx (entry env s)
                 = Ok (totalPrice s (tiling a idx)) s1) /\
     PlotPurchased (ownershipLength s) (totalPrice s (tiling a idx)) (msg_sender env)
       ∈ log s') /\
  (forall piece id, (piece, id) ∈ tiling a idx -> priceOf s id = 0 ->
     (exists e s', validatePurchases_ env p a idx s = Revert e s') /\
     getPriceOfAuctionedZone piece id s = Revert NotForSale s /\
     (execute_ env (Purchase p a idx ipfs u price) s).2 <> Success) /\
  (forall t i acc id zone overlap piece,
     idx !! i = Some id -> pieces a !! i = Some piece -> priceOf s id = 0 ->
     getRecord s id = Some zone ->
     doRectanglesOverlap t (zoneRect zone) = Some true ->
     computeRectOverlap t (zoneRect zone) = Some overlap ->
     within piece overlap = true ->
     checkHoles doRectanglesOverlap piece id s = Ok tt s ->
     distributeStep_ env t (pieces a) idx i acc s = Revert NotForSale s) /\
  (forall x y w h i id zone overlap piece,
     p = [x; y; w; h] ->
     uint24_rect (Geometry.mkRect x y w h) -> admissible (Geometry.mkRect x y w h) ->
     length a = (4 * length idx)%nat ->
     areas (pieces a) = area (Geometry.mkRect x y w h) ->
     Forall (fun piece => within piece (Geometry.mkRect x y w h) = true) (pieces a) ->
     (forall i j ri rj, (i < j)%nat ->
        pieces a !! i = Some ri -> pieces a !! j = Some rj ->
        doRectanglesOverlap ri rj = Some false) ->
     (forall j idj, (j < i)%nat -> idx !! j = Some idj ->
        piece_checked_ (Geometry.mkRect x y w h) (pieces a) s j idj /\
        forall zj, getRecord s idj = Some zj -> can_receive env (Zone.owner zj) = true) ->
     idx !! i = Some id -> pieces a !! i = Some piece ->
     getRecord s id = Some zone ->
     doRectanglesOverlap (Geometry.mkRect x y w h) (zoneRect zone) = Some true ->
     computeRectOverlap (Geometry.mkRect x y w h) (zoneRect zone) = Some overlap ->
     within piece overlap = true ->
     clear_of_holes_ piece id s ->
     priceOf s id = 0 ->
     0 <= balanceOf s (this env) ->
     msg_value env <= balanceOf s (msg_sender env) ->
     totalPrice s (take i (tiling a idx)) <= msg_value env ->
     msg_value env < UINT256 ->
     execute_ env (Purchase p a idx ipfs u price) s = (s, Failed NotForSale)).
Proof.
  intros Ha.
  assert (Hok : forall P s', validatePurchases_ env p a idx s = Ok P s' ->
            P = totalPrice s (tiling a idx) /\
            Forall (fun q => 0 < priceOf s q.2) (tiling a idx)).
  { intros P s' Hv. destruct (validate_inv _ _ _ _ _ _ _ _ _ Hv) as (t & Hpre).
    rewrite (validate_run _ _ _ _ _ _ _ _ Hpre) in Hv.
    pose proof Hpre as (_ & _ & _ & _ & _ & Hlen & _).
    destruct (settlement_ok _ _ _ _ _ _ _ _ _ Ha Hlen Hv) as (HP & _ & Hall & _).
    split; [done|]. eapply Forall_impl; [exact Hall|]. by intros q [? _]. }
  split; [|split; [|split; [|split]]].
  - intros P s' Hv. by destruct (Hok P s' Hv).
  - intros s' H.
    destruct (purchase_success _ _ _ _ _ _ _ _ _ _ _ Ha H) as (t & Hpre & Hs & -> & _).
    split.
    + eexists. rewrite (validate_run _ _ _ _ _ _ _ _ Hpre). exact Hs.
    + unfold record_purchase. simpl.
      destruct (settle_fields env (payouts s 0 (tiling a idx)) (entry env s)) as [(Ho & _) _].
      unfold ownershipLength. rewrite Ho. simpl.
      apply elem_of_app. right. apply list_elem_of_here.
  - intros piece id Hin Hzero. split; [|split].
    + destruct (validatePurchases_ env p a idx s) as [P s'|e s'] eqn:Hv; [|eauto].
      destruct (Hok P s' eq_refl) as [_ Hall].
      rewrite Forall_forall in Hall. specialize (Hall _ Hin). simpl in Hall. lia.
    + unfold getPriceOfAuctionedZone, bind, gets. rewrite Hzero. reflexivity.
    + destruct (execute_ env (Purchase p a idx ipfs u price) s) as [s' [|e]] eqn:H; [|done].
      exfalso.
      destruct (purchase_success _ _ _ _ _ _ _ _ _ _ _ Ha H) as (_ & _ & _ & _ & _ & _ & _ & Hall).
      rewrite Forall_forall in Hall. destruct (Hall _ Hin) as [Hpos _]. simpl in Hpos. lia.
  - intros t i acc id zone overlap piece Hid Hp Hzero Hz Ho Hov Hw Hh.
    by apply (distributeStep_not_for_sale doRectanglesOverlap computeRectOverlap
                env t (pieces a) idx i acc s id zone overlap piece).
  - intros x y w h i id zone overlap piece -> Hty Hadm Hlen Hsum Hin Hdis Hchk Hid Hp
      Hz Ho Hc Hw Hh Hzero Hbal Hfunds HP HV.
    by apply (purchase_not_for_sale env x y w h a idx ipfs u price s i id zone overlap piece).
Qed.

End Pricing.

(** * The call data of the client *)

Lemma pieces_cons x y w h a :
  pieces (x :: y :: w :: h :: a) = Geometry.mkRect x y w h :: pieces a.
Proof.
  unfold pieces.
  replace (length (x :: y :: w :: h :: a) / 4)%nat with (S (length a / 4)).
  - rewrite <- cons_seq, <- fmap_S_seq. cbn [map]. f_equal.
    rewrite <- list_fmap_compose. apply list_fmap_ext. intros _ i _.
    unfold compose, pieceAt. by replace (S i * 4)%nat with (4 + i * 4)%nat by lia.
  - cbn [length]. replace (S (S (S (S (length a))))) with (1 * 4 + length a)%nat by lia.
    by rewrite Nat.div_add_l.
Qed.

Section ClientArray.

Variable number : Type.
Variable BigNumber : Type.
Variable ofNumber : number -> option BigNumber.

#[local] Abbreviation build := (Client.buildArrayFromRectangles number BigNumber ofNumber).
#[local] Abbreviation pushNew_ := (Client.pushNew number BigNumber ofNumber).
#[local] Abbreviation rectOf_ := (rectOf number BigNumber ofNumber).
#[local] Abbreviation throws_ := (throws number BigNumber ofNumber).
#[local] Abbreviation fx := (Client.x number).
#[local] Abbreviation fy := (Client.y number).
#[local] Abbreviation fw := (Client.w number).
#[local] Abbreviation fh := (Client.h number).

(** The four numbers of a rectangle as the constructor returns them. *)
Lemma build_fold acc rects :
  foldl (fun result rect =>
           pushNew_ (pushNew_ (pushNew_ (pushNew_ result (fx rect)) (fy rect)) (fw rect)) (fh rect))
        acc rects
  = match acc, build rects with
    | Some pre, Some arr => Some (pre ++ arr)
    | _, _ => None
    end.
Proof.
  unfold Client.buildArrayFromRectangles. revert acc.
  induction rects as [|r rects IH]; intros acc; simpl.
  - destruct acc; [by rewrite app_nil_r | done].
  - rewrite IH. rewrite (IH (pushNew_ _ _)). unfold Client.pushNew.
    destruct acc as [pre|]; simpl;
      destruct (ofNumber (fx r)) as [bx|]; simpl; try done;
      destruct (ofNumber (fy r)) as [bY|]; simpl; try done;
      destruct (ofNumber (fw r)) as [bw|]; simpl; try done;
      destruct (ofNumber (fh r)) as [bh|]; simpl; try done;
      destruct (foldl _ (Some []) rects) as [arr|]; simpl; try done.
    by rewrite <- !app_assoc.
Qed.

Lemma build_cons r rects :
  build (r :: rects) =
  match ofNumber (fx r), ofNumber (fy r), ofNumber (fw r), ofNumber (fh r), build rects with
  | Some bx, Some bY, Some bw, Some bh, Some arr => Some (bx :: bY :: bw :: bh :: arr)
  | _, _, _, _, _ => None
  end.
Proof.
  unfold Client.buildArrayFromRectangles at 1. simpl. rewrite build_fold.
  unfold Client.pushNew. simpl.
  destruct (ofNumber (fx r)) as [bx|]; simpl; try done.
  destruct (ofNumber (fy r)) as [bY|]; simpl; try done.
  destruct (ofNumber (fw r)) as [bw|]; simpl; try done.
  destruct (ofNumber (fh r)) as [bh|]; simpl; done.
Qed.

Lemma build_throws rects : build rects = None <-> Exists throws_ rects.
Proof.
  induction rects as [|r rects IH].
  - split; [discriminate | by intros ?%Exists_nil].
  - rewrite build_cons, Exists_cons, <- IH. unfold throws.
    destruct (ofNumber (fx r)), (ofNumber (fy r)), (ofNumber (fw r)), (ofNumber (fh r)),
      (build rects); intuition congruence.
Qed.

Lemma build_decoded (toUint : BigNumber -> option Z) rects arr :
  build rects = Some arr ->
  length arr = (4 * length rects)%nat /\
  forall zs, mapM toUint arr = Some zs -> mapM (rectOf_ toUint) rects = Some (pieces zs).
Proof.
  revert arr. induction rects as [|r rects IH]; intros arr Hb.
  - injection Hb as <-. split; [done|]. intros zs Hz. apply mapM_Some in Hz.
    apply Forall2_nil_inv_l in Hz. by subst.
  - rewrite build_cons in Hb.
    destruct (ofNumber (fx r)) as [bx|] eqn:Hx; [|done].
    destruct (ofNumber (fy r)) as [bY|] eqn:Hy; [|done].
    destruct (ofNumber (fw r)) as [bw|] eqn:Hw; [|done].
    destruct (ofNumber (fh r)) as [bh|] eqn:Hh; [|done].
    destruct (build rects) as [rest|] eqn:Hrest; [|done].
    injection Hb as <-. destruct (IH rest eq_refl) as [IHl IHd]. split.
    + cbn [length]. rewrite IHl. lia.
    + intros zs Hz. apply mapM_Some in Hz.
      apply Forall2_cons_inv_l in Hz. destruct Hz as (zx & zs1 & Hzx & Hz & ->).
      apply Forall2_cons_inv_l in Hz. destruct Hz as (zy & zs2 & Hzy & Hz & ->).
      apply Forall2_cons_inv_l in Hz. destruct Hz as (zw & zs3 & Hzw & Hz & ->).
      apply Forall2_cons_inv_l in Hz. destruct Hz as (zh & zs4 & Hzh & Hz & ->).
      apply mapM_Some in Hz. rewrite pieces_cons.
      apply mapM_Some. constructor; [|by apply mapM_Some, IHd].
      unfold rectOf, uintOf. rewrite Hx, Hy, Hw, Hh. simpl.
      rewrite Hzx, Hzy, Hzw, Hzh. reflexivity.
Qed.

(** X14.  The client encodes rectangles as the contract decodes them.
    [buildArrayFromRectangles] throws exactly when the constructor
    throws on one of the numbers of a rectangle.  Otherwise the array
    has four entries for each rectangle; and when the contract receives
    it, the pieces it reads from it are the rectangles of the client,
    number by number as the contract receives them, in the same
    order. *)
Theorem call_data_roundtrip (toUint : BigNumber -> option Z) rects :
  (build rects = None <-> Exists throws_ rects) /\
  forall arr, build rects = Some arr ->
    length arr = (4 * length rects)%nat /\
    forall zs, mapM toUint arr = Some zs -> mapM (rectOf_ toUint) rects = Some (pieces zs).
Proof. split; [apply build_throws | apply build_decoded]. Qed.

End ClientArray.

Section ClientCalls.

Variable doRectanglesOverlap : Rect -> Rect -> option bool.
Variable computeRectOverlap : Rect -> Rect -> option Rect.

Variable number : Type.
Variable BigNumber : Type.
Variable zero : number.
Variable ofNumber : number -> option BigNumber.
Variable ofString : string -> option BigNumber.
Variable toUint24 : BigNumber -> option Z.
Variable toUint256 : BigNumber -> option Z.

#[local] Abbreviation execute_ :=
  (execute doRectanglesOverlap computeRectOverlap).
#[local] Abbreviation piece_checked_ :=
  (piece_checked doRectanglesOverlap computeRectOverlap).
#[local] Abbreviation build := (Client.buildArrayFromRectangles number BigNumber ofNumber).
#[local] Abbreviation uintOf_ := (uintOf number BigNumber ofNumber).
#[local] Abbreviation rectOf_ := (rectOf number BigNumber ofNumber).

Lemma mapM_uintOf (toUint : BigNumber -> option Z) (ns : list number) bs zs :
  mapM ofNumber ns = Some bs -> mapM toUint bs = Some zs ->
  mapM (uintOf_ toUint) ns = Some zs.
Proof.
  intros Hn Hb. apply mapM_Some in Hn. apply mapM_Some in Hb. apply mapM_Some.
  revert zs Hb. induction Hn as [|n b ns bs Hnb _ IH]; intros zs Hb.
  - apply Forall2_nil_inv_l in Hb. subst. constructor.
  - apply Forall2_cons_inv_l in Hb. destruct Hb as (z & zs' & Hz & Hb & ->).
    constructor; [|by apply IH]. unfold uintOf. rewrite Hnb. exact Hz.
Qed.

(** X15.  A purchase built by the client that succeeds.  The new record
    is the rectangle the client asked for, as the contract receives it,
    owned by the sender, with the buyout price the client gave (the
    number zero when it gave none); there are as many chunks as record
    ids; and every chunk of the client, as the contract receives it,
    has passed the checks of the payout loop against the record it is
    bought from. *)
Theorem client_purchase env r chunks ids url ipfs buyout tx s s' :
  Client.purchaseTx number BigNumber zero ofNumber ofString toUint24 toUint256
    r chunks ids url ipfs buyout = Some tx ->
  execute_ env tx s = (s', Success) ->
  exists t chunks' ids' b,
    rectOf_ toUint24 r = Some t /\ mapM (rectOf_ toUint256) chunks = Some chunks' /\
    mapM (uintOf_ toUint256) ids = Some ids' /\
    Client.buyoutOrZero number BigNumber zero ofNumber ofString buyout ≫= toUint256
      = Some b /\
    getRecord s' (ownershipLength s)
      = Some (Zone.mk (Geometry.x t) (Geometry.y t) (Geometry.w t) (Geometry.h t)
                (msg_sender env)) /\
    priceOf s' (ownershipLength s) = b /\
    length chunks = length ids /\
    forall i id, ids' !! i = Some id -> piece_checked_ t chunks' s i id.
Proof.
  unfold Client.purchaseTx. intros Htx Hrun.
  destruct (build [r]) as [purchase|] eqn:Hb1; [|done].
  destruct (build chunks) as [purchasedAreas|] eqn:Hb2; [|done].
  destruct (mapM ofNumber ids) as [indices|] eqn:Hi; [|done].
  destruct (Client.buyoutOrZero number BigNumber zero ofNumber ofString buyout)
    as [buyoutBN|] eqn:Hbuy; [|done].
  simpl in Htx.
  destruct (mapM toUint24 purchase) as [p|] eqn:Hp; [|done].
  destruct (mapM toUint256 purchasedAreas) as [a|] eqn:Ha; [|done].
  destruct (mapM toUint256 indices) as [idx|] eqn:Hidx; [|done].
  destruct (toUint256 buyoutBN) as [b|] eqn:Hb; [|done].
  simpl in Htx. injection Htx as <-.
  destruct (build_decoded _ _ ofNumber toUint24 [r] purchase Hb1) as [Hl1 Hd1].
  destruct (build_decoded _ _ ofNumber toUint256 chunks purchasedAreas Hb2) as [_ Hd2].
  specialize (Hd1 p Hp). specialize (Hd2 a Ha).
  pose proof (length_mapM _ _ _ Hp) as Hlp. rewrite Hl1 in Hlp. simpl in Hlp.
  destruct p as [|px [|py [|pw [|ph [|]]]]]; try discriminate Hlp.
  rewrite pieces_cons in Hd1. change (pieces []) with (@nil Rect) in Hd1.
  simpl in Hd1. destruct (rectOf_ toUint24 r) as [t|] eqn:Ht; [|done].
  simpl in Hd1. injection Hd1 as ->.
  destruct (purchase_checked _ _ _ _ _ _ _ _ _ _ _ Hrun) as (t' & Hpre & Hchk).
  destruct Hpre as (Hpt & _ & _ & _ & _ & Hlen & _).
  destruct t' as [tx ty tw th]. injection Hpt as <- <- <- <-.
  apply purchase_ledger in Hrun.
  destruct Hrun as (x' & y' & w' & h' & [= <- <- <- <-] & _ & Ho & _ & Hprice & _).
  exists (Geometry.mkRect px py pw ph), (pieces a), idx, b.
  split; [done|]. split; [done|]. split; [by apply (mapM_uintOf toUint256 ids indices)|].
  split; [simpl; exact Hb|]. split; [|split; [|split; [|done]]].
  - unfold getRecord, ownershipLength. rewrite Ho, Nat2Z.id.
    rewrite lookup_app_r by lia. by rewrite Nat.sub_diag.
  - erewrite priceOf_insert by exact Hprice. by rewrite decide_True.
  - rewrite (length_mapM _ _ _ Hd2), length_pieces, Hlen.
    by rewrite <- (length_mapM _ _ _ Hidx), <- (length_mapM _ _ _ Hi).
Qed.

End ClientCalls.

(** * The further properties on the scenarios *)

Lemma reachable_s1 : reachable overlapG intersectG s1.
Proof.
  apply (reachable_execute overlapG intersectG (env alice (505 * 10 ^ 12)) pixel s0).
  - apply reachable_constructor.
  - repeat constructor; unfold UINT24; lia.
Defined.

Lemma later_s1 : later overlapG intersectG s0 s1.
Proof.
  exact (later_execute overlapG intersectG s0 (env alice (505 * 10 ^ 12)) pixel s0
           (later_now overlapG intersectG s0)).
Defined.

Lemma pixel_bought : run (env alice (505 * 10 ^ 12)) pixel s0 = (s1, Success).
Proof. vm_compute. reflexivity. Defined.

Lemma pixel_typed : Forall is_uint256 [10; 10; 1; 1].
Proof. repeat constructor; unfold UINT256; lia. Defined.

(** X1 on the admin lowering the price of the first record to one wei. *)
Lemma updateAuction_effect_witness :
  run (env admin 0) (UpdateAuction 0 1) s0 = (cheap, Success) /\
  priceOf cheap 0 = 1 /\
  ownership cheap = ownership s0 /\
  log cheap = log s0 ++ [AuctionUpdated 0 1 admin].
Proof.
  assert (H : run (env admin 0) (UpdateAuction 0 1) s0 = (cheap, Success))
    by (vm_compute; reflexivity).
  destruct (updateAuction_effect overlapG intersectG (env admin 0) 0 1 s0 cheap H)
    as (zone & _ & _ & _ & _ & Hp & Ho & _ & _ & _ & _ & Hlog).
  split; [exact H|]. split; [exact (Hp 0)|]. split; [exact Ho | exact Hlog].
Defined.

(** X2 on the admin and the first record. *)
Lemma updateAuction_by_owner_witness :
  getRecord s0 0 = Some (Zone.mk 0 0 250 250 admin) /\
  0 <= balanceOf s0 admin /\
  exists s', run (env admin 0) (UpdateAuction 0 5) s0 = (s', Success) /\ priceOf s' 0 = 5.
Proof.
  assert (Hz : getRecord s0 0 = Some (Zone.mk 0 0 250 250 admin)) by reflexivity.
  assert (Hb : 0 <= balanceOf s0 (msg_sender (env admin 0))) by (vm_compute; discriminate).
  split; [exact Hz|]. split; [exact Hb|].
  exact (updateAuction_by_owner overlapG intersectG (env admin 0) 0 5 s0
           (Zone.mk 0 0 250 250 admin) ltac:(lia) Hz eq_refl eq_refl Hb).
Defined.

(** X3 on the admin withdrawing the fee of Alice's purchase. *)
Lemma withdraw_effect_witness :
  let s' := (run (env admin 0) (Withdraw admin) s1).1 in
  run (env admin 0) (Withdraw admin) s1 = (s', Success) /\
  ledger_eq s1 s' /\
  balanceOf s' grid = 0 /\
  balanceOf s' admin = balanceOf s1 admin + balanceOf s1 grid.
Proof.
  intros s'.
  assert (H : run (env admin 0) (Withdraw admin) s1 = (s', Success))
    by (vm_compute; reflexivity).
  destruct (withdraw_effect overlapG intersectG (env admin 0) admin s1 s' H)
    as (_ & _ & _ & _ & Hl & _ & Hbal).
  split; [exact H|]. split; [exact Hl|].
  split; [rewrite (Hbal grid) | rewrite (Hbal admin)]; vm_compute; reflexivity.
Defined.

(** X4 on the first record and Alice's purchase. *)
Lemma records_append_only_witness :
  later overlapG intersectG s0 s1 /\
  getRecord s0 0 = Some (Zone.mk 0 0 250 250 admin) /\
  getRecord s1 0 = Some (Zone.mk 0 0 250 250 admin) /\
  ownershipLength s0 <= ownershipLength s1.
Proof.
  split; [exact later_s1|]. split; [reflexivity|].
  exact (records_append_only overlapG intersectG s0 s1 0 (Zone.mk 0 0 250 250 admin)
           later_s1 eq_refl).
Defined.

(** X5 on the first record and Alice's purchase. *)
Lemma existing_entries_kept_witness :
  later overlapG intersectG s0 s1 /\ 0 < ownershipLength s0 /\
  data s1 !! 0 = data s0 !! 0 /\ holesOf s0 0 `prefix_of` holesOf s1 0.
Proof.
  assert (Hlt : 0 < ownershipLength s0) by reflexivity.
  split; [exact later_s1|]. split; [exact Hlt|].
  exact (existing_entries_kept overlapG intersectG s0 s1 0 later_s1 Hlt).
Defined.

(** X6 on the admin lowering the price of the first record. *)
Lemma price_changed_by_owner_witness :
  0 <> ownershipLength s0 /\
  priceOf (run (env admin 0) (UpdateAuction 0 1) s0).1 0 <> priceOf s0 0 /\
  exists p zone, UpdateAuction 0 1 = UpdateAuction 0 p /\ getRecord s0 0 = Some zone /\
    msg_sender (env admin 0) = Zone.owner zone /\
    (run (env admin 0) (UpdateAuction 0 1) s0).2 = Success.
Proof.
  assert (Hk : 0 <> ownershipLength s0) by (vm_compute; discriminate).
  assert (Hp : priceOf (run (env admin 0) (UpdateAuction 0 1) s0).1 0 <> priceOf s0 0)
    by (vm_compute; discriminate).
  split; [exact Hk|]. split; [exact Hp|].
  exact (price_changed_by_owner overlapG intersectG (env admin 0) (UpdateAuction 0 1) s0 0
           Hk Hp).
Defined.

(** X7 on the hole Alice's pixel left in the first record. *)
Lemma holes_are_later_records_witness :
  reachable overlapG intersectG s1 /\ 1 ∈ holesOf s1 0 /\ 0 < 1 < ownershipLength s1.
Proof.
  assert (Hin : 1 ∈ holesOf s1 0) by (vm_compute; apply list_elem_of_here).
  split; [exact reachable_s1|]. split; [exact Hin|].
  exact (holes_are_later_records overlapG intersectG s1 0 1 reachable_s1 Hin).
Defined.

(** X8 on the hole Alice's pixel left in the first record. *)
Lemma holes_overlap_their_record_witness :
  reachable overlapG intersectG s1 /\ 1 ∈ holesOf s1 0 /\
  getRecord s1 0 = Some (Zone.mk 0 0 250 250 admin) /\
  getRecord s1 1 = Some (Zone.mk 10 10 1 1 alice) /\
  overlapG (zoneRect (Zone.mk 10 10 1 1 alice)) (zoneRect (Zone.mk 0 0 250 250 admin))
    = Some true.
Proof.
  assert (Hin : 1 ∈ holesOf s1 0) by (vm_compute; apply list_elem_of_here).
  assert (H0 : getRecord s1 0 = Some (Zone.mk 0 0 250 250 admin)) by (vm_compute; reflexivity).
  assert (H1 : getRecord s1 1 = Some (Zone.mk 10 10 1 1 alice)) by (vm_compute; reflexivity).
  split; [exact reachable_s1|]. split; [exact Hin|]. split; [exact H0|]. split; [exact H1|].
  exact (holes_overlap_their_record overlapG intersectG s1 0 1 _ _ reachable_s1 Hin H0 H1).
Defined.

(** X9 on Alice's pixel. *)
Lemma purchase_checks_every_piece_witness :
  run (env alice (505 * 10 ^ 12)) pixel s0 = (s1, Success) /\
  exists x y w h, [10; 10; 1; 1] = [x; y; w; h] /\
    piece_checked overlapG intersectG (Geometry.mkRect x y w h)
      (pieces [10; 10; 1; 1]) s0 0 0.
Proof.
  split; [exact pixel_bought|].
  exact (purchase_checks_every_piece overlapG intersectG (env alice (505 * 10 ^ 12))
           [10; 10; 1; 1] [10; 10; 1; 1] [0] "hash" "url" 7 s0 s1 0 0
           pixel_bought eq_refl).
Defined.

(** X10: after Alice's purchase and a change of the price, Bob cannot
    buy Alice's pixel from the first record. *)
Lemma no_double_sale_witness :
  let s2 := (run (env admin 0) (UpdateAuction 0 1) s1).1 in
  run (env alice (505 * 10 ^ 12)) pixel s0 = (s1, Success) /\
  later overlapG intersectG s1 s2 /\
  overlapG (Geometry.mkRect 10 10 1 1) (Geometry.mkRect 10 10 1 1) = Some true /\
  (run (env bob (505 * 10 ^ 12)) pixel s2).2 <> Success.
Proof.
  intros s2.
  assert (Hl : later overlapG intersectG s1 s2).
  { exact (later_execute overlapG intersectG s1 (env admin 0) (UpdateAuction 0 1) s1
             (later_now overlapG intersectG s1)). }
  assert (Ho : overlapG (Geometry.mkRect 10 10 1 1) (Geometry.mkRect 10 10 1 1) = Some true)
    by (vm_compute; reflexivity).
  assert (Hp : pieces [10; 10; 1; 1] !! 0%nat = Some (Geometry.mkRect 10 10 1 1))
    by (vm_compute; reflexivity).
  split; [exact pixel_bought|]. split; [exact Hl|]. split; [exact Ho|].
  exact (no_double_sale overlapG intersectG (env alice (505 * 10 ^ 12)) 10 10 1 1
           [10; 10; 1; 1] [0] "hash" "url" 7 s0 s1 s2
           (env bob (505 * 10 ^ 12)) [10; 10; 1; 1] [10; 10; 1; 1] [0] "hash" "url" 7
           0 0 (Geometry.mkRect 10 10 1 1)
           pixel_bought (list_elem_of_here 0 []) Hl eq_refl Hp Ho).
Defined.

(** X11 on Alice's pixel: what the admin, who sells it, receives. *)
Lemma purchase_balances_witness :
  Forall is_uint256 [10; 10; 1; 1] /\
  run (env alice (505 * 10 ^ 12)) pixel s0 = (s1, Success) /\
  balanceOf s1 admin = balanceOf s0 admin + 2 * 10 ^ 13 /\
  balanceOf s1 alice = balanceOf s0 alice - 505 * 10 ^ 12 /\
  balanceOf s1 grid = balanceOf s0 grid + (505 * 10 ^ 12 - 2 * 10 ^ 13).
Proof.
  split; [exact pixel_typed|]. split; [exact pixel_bought|].
  destruct (purchase_balances overlapG intersectG (env alice (505 * 10 ^ 12))
              [10; 10; 1; 1] [10; 10; 1; 1] [0] "hash" "url" 7 s0 s1 admin
              pixel_typed pixel_bought) as [Ha _].
  destruct (purchase_balances overlapG intersectG (env alice (505 * 10 ^ 12))
              [10; 10; 1; 1] [10; 10; 1; 1] [0] "hash" "url" 7 s0 s1 alice
              pixel_typed pixel_bought) as [Hb _].
  destruct (purchase_balances overlapG intersectG (env alice (505 * 10 ^ 12))
              [10; 10; 1; 1] [10; 10; 1; 1] [0] "hash" "url" 7 s0 s1 grid
              pixel_typed pixel_bought) as [Hc _].
  split; [rewrite Ha; vm_compute; reflexivity|].
  split; [rewrite Hb; vm_compute; reflexivity|].
  rewrite Hc. vm_compute. reflexivity.
Defined.

(** X12 on Alice's pixel, whose price is 20000 gwei: 20200 gwei are
    enough and any less is not. *)
Lemma payment_threshold_witness :
  Forall is_uint256 [10; 10; 1; 1] /\ 0 <= balanceOf s0 grid /\
  run (env alice (505 * 10 ^ 12)) pixel s0 = (s1, Success) /\
  (run (env alice (202 * 10 ^ 11)) pixel s0).2 = Success /\
  (run (env alice (202 * 10 ^ 11 - 1)) pixel s0).2 <> Success.
Proof.
  assert (Hb : 0 <= balanceOf s0 (this (env alice (505 * 10 ^ 12))))
    by (vm_compute; discriminate).
  assert (Hf1 : 202 * 10 ^ 11 <= balanceOf s0 (msg_sender (env alice (505 * 10 ^ 12))))
    by (vm_compute; discriminate).
  assert (Hf2 : 202 * 10 ^ 11 - 1 <= balanceOf s0 (msg_sender (env alice (505 * 10 ^ 12))))
    by (vm_compute; discriminate).
  split; [exact pixel_typed|]. split; [exact Hb|]. split; [exact pixel_bought|].
  split.
  - apply (payment_threshold overlapG intersectG (env alice (505 * 10 ^ 12))
             [10; 10; 1; 1] [10; 10; 1; 1] [0] "hash" "url" 7 s0 s1 (202 * 10 ^ 11)
             pixel_typed Hb pixel_bought Hf1).
    vm_compute. discriminate.
  - intros Hs.
    apply (payment_threshold overlapG intersectG (env alice (505 * 10 ^ 12))
             [10; 10; 1; 1] [10; 10; 1; 1] [0] "hash" "url" 7 s0 s1 (202 * 10 ^ 11 - 1)
             pixel_typed Hb pixel_bought Hf2) in Hs.
    vm_compute in Hs. apply Hs. reflexivity.
Defined.

(** X13 on Bob's strip of three pieces. *)
Lemma accepted_tiling_witness :
  Forall is_uint24 [9; 10; 3; 1] /\
  Forall is_uint256 [9; 10; 1; 1;  10; 10; 1; 1;  11; 10; 1; 1] /\
  run (env bob (505 * 10 ^ 12)) strip s1 = (s2, Success) /\
  areas (pieces [9; 10; 1; 1;  10; 10; 1; 1;  11; 10; 1; 1]) = 3.
Proof.
  assert (Hp : Forall is_uint24 [9; 10; 3; 1]) by (repeat constructor; unfold UINT24; lia).
  assert (Ha : Forall is_uint256 [9; 10; 1; 1;  10; 10; 1; 1;  11; 10; 1; 1])
    by (repeat constructor; unfold UINT256; lia).
  assert (H : run (env bob (505 * 10 ^ 12)) strip s1 = (s2, Success))
    by (vm_compute; reflexivity).
  split; [exact Hp|]. split; [exact Ha|]. split; [exact H|].
  destruct (accepted_tiling overlapG intersectG (env bob (505 * 10 ^ 12))
              [9; 10; 3; 1] [9; 10; 1; 1;  10; 10; 1; 1;  11; 10; 1; 1] [0; 1; 0]
              "hash" "url" 7 s1 s2 Hp Ha H) as (t & Ht & _ & _ & Hsum & _).
  rewrite Hsum. destruct t as [tx ty tw th]. injection Ht as _ _ <- <-. reflexivity.
Defined.

(** X16: the admin takes the first record off the market, and Alice
    cannot buy her pixel. *)
Lemma zero_price_cancels_sale_witness :
  let s' := (run (env admin 0) (UpdateAuction 0 0) s0).1 in
  run (env admin 0) (UpdateAuction 0 0) s0 = (s', Success) /\
  (run (env alice (505 * 10 ^ 12)) pixel s').2 <> Success.
Proof.
  intros s'.
  assert (H : run (env admin 0) (UpdateAuction 0 0) s0 = (s', Success))
    by (vm_compute; reflexivity).
  split; [exact H|].
  exact (zero_price_cancels_sale overlapG intersectG (env admin 0) 0 s0 s'
           (env alice (505 * 10 ^ 12)) [10; 10; 1; 1] [10; 10; 1; 1] [0] "hash" "url" 7
           H (list_elem_of_here 0 [])).
Defined.

(** X17 on the grid after Alice's purchase. *)
Lemma records_of_reachable_witness :
  reachable overlapG intersectG s1 /\
  (exists a, getRecord s1 0 = Some (Zone.mk 0 0 GRID_WIDTH GRID_HEIGHT a)) /\
  (forall k zone, 0 < k -> getRecord s1 k = Some zone ->
     Zone.w zone * Zone.h zone < MAXIMUM_PURCHASE_AREA).
Proof.
  split; [exact reachable_s1|].
  exact (records_of_reachable overlapG intersectG s1 reachable_s1).
Defined.

(** X18 on Alice's pixel, sold by the admin. *)
Lemma sellers_accept_payment_witness :
  run (env alice (505 * 10 ^ 12)) pixel s0 = (s1, Success) /\
  getRecord s0 0 = Some (Zone.mk 0 0 250 250 admin) /\
  can_receive (env alice (505 * 10 ^ 12)) admin = true.
Proof.
  split; [exact pixel_bought|]. split; [reflexivity|].
  exact (sellers_accept_payment overlapG intersectG (env alice (505 * 10 ^ 12))
           [10; 10; 1; 1] [10; 10; 1; 1] [0] "hash" "url" 7 s0 s1 0
           (Zone.mk 0 0 250 250 admin) pixel_bought (list_elem_of_here 0 []) eq_refl).
Defined.

(** X19 on Alice's pixel: the checks hold on the new grid, and the
    purchase succeeds. *)
Lemma purchase_accepted_witness :
  admissible (Geometry.mkRect 10 10 1 1) /\
  areas (pieces [10; 10; 1; 1]) = area (Geometry.mkRect 10 10 1 1) /\
  piece_checked overlapG intersectG (Geometry.mkRect 10 10 1 1) (pieces [10; 10; 1; 1]) s0 0 0 /\
  totalPrice s0 (tiling [10; 10; 1; 1] [0]) + totalPrice s0 (tiling [10; 10; 1; 1] [0]) / 100
    <= 505 * 10 ^ 12 /\
  (run (env alice (505 * 10 ^ 12)) pixel s0).2 = Success.
Proof.
  assert (Hty : uint24_rect (Geometry.mkRect 10 10 1 1))
    by (repeat split; simpl; unfold UINT24; lia).
  assert (Hadm : admissible (Geometry.mkRect 10 10 1 1))
    by (unfold admissible, in_grid, area, GRID_WIDTH, GRID_HEIGHT, MAXIMUM_PURCHASE_AREA;
        simpl; lia).
  assert (Hsum : areas (pieces [10; 10; 1; 1]) = area (Geometry.mkRect 10 10 1 1))
    by (vm_compute; reflexivity).
  assert (Hin : Forall (fun piece => within piece (Geometry.mkRect 10 10 1 1) = true)
                  (pieces [10; 10; 1; 1]))
    by (repeat constructor).
  assert (Hdis : forall i j ri rj, (i < j)%nat ->
            pieces [10; 10; 1; 1] !! i = Some ri -> pieces [10; 10; 1; 1] !! j = Some rj ->
            overlapG ri rj = Some false).
  { intros i j ri rj Hij _ Hj. destruct j as [|j]; [lia|].
    change (pieces [10; 10; 1; 1]) with [Geometry.mkRect 10 10 1 1] in Hj. discriminate Hj. }
  assert (Hchk0 : piece_checked overlapG intersectG (Geometry.mkRect 10 10 1 1)
                    (pieces [10; 10; 1; 1]) s0 0 0).
  { exists (Zone.mk 0 0 250 250 admin), (Geometry.mkRect 10 10 1 1), (Geometry.mkRect 10 10 1 1).
    split; [reflexivity|]. split; [vm_compute; reflexivity|]. split; [vm_compute; reflexivity|].
    split; [reflexivity|]. split; [vm_compute; reflexivity|].
    split; [|vm_compute; reflexivity].
    unfold clear_of_holes. replace (holesOf s0 0) with (@nil Z) by (vm_compute; reflexivity).
    constructor. }
  assert (Hchk : forall i id, [0] !! i = Some id ->
            piece_checked overlapG intersectG (Geometry.mkRect 10 10 1 1)
              (pieces [10; 10; 1; 1]) s0 i id).
  { intros [|i] id Hi; [|discriminate Hi]. injection Hi as <-. exact Hchk0. }
  assert (Hpay : totalPrice s0 (tiling [10; 10; 1; 1] [0])
                 + totalPrice s0 (tiling [10; 10; 1; 1] [0]) / 100 <= 505 * 10 ^ 12)
    by (vm_compute; discriminate).
  split; [exact Hadm|]. split; [exact Hsum|]. split; [exact Hchk0|]. split; [exact Hpay|].
  apply (purchase_accepted overlapG intersectG (env alice (505 * 10 ^ 12)) 10 10 1 1
           [10; 10; 1; 1] [0] "hash" "url" 7 s0 Hty Hadm pixel_typed eq_refl
           ltac:(simpl; lia) Hsum Hin Hdis Hchk).
  - intros id zone _ _. reflexivity.
  - vm_compute. discriminate.
  - vm_compute. discriminate.
  - exact Hpay.
  - vm_compute. reflexivity.
Defined.

(** C5 on Bob's strip.  On the grid after Alice's purchase the strip is
    bought for the sum of its three section prices, 20000 gwei twice
    and 7 wei for Alice's pixel.  Once Alice has set her price to zero,
    the same purchase gets through its first piece and fails with
    [NotForSale] at the second. *)
Lemma total_price_exact_witness :
  Forall is_uint256 [9; 10; 1; 1;  10; 10; 1; 1;  11; 10; 1; 1] /\
  run (env bob (505 * 10 ^ 12)) strip s1 = (s2, Success) /\
  (exists st,
     validatePurchases overlapG intersectG (env bob (505 * 10 ^ 12))
       [9; 10; 3; 1] [9; 10; 1; 1;  10; 10; 1; 1;  11; 10; 1; 1] [0; 1; 0]
       (entry (env bob (505 * 10 ^ 12)) s1)
     = Ok (4 * 10 ^ 13 + 7) st) /\
  PlotPurchased 2 (4 * 10 ^ 13 + 7) bob ∈ log s2 /\
  priceOf off_market 1 = 0 /\
  run (env bob (505 * 10 ^ 12)) strip off_market = (off_market, Failed NotForSale).
Proof.
  set (areas3 := [9; 10; 1; 1;  10; 10; 1; 1;  11; 10; 1; 1]).
  set (bobs := env bob (505 * 10 ^ 12)).
  assert (Ha : Forall is_uint256 areas3)
    by (repeat constructor; unfold UINT256; lia).
  assert (H : run bobs strip s1 = (s2, Success)) by (vm_compute; reflexivity).
  assert (HP : totalPrice s1 (tiling areas3 [0; 1; 0]) = 4 * 10 ^ 13 + 7)
    by (vm_compute; reflexivity).
  assert (Hlen : ownershipLength s1 = 2) by (vm_compute; reflexivity).
  destruct (total_price_exact overlapG intersectG bobs [9; 10; 3; 1] areas3 [0; 1; 0]
              "hash" "url" 7 s1 Ha) as (_ & Hsuccess & _).
  destruct (Hsuccess s2 H) as [Hv Hev]. rewrite HP in Hv. rewrite HP, Hlen in Hev.
  split; [exact Ha|]. split; [exact H|]. split; [exact Hv|]. split; [exact Hev|].
  assert (Hzero : priceOf off_market 1 = 0) by (vm_compute; reflexivity).
  split; [exact Hzero|].
  destruct (total_price_exact overlapG intersectG bobs [9; 10; 3; 1] areas3 [0; 1; 0]
              "hash" "url" 7 off_market Ha) as (_ & _ & _ & _ & Hfail).
  apply (Hfail 9 10 3 1 1%nat 1 (Zone.mk 10 10 1 1 alice)
           (Geometry.mkRect 10 10 1 1) (Geometry.mkRect 10 10 1 1)).
  - reflexivity.
  - repeat split; simpl; unfold UINT24; lia.
  - unfold admissible, in_grid, area, GRID_WIDTH, GRID_HEIGHT, MAXIMUM_PURCHASE_AREA.
    simpl. lia.
  - reflexivity.
  - vm_compute. reflexivity.
  - repeat constructor.
  - intros i j ri rj Hij Hi Hj.
    change (pieces areas3)
      with [Geometry.mkRect 9 10 1 1; Geometry.mkRect 10 10 1 1; Geometry.mkRect 11 10 1 1]
      in Hi, Hj.
    destruct i as [|[|[|i]]], j as [|[|[|j]]]; try lia; try discriminate Hi;
      try discriminate Hj; injection Hi as <-; injection Hj as <-; vm_compute; reflexivity.
  - intros [|j] idj Hj Hidj; [|lia]. injection Hidj as <-. split.
    + exists (Zone.mk 0 0 250 250 admin), (Geometry.mkRect 9 10 3 1), (Geometry.mkRect 9 10 1 1).
      split; [vm_compute; reflexivity|]. split; [vm_compute; reflexivity|].
      split; [vm_compute; reflexivity|]. split; [reflexivity|].
      split; [vm_compute; reflexivity|]. split; [|vm_compute; reflexivity].
      unfold clear_of_holes. replace (holesOf off_market 0) with [1] by (vm_compute; reflexivity).
      constructor; [|constructor].
      exists (Zone.mk 10 10 1 1 alice). split; vm_compute; reflexivity.
    + intros zj _. reflexivity.
  - reflexivity.
  - reflexivity.
  - vm_compute. reflexivity.
  - vm_compute. reflexivity.
  - vm_compute. reflexivity.
  - vm_compute. reflexivity.
  - unfold clear_of_holes. replace (holesOf off_market 1) with (@nil Z) by (vm_compute; reflexivity).
    constructor.
  - exact Hzero.
  - vm_compute. discriminate.
  - vm_compute. discriminate.
  - vm_compute. discriminate.
  - vm_compute. reflexivity.
Defined.

(** X14 on Alice's pixel, and on a rectangle with a number of sixteen
    digits. *)
Lemma call_data_roundtrip_witness :
  Client.buildArrayFromRectangles Z Z ClientScenario.ofNumber [ClientScenario.rect 10 10 1 1]
    = Some [10; 10; 1; 1] /\
  mapM (rectOf Z Z ClientScenario.ofNumber ClientScenario.toUint256)
    [ClientScenario.rect 10 10 1 1] = Some [Geometry.mkRect 10 10 1 1] /\
  Client.buildArrayFromRectangles Z Z ClientScenario.ofNumber
    [ClientScenario.rect 10 10 1 1; ClientScenario.rect (10 ^ 15) 0 1 1] = None.
Proof.
  assert (Hb : Client.buildArrayFromRectangles Z Z ClientScenario.ofNumber
                 [ClientScenario.rect 10 10 1 1] = Some [10; 10; 1; 1])
    by (vm_compute; reflexivity).
  assert (Hz : mapM ClientScenario.toUint256 [10; 10; 1; 1] = Some [10; 10; 1; 1])
    by (vm_compute; reflexivity).
  split; [exact Hb|]. split.
  - destruct (call_data_roundtrip Z Z ClientScenario.ofNumber ClientScenario.toUint256
                [ClientScenario.rect 10 10 1 1]) as [_ Hd].
    destruct (Hd _ Hb) as [_ Hp]. exact (Hp _ Hz).
  - apply (call_data_roundtrip Z Z ClientScenario.ofNumber ClientScenario.toUint256
             [ClientScenario.rect 10 10 1 1; ClientScenario.rect (10 ^ 15) 0 1 1]).
    apply Exists_cons_tl, Exists_cons_hd. left. vm_compute. reflexivity.
Defined.

(** X15 on Alice's pixel, sent by the client. *)
Lemma client_purchase_witness :
  Client.purchaseTx Z Z 0 ClientScenario.ofNumber ClientScenario.ofString
    ClientScenario.toUint24 ClientScenario.toUint256 (ClientScenario.rect 10 10 1 1) [ClientScenario.rect 10 10 1 1] [0]
    (Some "url"%string) "hash" (Some "7"%string) = Some pixel /\
  run (env alice (505 * 10 ^ 12)) pixel s0 = (s1, Success) /\
  getRecord s1 (ownershipLength s0) = Some (Zone.mk 10 10 1 1 alice) /\
  priceOf s1 (ownershipLength s0) = 7.
Proof.
  assert (Htx : Client.purchaseTx Z Z 0 ClientScenario.ofNumber ClientScenario.ofString
                  ClientScenario.toUint24 ClientScenario.toUint256 (ClientScenario.rect 10 10 1 1)
                  [ClientScenario.rect 10 10 1 1] [0] (Some "url"%string) "hash"
                  (Some "7"%string)
                = Some pixel)
    by (vm_compute; reflexivity).
  assert (Hrun : run (env alice (505 * 10 ^ 12)) pixel s0 = (s1, Success))
    by (vm_compute; reflexivity).
  destruct (client_purchase overlapG intersectG Z Z 0 ClientScenario.ofNumber
              ClientScenario.ofString ClientScenario.toUint24 ClientScenario.toUint256
              (env alice (505 * 10 ^ 12))
              (ClientScenario.rect 10 10 1 1) [ClientScenario.rect 10 10 1 1] [0]
              (Some "url"%string) "hash" (Some "7"%string) pixel s0 s1 Htx Hrun)
    as (t & chunks' & ids' & b & Ht & _ & _ & Hb & Hrec & Hprice & _).
  assert (Ht' : t = Geometry.mkRect 10 10 1 1).
  { vm_compute in Ht. by injection Ht as <-. }
  assert (Hb' : b = 7).
  { vm_compute in Hb. by injection Hb as <-. }
  rewrite Ht' in Hrec. rewrite Hb' in Hprice.
  split; [exact Htx|]. split; [exact Hrun|]. split; [exact Hrec | exact Hprice].
Defined.
